(** * The split-DNS forwarder of the host agent (pkg/hostagent/dns.go)

    A shallow embedding of the resolver that the host agent runs for the
    guest: configuration discovery ([newHandler]), the per-query router
    ([matchDomainConfig], [ServeDNS]), the forwarding loop
    ([tryWithConfig]) and the listener handle ([StartDNS], [Shutdown]).

    Everything the Go code obtains from outside the package (the network,
    the platform resolver list, the resolver file, the DNS library) is an
    explicit input of the model; the Go code itself is transcribed
    statement by statement. *)

From Stdlib Require Import ZArith Ascii String List Bool Lia Permutation Sorted.
From stdpp Require Import base strings gmap list pretty sorting.

Open Scope string_scope.
Open Scope list_scope.

(** ** Go strings

    DNS names reach the handler in presentation format, which is ASCII
    (the DNS library escapes every other byte), so [strings.ToLower] is
    embedded on bytes: 'A'..'Z' are moved to 'a'..'z', everything else is
    kept. *)

Module GoStrings.

Definition lowerByte (c : ascii) : ascii :=
  let n := nat_of_ascii c in
  if (65 <=? n)%nat && (n <=? 90)%nat then ascii_of_nat (n + 32) else c.

Fixpoint ToLower (s : string) : string :=
  match s with
  | EmptyString => EmptyString
  | String c r => String (lowerByte c) (ToLower r)
  end.

(** [strings.HasSuffix(s, suffix)] is
    [len(s) >= len(suffix) && s[len(s)-len(suffix):] == suffix]. *)
Definition HasSuffix (s suffix : string) : bool :=
  (String.length suffix <=? String.length s)%nat &&
  String.eqb
    (substring (String.length s - String.length suffix) (String.length suffix) s)
    suffix.

End GoStrings.

Import GoStrings.

(** ** The match of a question name against a domain scope

    The condition of the [if] in [matchDomainConfig]:
    [strings.HasSuffix(strings.ToLower(q.Name), strings.ToLower(domain)+".")]. *)

Definition domainMatches (name domain : string) : bool :=
  HasSuffix (ToLower name) (ToLower domain +:+ ".").



(** ** Go values

    A Go [error] is [nil] or carries a message; a call that returns
    [(value, err)] is a [result]. *)

Definition error := option string.
Definition nil : error := None.
Definition errors_New (msg : string) : error := Some msg.

Definition isNil (err : error) : bool :=
  match err with None => true | Some _ => false end.

Inductive result (A : Type) : Type :=
| Ok (a : A)
| Err (err : string).
Arguments Ok {A} a.
Arguments Err {A} err.

(** How a call ends: it returns, or it panics. *)
Inductive Outcome (A : Type) : Type :=
| Returned (a : A)
| Panicked (err : string).
Arguments Returned {A} a.
Arguments Panicked {A} err.

Definition LF : string := String "010"%char EmptyString.

(** ** The DNS library types the handler reads and writes

    [dns.Msg], [dns.Question], [dns.Client] and [dns.ClientConfig] of
    github.com/miekg/dns, with the fields this package touches. *)

Module dns.

Record Question := {
  Name : string;
  Qtype : Z;
  Qclass : Z
}.

Record RR := {
  rrName : string;
  Rrtype : Z;
  Class : Z;
  Ttl : Z;
  Rdata : string
}.

Record MsgHdr := {
  Id : Z;
  Response : bool;
  Opcode : Z;
  Authoritative : bool;
  Truncated : bool;
  RecursionDesired : bool;
  RecursionAvailable : bool;
  Zero : bool;
  AuthenticatedData : bool;
  CheckingDisabled : bool;
  Rcode : Z
}.

Record Msg := {
  Hdr : MsgHdr;
  Compress : bool;
  Question_ : list Question;
  Answer : list RR;
  Ns : list RR;
  Extra : list RR
}.

Definition OpcodeQuery : Z := 0.
Definition OpcodeIQuery : Z := 1.
Definition OpcodeStatus : Z := 2.
Definition OpcodeNotify : Z := 4.
Definition OpcodeUpdate : Z := 5.

Definition RcodeSuccess : Z := 0.
Definition RcodeServerFailure : Z := 2.
Definition RcodeNameError : Z := 3.

(** [dns.Client]: [Net] is the transport, the empty string meaning UDP. *)
Record Client := { Net : string }.

(** [dns.ClientConfig]: one resolver group. *)
Record ClientConfig := {
  Servers : list string;
  Port : string
}.

(** [dns.Server], as far as [Shutdown] can tell: [started] is the
    library's own flag, set while the listener serves. *)
Record Server := {
  srvNet : string;
  Addr : string;
  started : bool
}.

(** The [Shutdown] method of [dns.Server]: an error when the server is
    not running, otherwise the listener is stopped. *)
Definition Shutdown (srv : Server) : error * Server :=
  if started srv
  then (nil, {| srvNet := srvNet srv; Addr := Addr srv; started := false |})
  else (errors_New "dns: server not started", srv).

End dns.

(** ** The platform resolver list

    [scutil.Resolver] of github.com/johnstarich/go/dns/scutil; [Reachable]
    stands for the result of the method of that name. *)

Module scutil.

Record Resolver := {
  Domain : string;
  Nameservers : list string;
  Order : Z;
  Reachable : bool
}.

End scutil.

(** ** What a handler run does, as a trace

    [EvExchange] and [EvWrite] are the two calls that leave the package
    ([client.Exchange] and [w.WriteMsg]). [EvMatch] and [EvTry] are
    markers: the first is recorded when [matchDomainConfig] is entered,
    the second where a caller hands a resolver group to [tryWithConfig],
    with the table the group came from. *)

Inductive origin :=
| Scoped (domain : string)
| Default.

Inductive Event :=
| EvMatch (q : dns.Question)
| EvTry (o : origin) (clientConfig : dns.ClientConfig)
| EvExchange (client : dns.Client) (addr : string) (r : result dns.Msg)
| EvWrite (m : dns.Msg).

(** ** The outside world of a handler run

    [Exchange] is [client.Exchange(req, addr)]: the network answers or
    fails, and may answer differently the next time. [RangeMap] is the
    order a [for ... range] statement visits the domain table in: Go
    leaves it open, and it may differ from one loop to the next. *)

Class Runtime := {
  World : Type;
  Exchange : World -> dns.Client -> dns.Msg -> string -> result dns.Msg * World;
  RangeMap : World -> gmap string (list dns.ClientConfig) ->
             list (string * list dns.ClientConfig) * World
}.

(** A [range] visits every entry of the map once. *)
Class RangeVisitsAll (RT : Runtime) : Prop :=
  range_visits_all :
    forall w (m : gmap string (list dns.ClientConfig)),
      fst (RangeMap w m) ≡ₚ map_to_list m.

(** ** A small monad: thread the world, collect the trace *)

Definition M `{RT : Runtime} (A : Type) : Type :=
  World -> A * list Event * World.

Definition ret `{RT : Runtime} {A} (a : A) : M A :=
  fun w => (a, [], w).

Definition bind `{RT : Runtime} {A B} (m : M A) (k : A -> M B) : M B :=
  fun w =>
    let '(a, evs1, w1) := m w in
    let '(b, evs2, w2) := k a w1 in
    (b, evs1 ++ evs2, w2).

Notation "'let*' x ':=' m 'in' k" := (bind m (fun x => k))
  (at level 10, x pattern, m at level 200, k at level 200).

Definition emit `{RT : Runtime} (ev : Event) : M unit :=
  fun w => (tt, [ev], w).

(** [reply, _, err := client.Exchange(req, addr)] *)
Definition exchange `{RT : Runtime}
    (client : dns.Client) (req : dns.Msg) (addr : string) : M (result dns.Msg) :=
  fun w => let '(r, w') := Exchange w client req addr in
           (r, [EvExchange client addr r], w').

(** [_ = w.WriteMsg(m)] *)
Definition WriteMsg `{RT : Runtime} (m : dns.Msg) : M unit :=
  emit (EvWrite m).

(** [for k, v := range m] *)
Definition rangeMap `{RT : Runtime} (m : gmap string (list dns.ClientConfig))
    : M (list (string * list dns.ClientConfig)) :=
  fun w => let '(ents, w') := RangeMap w m in (ents, [], w').

(** A [for ... range xs] loop whose body may [return]: the body answers
    [true] when it returned, and then the loop is left at once. *)
Fixpoint forUntil `{RT : Runtime} {A} (body : A -> M bool) (xs : list A) : M bool :=
  match xs with
  | [] => ret false
  | x :: rest =>
      let* done := body x in
      if done then ret true else forUntil body rest
  end.

(** ** The handler *)

Record Handler := {
  domainClientConfigs : gmap string (list dns.ClientConfig);
  defaultClientConfigs : list dns.ClientConfig;
  clients : list dns.Client
}.

Section Handling.
Context `{RT : Runtime}.

(** [tryWithConfig]: every client in turn, and for each client every
    server of the group in turn; the first exchange without an error is
    written to the response writer and ends the call with [nil]. A failed
    exchange is logged and the loop goes on. *)
Definition tryWithConfig (h : Handler) (req : dns.Msg)
    (clientConfig : dns.ClientConfig) : M error :=
  let* done :=
    forUntil (fun client =>
      forUntil (fun srv =>
        let addr := srv +:+ ":" +:+ dns.Port clientConfig in
        let* r := exchange client req addr in
        match r with
        | Err _ => ret false
        | Ok reply => let* _ := WriteMsg reply in ret true
        end)
      (dns.Servers clientConfig))
    (clients h) in
  ret (if done then nil else errors_New "No nameservers found").

(** [matchDomainConfig]: range over the domain table; for every scope the
    question name matches, try the groups of that scope in order. *)
Definition matchDomainConfig (h : Handler) (req : dns.Msg)
    (q : dns.Question) : M error :=
  let* _ := emit (EvMatch q) in
  let* table := rangeMap (domainClientConfigs h) in
  let* done :=
    forUntil (fun '(domain, clientConfigs) =>
      if domainMatches (dns.Name q) domain then
        forUntil (fun clientConfig =>
          let* _ := emit (EvTry (Scoped domain) clientConfig) in
          let* err := tryWithConfig h req clientConfig in
          ret (isNil err))
        clientConfigs
      else ret false)
    table in
  ret (if done then nil else errors_New "No working match found").

(** The reply [ServeDNS] writes when nothing else was written. *)
Definition failureReply (req : dns.Msg) : dns.Msg :=
  {| dns.Hdr :=
       {| dns.Id := dns.Id (dns.Hdr req);
          dns.Response := true;
          dns.Opcode := dns.Opcode (dns.Hdr req);
          dns.Authoritative := false;
          dns.Truncated := false;
          dns.RecursionDesired := false;
          dns.RecursionAvailable := false;
          dns.Zero := false;
          dns.AuthenticatedData := false;
          dns.CheckingDisabled := false;
          dns.Rcode := dns.RcodeServerFailure |};
     dns.Compress := false;
     dns.Question_ := [];
     dns.Answer := [];
     dns.Ns := [];
     dns.Extra := [] |}.

(** [req.Opcode == dns.OpcodeQuery || req.Opcode == dns.OpcodeIQuery] *)
Definition isQueryOpcode (req : dns.Msg) : bool :=
  (dns.Opcode (dns.Hdr req) =? dns.OpcodeQuery)%Z
  || (dns.Opcode (dns.Hdr req) =? dns.OpcodeIQuery)%Z.

(** The first loop of [ServeDNS], under its opcode test. *)
Definition routeByDomain (h : Handler) (req : dns.Msg) : M bool :=
  if isQueryOpcode req
  then
    forUntil (fun q =>
      let* err := matchDomainConfig h req q in
      ret (isNil err))
    (dns.Question_ req)
  else ret false.

(** The second loop of [ServeDNS]. *)
Definition tryDefaults (h : Handler) (req : dns.Msg) : M bool :=
  forUntil (fun clientConfig =>
    let* _ := emit (EvTry Default clientConfig) in
    let* err := tryWithConfig h req clientConfig in
    ret (isNil err))
  (defaultClientConfigs h).

Definition ServeDNS (h : Handler) (req : dns.Msg) : M unit :=
  let* done := routeByDomain h req in
  if done then ret tt else
  let* done := tryDefaults h req in
  if done then ret tt else
  WriteMsg (failureReply req).

End Handling.

(** ** Reading a trace *)

(** The messages written to the response writer, in order. *)
Fixpoint written (evs : list Event) : list dns.Msg :=
  match evs with
  | [] => []
  | EvWrite m :: rest => m :: written rest
  | _ :: rest => written rest
  end.

(** The exchanges made, in order, with what came back. *)
Fixpoint exchanges (evs : list Event)
    : list (dns.Client * string * result dns.Msg) :=
  match evs with
  | [] => []
  | EvExchange c addr r :: rest => (c, addr, r) :: exchanges rest
  | _ :: rest => exchanges rest
  end.

(** The questions [matchDomainConfig] was entered for, in order. *)
Fixpoint matched (evs : list Event) : list dns.Question :=
  match evs with
  | [] => []
  | EvMatch q :: rest => q :: matched rest
  | _ :: rest => matched rest
  end.

Definition failed (r : result dns.Msg) : Prop :=
  match r with Err _ => True | Ok _ => False end.

(** No exchange of the trace came back without an error. *)
Definition allExchangesFailed (evs : list Event) : Prop :=
  Forall (fun x => failed (snd x)) (exchanges evs).

Definition isDefaultTry (ev : Event) : Prop :=
  match ev with EvTry Default _ => True | _ => False end.

Definition isScopedTry (ev : Event) : Prop :=
  match ev with EvTry (Scoped _) _ => True | _ => False end.

(** The addresses [tryWithConfig] builds for a group. *)
Definition addresses (clientConfig : dns.ClientConfig) : list string :=
  map (fun srv => srv +:+ ":" +:+ dns.Port clientConfig)
      (dns.Servers clientConfig).

(** The order of attempts of [tryWithConfig]: client by client, and for
    each client address by address. *)
Definition attemptOrder (h : Handler) (clientConfig : dns.ClientConfig)
    : list (dns.Client * string) :=
  flat_map (fun client => map (pair client) (addresses clientConfig))
           (clients h).

(** An event is the failed exchange of a given attempt. *)
Definition failedAttempt (a : dns.Client * string) (ev : Event) : Prop :=
  exists err, ev = EvExchange (fst a) (snd a) (Err err).

(** The trace and the value of a finished run. *)
Definition traceOf `{RT : Runtime} {A} (r : A * list Event * World) : list Event :=
  snd (fst r).

Definition valueOf `{RT : Runtime} {A} (r : A * list Event * World) : A :=
  fst (fst r).

(** What one call of [tryWithConfig] leaves in the trace. On success:
    failed exchanges for a strict prefix of the attempts, then the
    exchange that answered and the write of its reply. On failure: one
    failed exchange for each attempt. *)
Definition tryOutcome (attempts : list (dns.Client * string))
    (done : bool) (evs : list Event) : Prop :=
  if done then
    exists pre c addr post fl reply,
      attempts = pre ++ (c, addr) :: post /\
      Forall2 failedAttempt pre fl /\
      evs = fl ++ [EvExchange c addr (Ok reply); EvWrite reply]
  else Forall2 failedAttempt attempts evs.

(** A loop result that accounts for the writes. A loop that returned
    ends with the exchange that answered and the write of its reply,
    after exchanges that all failed and no other write. A loop that went
    on made only failed exchanges and wrote nothing. *)
Definition accounted (done : bool) (evs : list Event) : Prop :=
  if done then
    exists pre c addr m,
      evs = pre ++ [EvExchange c addr (Ok m); EvWrite m] /\
      allExchangesFailed pre /\ written pre = []
  else allExchangesFailed evs /\ written evs = [].

Definition isNetwork (ev : Event) : Prop :=
  match ev with EvExchange _ _ _ | EvWrite _ => True | _ => False end.

(** [ServeDNS] ends in one of three ways. *)
Inductive ServeDNS_shape `{RT : Runtime} (h : Handler) (req : dns.Msg)
    (w : World) : list Event -> Prop :=
| served_by_scope e1 w1 :
    routeByDomain h req w = (true, e1, w1) ->
    ServeDNS_shape h req w e1
| served_by_default e1 w1 e2 w2 :
    routeByDomain h req w = (false, e1, w1) ->
    tryDefaults h req w1 = (true, e2, w2) ->
    ServeDNS_shape h req w (e1 ++ e2)
| served_failure e1 w1 e2 w2 :
    routeByDomain h req w = (false, e1, w1) ->
    tryDefaults h req w1 = (false, e2, w2) ->
    ServeDNS_shape h req w (e1 ++ e2 ++ [EvWrite (failureReply req)]).

(** What every loop of the scoped phase keeps. *)
Definition scopedInv (b : bool) (e : list Event) : Prop :=
  accounted b e /\ matched e = [] /\ Forall (fun ev => ~ isDefaultTry ev) e.

(** The body of the loop over the domain table in [matchDomainConfig]. *)
Definition scopeRound `{RT : Runtime} (h : Handler) (req : dns.Msg)
    (q : dns.Question) : string * list dns.ClientConfig -> M bool :=
  fun '(domain, clientConfigs) =>
    if domainMatches (dns.Name q) domain then
      forUntil (fun clientConfig =>
        let* _ := emit (EvTry (Scoped domain) clientConfig) in
        let* err := tryWithConfig h req clientConfig in
        ret (isNil err))
      clientConfigs
    else ret false.

(** ** A scripted world

    The network answers from a script, one entry for each exchange, and
    fails once the script is used up; a [range] visits the table in the
    order of [map_to_list]. *)

Module Scripted.

Definition answer (w : list (result dns.Msg)) (client : dns.Client)
    (req : dns.Msg) (addr : string) : result dns.Msg * list (result dns.Msg) :=
  match w with
  | [] => (Err "i/o timeout", [])
  | r :: rest => (r, rest)
  end.

#[export] Instance runtime : Runtime := {|
  World := list (result dns.Msg);
  Exchange := answer;
  RangeMap := fun w m => (map_to_list m, w)
|}.

Definition script (answers : list (result dns.Msg)) : @World runtime := answers.

End Scripted.

(** ** Configuration discovery *)

(** What discovery finds outside the package: the platform's resolver
    list ([scutil.ReadMacOSDNS], its [Resolvers]), the resolver file
    ([dns.ClientConfigFromFile]) and the DNS library's reader of
    resolver-file text ([dns.ClientConfigFromReader] on a
    [strings.Reader]). [legacySort] tells which release of the Go library
    sorts (see [sort_Slice]). *)
Record Env := {
  ReadMacOSDNS : result (list scutil.Resolver);
  ClientConfigFromFile : string -> result dns.ClientConfig;
  ClientConfigFromReader : string -> result dns.ClientConfig;
  legacySort : bool
}.

Definition newStaticClientConfig (env : Env) (ips : list string)
    : result dns.ClientConfig :=
  let s := fold_left (fun s ip => s +:+ "nameserver " +:+ ip +:+ LF) ips "" in
  ClientConfigFromReader env s.

(** *** [sort.Slice] on a short slice

    Up to twelve elements every release of the Go library sorts by
    insertion ([insertionSort_func]); releases before 1.19 first make one
    pass that compares [data[i]] with [data[i-6]]. The model says nothing
    about longer slices. *)

Section Sort.
Context {A : Type} (less : A -> A -> bool).

(** [if less(data[i], data[j]) { swap(data[i], data[j]) }], and whether
    it swapped. *)
Definition swapIfLess (data : list A) (i j : nat) : bool * list A :=
  match data !! i, data !! j with
  | Some x, Some y =>
      if less x y then (true, <[j := x]> (<[i := y]> data)) else (false, data)
  | _, _ => (false, data)
  end.

(** [for j := i; j > 0 && less(data[j], data[j-1]); j-- { swap(j, j-1) }] *)
Fixpoint bubble (j : nat) (data : list A) : list A :=
  match j with
  | O => data
  | S j' =>
      let '(swapped, data') := swapIfLess data j j' in
      if swapped then bubble j' data' else data
  end.

(** [for i := 1; i < len(data); i++ { ... }] around [bubble]. *)
Definition insertionSort_func (data : list A) : list A :=
  fold_left (fun d i => bubble i d) (seq 1 (length data - 1)) data.

(** [for i := 6; i < len(data); i++ { if less(i, i-6) { swap(i, i-6) } }] *)
Definition shellPass6 (data : list A) : list A :=
  fold_left (fun d i => snd (swapIfLess d i (i - 6)))
            (seq 6 (length data - 6)) data.

Definition sort_Slice (legacy : bool) (data : list A) : list A :=
  insertionSort_func (if legacy then shellPass6 data else data).



End Sort.

(** The comparison [newHandler] sorts with. *)
Definition resolverLess (ri rj : scutil.Resolver) : bool :=
  (negb (String.eqb (scutil.Domain ri) "") && String.eqb (scutil.Domain rj) "")
  || (scutil.Order ri <? scutil.Order rj)%Z.

Definition udpClient : dns.Client := {| dns.Net := "" |}.
Definition tcpClient : dns.Client := {| dns.Net := "tcp" |}.

Definition emptyHandler : Handler :=
  {| domainClientConfigs := ∅;
     defaultClientConfigs := [];
     clients := [udpClient; tcpClient] |}.

Definition setDefault (h : Handler) (ccs : list dns.ClientConfig) : Handler :=
  {| domainClientConfigs := domainClientConfigs h;
     defaultClientConfigs := ccs;
     clients := clients h |}.

Definition setDomain (h : Handler) (domain : string)
    (ccs : list dns.ClientConfig) : Handler :=
  {| domainClientConfigs := <[domain := ccs]> (domainClientConfigs h);
     defaultClientConfigs := defaultClientConfigs h;
     clients := clients h |}.

(** One round of the last loop of [newHandler]. *)
Definition addResolver (h : Handler) (r : scutil.Resolver)
    (cc : dns.ClientConfig) : Handler :=
  if String.eqb (scutil.Domain r) ""
  then setDefault h (defaultClientConfigs h ++ [cc])
  else setDomain h (scutil.Domain r)
         (default [] (domainClientConfigs h !! scutil.Domain r) ++ [cc]).

(** The last loop of [newHandler]; it gives up at the first resolver
    whose client configuration cannot be built. *)
Fixpoint addResolvers (env : Env) (resolvers : list scutil.Resolver)
    (h : Handler) : result Handler :=
  match resolvers with
  | [] => Ok h
  | r :: rest =>
      match newStaticClientConfig env (scutil.Nameservers r) with
      | Err err => Err err
      | Ok cc => addResolvers env rest (addResolver h r cc)
      end
  end.

Definition fallbackIPs : list string := ["8.8.8.8"; "1.1.1.1"].





(** The reachable resolvers, in the order [newHandler] puts them. *)
Definition sortedResolvers (env : Env) (scConfig : list scutil.Resolver)
    : list scutil.Resolver :=
  sort_Slice resolverLess (legacySort env)
             (List.filter scutil.Reachable scConfig).

Definition newHandler (env : Env) : result Handler :=
  let h := emptyHandler in
  match ReadMacOSDNS env with
  | Err _ =>
      match ClientConfigFromFile env "/etc/resolv.conf" with
      | Ok cc => Ok (setDefault h [cc])
      | Err _ =>
          match newStaticClientConfig env fallbackIPs with
          | Err err => Err err
          | Ok cc => Ok (setDefault h [cc])
          end
      end
  | Ok scConfig => addResolvers env (sortedResolvers env scConfig) h
  end.

(** *** A reader of resolver-file text

    The lines are split on line feeds and each line on white space; a
    line [nameserver NAME ...] adds NAME to the servers, and the port is
    53. This is how the DNS library reads such text; it serves as the
    reader of concrete environments below. *)

Module resolvconf.

Definition isSpace (c : ascii) : bool :=
  let n := nat_of_ascii c in
  (n =? 32)%nat || ((9 <=? n)%nat && (n <=? 13)%nat).

Definition isEmpty (s : string) : bool :=
  match s with EmptyString => true | _ => false end.

Fixpoint splitAux (sep : ascii -> bool) (keepEmpty : bool)
    (s cur : string) : list string :=
  match s with
  | EmptyString => if isEmpty cur then [] else [cur]
  | String c r =>
      if sep c
      then (if isEmpty cur && negb keepEmpty
            then splitAux sep keepEmpty r ""
            else cur :: splitAux sep keepEmpty r "")
      else splitAux sep keepEmpty r (cur +:+ String c "")
  end.

Definition lines (s : string) : list string :=
  splitAux (fun c => (nat_of_ascii c =? 10)%nat) true s "".

Definition Fields (s : string) : list string :=
  splitAux isSpace false s "".

Definition nameserverOf (line : string) : list string :=
  match Fields line with
  | f0 :: name :: _ => if String.eqb f0 "nameserver" then [name] else []
  | _ => []
  end.

Definition read (text : string) : result dns.ClientConfig :=
  Ok {| dns.Servers := flat_map nameserverOf (lines text);
        dns.Port := "53" |}.

End resolvconf.

(** ** The listener handle *)

Record HostAgent := {
  udpDNSLocalPort : Z;
  tcpDNSLocalPort : Z
}.

Record Server := {
  udp : option dns.Server;
  tcp : option dns.Server
}.

(** [Shutdown]: the library's errors are dropped. *)
Definition Shutdown (s : Server) : Outcome Server :=
  let s1 :=
    match udp s with
    | Some u => let '(_, u') := dns.Shutdown u in {| udp := Some u'; tcp := tcp s |}
    | None => s
    end in
  let s2 :=
    match tcp s1 with
    | Some t => let '(_, t') := dns.Shutdown t in {| udp := udp s1; tcp := Some t' |}
    | None => s1
    end in
  Returned s2.

(** The two [go func() { ... }()] of [StartDNS]: each builds its
    [dns.Server], stores it in the handle, and calls [ListenAndServe],
    whose error is a panic. *)
Inductive Goroutine :=
| goUDP (addr : string) (h : Handler)
| goTCP (addr : string) (h : Handler).

(** [server.udp = s], [server.tcp = s] *)
Definition assign (g : Goroutine) (s : Server) : Server :=
  match g with
  | goUDP addr _ =>
      {| udp := Some {| dns.srvNet := "udp"; dns.Addr := addr; dns.started := false |};
         tcp := tcp s |}
  | goTCP addr _ =>
      {| udp := udp s;
         tcp := Some {| dns.srvNet := "tcp"; dns.Addr := addr; dns.started := false |} |}
  end.

Definition start (d : dns.Server) : dns.Server :=
  {| dns.srvNet := dns.srvNet d; dns.Addr := dns.Addr d; dns.started := true |}.

Definition stop (d : dns.Server) : dns.Server :=
  {| dns.srvNet := dns.srvNet d; dns.Addr := dns.Addr d; dns.started := false |}.

(** [s.ListenAndServe()] has bound its socket and serves. *)
Definition serving (g : Goroutine) (s : Server) : Server :=
  match g with
  | goUDP _ _ => {| udp := start <$> udp s; tcp := tcp s |}
  | goTCP _ _ => {| udp := udp s; tcp := start <$> tcp s |}
  end.

Definition StartDNS (a : HostAgent) (env : Env)
    : Outcome (Server * error * list Goroutine) :=
  match newHandler env with
  | Err err => Panicked err
  | Ok h =>
      let server := {| udp := None; tcp := None |} in
      let goUdp :=
        if (0 <? udpDNSLocalPort a)%Z
        then [goUDP ("127.0.0.1:" +:+ pretty (udpDNSLocalPort a)) h]
        else [] in
      let goTcp :=
        if (0 <? tcpDNSLocalPort a)%Z
        then [goTCP ("127.0.0.1:" +:+ pretty (tcpDNSLocalPort a)) h]
        else [] in
      Returned (server, nil, goUdp ++ goTcp)
  end.

Definition FakeDNSServer (udp tcp : Z) (env : Env)
    : Outcome (Server * error * list Goroutine) :=
  StartDNS {| udpDNSLocalPort := udp; tcpDNSLocalPort := tcp |} env.

(** The states a handle goes through once [StartDNS] has returned it:
    the goroutines store their servers and start serving at any moment,
    and the owner may call [Shutdown]. *)
Inductive reachable (gs : list Goroutine) : Server -> Prop :=
| reach_init : reachable gs {| udp := None; tcp := None |}
| reach_assign g s : In g gs -> reachable gs s -> reachable gs (assign g s)
| reach_serving g s : In g gs -> reachable gs s -> reachable gs (serving g s)
| reach_shutdown s s' :
    reachable gs s -> Shutdown s = Returned s' -> reachable gs s'.

Definition isUDP (g : Goroutine) : bool :=
  match g with goUDP _ _ => true | goTCP _ _ => false end.

Definition isStopped (o : option dns.Server) : Prop :=
  match o with Some d => dns.started d = false | None => True end.

(** ** Concrete hosts and requests *)

Module Sample.

(** A host without the platform facility and without a resolver file;
    the DNS library reads resolver text as [resolvconf.read] does. *)
Definition bareEnv : Env :=
  {| ReadMacOSDNS := Err "scutil: executable file not found";
     ClientConfigFromFile :=
       fun _ => Err "open /etc/resolv.conf: no such file or directory";
     ClientConfigFromReader := resolvconf.read;
     legacySort := false |}.


Definition corpVPN : scutil.Resolver :=
  {| scutil.Domain := "internal.corp"; scutil.Nameservers := ["10.0.0.53"];
     scutil.Order := 101000; scutil.Reachable := true |}.

Definition wifi : scutil.Resolver :=
  {| scutil.Domain := ""; scutil.Nameservers := ["192.168.1.1"];
     scutil.Order := 200000; scutil.Reachable := true |}.

Definition mdns : scutil.Resolver :=
  {| scutil.Domain := "local"; scutil.Nameservers := [];
     scutil.Order := 300000; scutil.Reachable := false |}.

Definition labVPN : scutil.Resolver :=
  {| scutil.Domain := "lab"; scutil.Nameservers := ["10.9.0.1"; "10.9.0.2"];
     scutil.Order := 100500; scutil.Reachable := true |}.

(** A host that lists its resolvers through the platform facility. *)
Definition macEnv : Env :=
  {| ReadMacOSDNS := Ok [wifi; corpVPN; mdns; labVPN];
     ClientConfigFromFile :=
       fun _ => Err "open /etc/resolv.conf: no such file or directory";
     ClientConfigFromReader := resolvconf.read;
     legacySort := false |}.

Definition corpConfig : dns.ClientConfig :=
  {| dns.Servers := ["10.0.0.53"]; dns.Port := "53" |}.

Definition pairConfig : dns.ClientConfig :=
  {| dns.Servers := ["10.0.0.53"; "10.0.0.54"]; dns.Port := "53" |}.

Definition publicConfig : dns.ClientConfig :=
  {| dns.Servers := ["8.8.8.8"]; dns.Port := "53" |}.

Definition backupConfig : dns.ClientConfig :=
  {| dns.Servers := ["9.9.9.9"]; dns.Port := "53" |}.

(** Scope [internal.corp] with one group, and one default group. *)
Definition corpHandler : Handler :=
  {| domainClientConfigs := {[ "internal.corp" := [corpConfig] ]};
     defaultClientConfigs := [publicConfig];
     clients := [udpClient; tcpClient] |}.

(** No scope, two default groups. *)
Definition twoDefaults : Handler :=
  {| domainClientConfigs := ∅;
     defaultClientConfigs := [publicConfig; backupConfig];
     clients := [udpClient; tcpClient] |}.

Definition header (id opcode rcode : Z) (response : bool) : dns.MsgHdr :=
  {| dns.Id := id; dns.Response := response; dns.Opcode := opcode;
     dns.Authoritative := false; dns.Truncated := false;
     dns.RecursionDesired := true; dns.RecursionAvailable := response;
     dns.Zero := false; dns.AuthenticatedData := false;
     dns.CheckingDisabled := false; dns.Rcode := rcode |}.

Definition question (name : string) : dns.Question :=
  {| dns.Name := name; dns.Qtype := 1; dns.Qclass := 1 |}.

Definition request (id opcode : Z) (name : string) : dns.Msg :=
  {| dns.Hdr := header id opcode dns.RcodeSuccess false;
     dns.Compress := false;
     dns.Question_ := [question name];
     dns.Answer := []; dns.Ns := []; dns.Extra := [] |}.

(** An answer with one A record. *)
Definition answerA (id : Z) (name addr : string) : dns.Msg :=
  {| dns.Hdr := header id dns.OpcodeQuery dns.RcodeSuccess true;
     dns.Compress := false;
     dns.Question_ := [question name];
     dns.Answer := [{| dns.rrName := name; dns.Rrtype := 1; dns.Class := 1;
                       dns.Ttl := 300; dns.Rdata := addr |}];
     dns.Ns := []; dns.Extra := [] |}.

(** An answer that says the name does not exist. *)
Definition nxdomain (id : Z) (name : string) : dns.Msg :=
  {| dns.Hdr := header id dns.OpcodeQuery dns.RcodeNameError true;
     dns.Compress := false;
     dns.Question_ := [question name];
     dns.Answer := []; dns.Ns := []; dns.Extra := [] |}.

Definition timeout : result dns.Msg := Err "i/o timeout".

End Sample.

(** ** More ways to read a trace *)

(** The groups of the default chain that were handed to [tryWithConfig],
    in order. *)
Fixpoint defaultTries (evs : list Event) : list dns.ClientConfig :=
  match evs with
  | [] => []
  | EvTry Default clientConfig :: rest => clientConfig :: defaultTries rest
  | _ :: rest => defaultTries rest
  end.

(** Every exchange of the trace is with a client and an address that
    [A] admits, and every scoped group tried is one that [S] admits. *)
Definition within (A : dns.Client -> string -> Prop)
    (S : string -> dns.ClientConfig -> Prop) (evs : list Event) : Prop :=
  forall ev, In ev evs ->
    match ev with
    | EvExchange c addr _ => A c addr
    | EvTry (Scoped domain) clientConfig => S domain clientConfig
    | _ => True
    end.

(** A group of the table, under a scope that a question of the request
    matches. *)
Definition scopedFor (h : Handler) (req : dns.Msg) (domain : string)
    (clientConfig : dns.ClientConfig) : Prop :=
  exists q ccs,
    In q (dns.Question_ req) /\
    domainMatches (dns.Name q) domain = true /\
    domainClientConfigs h !! domain = Some ccs /\
    In clientConfig ccs.

(** The groups a request may be sent to: the default chain, and for a
    QUERY or inverse QUERY the groups scoped to a matching domain. *)
Definition groupFor (h : Handler) (req : dns.Msg)
    (clientConfig : dns.ClientConfig) : Prop :=
  In clientConfig (defaultClientConfigs h) \/
  (isQueryOpcode req = true /\
   exists domain, scopedFor h req domain clientConfig).

(** An address of a group, asked through a client of the handler. *)
Definition attemptOf (h : Handler) (clientConfig : dns.ClientConfig)
    (c : dns.Client) (addr : string) : Prop :=
  In c (clients h) /\ In addr (addresses clientConfig).

(** The part of the domain table that a question selects. *)
Definition selects (h : Handler) (q : dns.Question) (domain : string)
    (cc : dns.ClientConfig) : Prop :=
  domainMatches (dns.Name q) domain = true /\
  exists ccs, domainClientConfigs h !! domain = Some ccs /\ In cc ccs.

(** ** A world that records what is sent

    On top of any world, keep the messages handed to [client.Exchange],
    in order. *)

Definition recording (base : Runtime) : Runtime :=
  {| World := (@World base * list dns.Msg)%type;
     Exchange := fun w client req addr =>
       let '(r, w') := @Exchange base (fst w) client req addr in
       (r, (w', snd w ++ [req]));
     RangeMap := fun w m =>
       let '(ents, w') := @RangeMap base (fst w) m in
       (ents, (w', snd w)) |}.

(** A computation in the recording world does what it does in the world
    below, and records [req] once for each exchange. *)
Definition mirrors (base : Runtime) {A} (req : dns.Msg)
    (m : @M base A) (m' : @M (recording base) A) : Prop :=
  forall (w : @World base) (log : list dns.Msg),
    m' (w, log) =
    (let '(a, e, w1) := m w in
     (a, e, (w1, log ++ repeat req (length (exchanges e))))).

(** ** The tables of a discovered handler *)

(** [cc] is the client configuration built for the resolver [r]. *)
Definition builds (env : Env) (r : scutil.Resolver) (cc : dns.ClientConfig) : Prop :=
  newStaticClientConfig env (scutil.Nameservers r) = Ok cc.

(** The configurations, in order, of the resolvers whose domain is [d];
    [ccs] runs along [rs]. *)
Fixpoint groupsOf (d : string) (rs : list scutil.Resolver)
    (ccs : list dns.ClientConfig) : list dns.ClientConfig :=
  match rs, ccs with
  | r :: rs', cc :: ccs' =>
      if String.eqb (scutil.Domain r) d
      then cc :: groupsOf d rs' ccs'
      else groupsOf d rs' ccs'
  | _, _ => []
  end.

(** What a listener of the handle must look like. *)
Definition listensOn (net : string) (port : Z) (d : dns.Server) : Prop :=
  dns.srvNet d = net /\
  dns.Addr d = "127.0.0.1:" +:+ pretty port /\
  (0 < port)%Z.

(** ** The guest environment (pkg/cidata, [setupEnv])

    [setupEnv] merges three sources of environment variables for the
    guest: the proxy settings of the system ([osutil.ProxySettings]),
    the [env] section of the instance file ([y.Env]) and, for the proxy
    variables, the environment of the running process ([os.LookupEnv]). *)

Module cidata.

(** [strings.ToUpper] on ASCII. *)
Definition upperByte (c : ascii) : ascii :=
  let n := nat_of_ascii c in
  if (97 <=? n)%nat && (n <=? 122)%nat then ascii_of_nat (n - 32) else c.

Fixpoint ToUpper (s : string) : string :=
  match s with
  | EmptyString => EmptyString
  | String c r => String (upperByte c) (ToUpper r)
  end.

Definition lowerVars : list string :=
  ["ftp_proxy"; "http_proxy"; "https_proxy"; "no_proxy"].

(** [upperVars[i] = strings.ToUpper(name)] *)
Definition upperVars : list string := map ToUpper lowerVars.

(** [for name, value := range y.Env { env[name] = value }], the entries
    taken in the order the range visits them. *)
Definition applyEnv (entries : list (string * string))
    (env : gmap string string) : gmap string string :=
  fold_left (fun env '(name, value) => <[name := value]> env) entries env.

(** [if value, ok := os.LookupEnv(name); ok { env[name] = value }] *)
Definition overrideFromProcess (LookupEnv : string -> option string)
    (env : gmap string string) (name : string) : gmap string string :=
  match LookupEnv name with
  | Some value => <[name := value]> env
  | None => env
  end.

(** One round of the last loop: the lower-case variable wins, and
    either variant fills in for the other. *)
Definition alignCase (env : gmap string string) (lowerName : string)
    : gmap string string :=
  let upperName := ToUpper lowerName in
  match env !! lowerName with
  | Some value => <[upperName := value]> env
  | None =>
      match env !! upperName with
      | Some value => <[lowerName := value]> env
      | None => env
      end
  end.

Definition setupEnv (ProxySettings : gmap string string * error)
    (yEnv : gmap string string) (LookupEnv : string -> option string)
    : gmap string string * error :=
  let '(env, err) := ProxySettings in
  if isNil err then
    let env := applyEnv (map_to_list yEnv) env in
    let env := fold_left (overrideFromProcess LookupEnv)
                         (lowerVars ++ upperVars) env in
    let env := fold_left alignCase lowerVars env in
    (env, nil)
  else (env, err).

(** The first of two optional values that is there. *)
Definition orElse (a b : option string) : option string :=
  match a with Some _ => a | None => b end.

(** Where a variable comes from before the cases are aligned: the
    process, then the instance file, then the system. *)
Definition sourced (sys yEnv : gmap string string)
    (LookupEnv : string -> option string) (name : string) : option string :=
  orElse (LookupEnv name) (orElse (yEnv !! name) (sys !! name)).

(** *** [GuestAgentBinary]

    The operating system and path/filepath as [GuestAgentBinary] uses
    them. An error of the system is kept as its message together with
    what [errors.Is(err, os.ErrNotExist)] says about it; the errors the
    function makes itself are kept by their arguments. *)

Record oserror := { message : string; isNotExist : bool }.

Inductive failure :=
| ArchUnset                       (* errors.New("arch must be set") *)
| FromOS (err : oserror)
| NotFound (arch self : string) (candidates : list string).

Definition File := Z.

(** [fs.ModeSymlink] *)
Definition ModeSymlink : Z := Z.shiftl 1 27.

Inductive Syscall :=
| SysExecutable
| SysStat (name : string)
| SysReadlink (name : string)
| SysOpen (name : string).

Class OS := {
  World : Type;
  Executable : World -> (string + oserror) * World;
  Stat : World -> string -> (Z + oserror) * World;
  Readlink : World -> string -> (string + oserror) * World;
  Open : World -> string -> (File + oserror) * World;
  Dir : string -> string;
  Join : string -> string -> string
}.

Section GuestAgent.
Context `{os : OS}.

Definition Sys (X : Type) : Type := World -> (X + failure) * list Syscall * World.

Definition ok {X} (x : X) : Sys X := fun w => (inl x, [], w).

Definition fail {X} (f : failure) : Sys X := fun w => (inr f, [], w).

(** [x, err := ...; if err != nil { return nil, err }] *)
Definition try {X Y} (m : Sys X) (k : X -> Sys Y) : Sys Y :=
  fun w =>
    let '(r, e1, w1) := m w in
    match r with
    | inl x => let '(y, e2, w2) := k x w1 in (y, e1 ++ e2, w2)
    | inr f => (inr f, e1, w1)
    end.

Definition sys {X} (ev : Syscall) (call : World -> (X + oserror) * World)
    : Sys X :=
  fun w =>
    let '(r, w1) := call w in
    match r with
    | inl x => (inl x, [ev], w1)
    | inr err => (inr (FromOS err), [ev], w1)
    end.

(** The executable that runs, a symbolic link read once. *)
Definition resolveSelf : Sys string :=
  try (sys SysExecutable Executable) (fun self =>
  try (sys (SysStat self) (fun w => Stat w self)) (fun selfSt =>
  if negb (Z.land selfSt ModeSymlink =? 0)%Z
  then sys (SysReadlink self) (fun w => Readlink w self)
  else ok self)).

Definition candidatesFor (self arch : string) : list string :=
  let selfDir := Dir self in
  let selfDirDir := Dir selfDir in
  [Join selfDir ("lima-guestagent.Linux-" +:+ arch);
   Join selfDirDir ("share/lima/lima-guestagent.Linux-" +:+ arch)].

(** The loop over the candidates: the first that opens is returned, an
    error other than "does not exist" ends the search. *)
Fixpoint openFirst (candidates : list string) : Sys (option File) :=
  match candidates with
  | [] => ok None
  | candidate :: rest =>
      fun w =>
        let '(r, w1) := Open w candidate in
        match r with
        | inl f => (inl (Some f), [SysOpen candidate], w1)
        | inr err =>
            if isNotExist err
            then let '(x, e, w2) := openFirst rest w1 in
                 (x, SysOpen candidate :: e, w2)
            else (inr (FromOS err), [SysOpen candidate], w1)
        end
  end.

Definition GuestAgentBinary (arch : string) : Sys File :=
  if String.eqb arch "" then fail ArchUnset
  else
    try resolveSelf (fun self =>
    let candidates := candidatesFor self arch in
    try (openFirst candidates) (fun found =>
    match found with
    | Some f => ok f
    | None => fail (NotFound arch self candidates)
    end)).

End GuestAgent.

(** The paths a run opened. *)
Definition opened (evs : list Syscall) : list string :=
  omap (fun ev => match ev with SysOpen name => Some name | _ => None end) evs.

Definition isOpen (ev : Syscall) : bool :=
  match ev with SysOpen _ => true | _ => false end.

(** A file system given by its files: an installed [limactl] behind a
    symbolic link, with the guest agent under [share/lima]. Paths are
    taken apart at the last slash. *)
Fixpoint lastSlash (s : string) : option nat :=
  match s with
  | EmptyString => None
  | String c r =>
      match lastSlash r with
      | Some n => Some (S n)
      | None => if Ascii.eqb c "/" then Some 0%nat else None
      end
  end.

Definition dirOf (path : string) : string :=
  match lastSlash path with
  | Some n => substring 0 n path
  | None => "."
  end.

Definition installed : OS :=
  {| World := unit;
     Executable := fun w => (inl "/usr/local/bin/limactl", w);
     Stat := fun w _ => (inl 493%Z, w);
     Readlink := fun w name => (inl name, w);
     Open := fun w name =>
       if String.eqb name "/usr/local/share/lima/lima-guestagent.Linux-x86_64"
       then (inl 3%Z, w)
       else (inr {| message := "no such file or directory";
                    isNotExist := true |}, w);
     Dir := dirOf;
     Join := fun dir name => dir +:+ "/" +:+ name |}.

End cidata.

(** ** The handler that answers from the host's resolver

    The earlier handler of pkg/hostagent/dns.go: a QUERY is answered
    from the resolver of the host ([net.LookupIP] and its kin) when that
    gives something, and forwarded to the servers of one client
    configuration otherwise. *)

Module HostLookup.

(** *** [net.IP]: a slice of 4 or 16 bytes *)

Definition IP := list Z.

Definition v4InV6Prefix : list Z := [0; 0; 0; 0; 0; 0; 0; 0; 0; 0; 255; 255]%Z.

Definition isZeros (p : list Z) : bool := forallb (Z.eqb 0) p.

(** [ip.To4()]: the 4-byte form of an IPv4 address, plain or mapped into
    16 bytes; [nil] otherwise. *)
Definition To4 (ip : IP) : option IP :=
  if (length ip =? 4)%nat then Some ip
  else if (length ip =? 16)%nat && isZeros (take 10 ip)
          && (nth 10 ip 0 =? 255)%Z && (nth 11 ip 0 =? 255)%Z
  then Some (drop 12 ip)
  else None.

(** [ip.To16()]: the 16-byte form; 4 bytes are mapped. *)
Definition To16 (ip : IP) : option IP :=
  if (length ip =? 4)%nat then Some (v4InV6Prefix ++ ip)
  else if (length ip =? 16)%nat then Some ip
  else None.

(** *** Resource records and messages *)

Record RR_Header := {
  Name : string;
  Rrtype : Z;
  Class : Z;
  Ttl : Z
}.

Inductive RR :=
| A (Hdr : RR_Header) (addr : IP)
| AAAA (Hdr : RR_Header) (addr : IP)
| CNAME (Hdr : RR_Header) (Target : string)
| TXT (Hdr : RR_Header) (Txt : list string)
| NS (Hdr : RR_Header) (Ns : string)
| Other (Hdr : RR_Header) (rdata : string).

Definition header (rr : RR) : RR_Header :=
  match rr with
  | A h _ | AAAA h _ | CNAME h _ | TXT h _ | NS h _ | Other h _ => h
  end.

Definition TypeA : Z := 1.
Definition TypeNS : Z := 2.
Definition TypeCNAME : Z := 5.
Definition TypeTXT : Z := 16.
Definition TypeAAAA : Z := 28.
Definition ClassINET : Z := 1.

Record Msg := {
  MsgHdr : dns.MsgHdr;
  Compress : bool;
  Question : list dns.Question;
  Answer : list RR;
  Ns_ : list RR;
  Extra : list RR
}.

(** [var reply dns.Msg] *)
Definition zeroMsg : Msg :=
  {| MsgHdr :=
       {| dns.Id := 0; dns.Response := false; dns.Opcode := 0;
          dns.Authoritative := false; dns.Truncated := false;
          dns.RecursionDesired := false; dns.RecursionAvailable := false;
          dns.Zero := false; dns.AuthenticatedData := false;
          dns.CheckingDisabled := false; dns.Rcode := 0 |};
     Compress := false; Question := []; Answer := []; Ns_ := []; Extra := [] |}.

(** [reply.SetReply(req)] of the DNS library: the id and the opcode of
    the request, the response flag, for a QUERY the recursion-desired
    and checking-disabled bits of the request, the response code
    success, and the first question of the request. *)
Definition SetReply (reply request : Msg) : Msg :=
  let rh := MsgHdr request in
  let h := MsgHdr reply in
  let query := (dns.Opcode rh =? dns.OpcodeQuery)%Z in
  {| MsgHdr :=
       {| dns.Id := dns.Id rh;
          dns.Response := true;
          dns.Opcode := dns.Opcode rh;
          dns.Authoritative := dns.Authoritative h;
          dns.Truncated := dns.Truncated h;
          dns.RecursionDesired :=
            if query then dns.RecursionDesired rh else dns.RecursionDesired h;
          dns.RecursionAvailable := dns.RecursionAvailable h;
          dns.Zero := dns.Zero h;
          dns.AuthenticatedData := dns.AuthenticatedData h;
          dns.CheckingDisabled :=
            if query then dns.CheckingDisabled rh else dns.CheckingDisabled h;
          dns.Rcode := dns.RcodeSuccess |};
     Compress := Compress reply;
     Question := match Question request with
                 | q :: _ => [q]
                 | [] => Question reply
                 end;
     Answer := Answer reply;
     Ns_ := Ns_ reply;
     Extra := Extra reply |}.

Definition withAnswer (m : Msg) (answer : list RR) : Msg :=
  {| MsgHdr := MsgHdr m; Compress := Compress m; Question := Question m;
     Answer := answer; Ns_ := Ns_ m; Extra := Extra m |}.

(** [net.NS] *)
Record NameServer := { Host : string }.

(** *** The outside world: the network and the resolver of the host *)

Inductive Event :=
| EvLookupIP (name : string)
| EvLookupCNAME (name : string)
| EvLookupTXT (name : string)
| EvLookupNS (name : string)
| EvExchange (client : dns.Client) (addr : string) (r : result Msg)
| EvWrite (m : Msg)
| EvClose.

Class Outside := {
  World : Type;
  Exchange : World -> dns.Client -> Msg -> string -> result Msg * World;
  LookupIP : World -> string -> result (list IP) * World;
  LookupCNAME : World -> string -> result string * World;
  LookupTXT : World -> string -> result (list string) * World;
  LookupNS : World -> string -> result (list NameServer) * World
}.

Definition Run `{HT : Outside} (X : Type) : Type := World -> X * list Event * World.

Definition pure `{HT : Outside} {X} (x : X) : Run X := fun w => (x, [], w).

Definition andThen `{HT : Outside} {X Y} (m : Run X) (k : X -> Run Y) : Run Y :=
  fun w =>
    let '(x, evs1, w1) := m w in
    let '(y, evs2, w2) := k x w1 in
    (y, evs1 ++ evs2, w2).

Notation "'let!' x ':=' m 'in' k" := (andThen m (fun x => k))
  (at level 10, x pattern, m at level 200, k at level 200).

Definition call `{HT : Outside} {X} (ev : Event) (f : World -> X * World) : Run X :=
  fun w => let '(x, w') := f w in (x, [ev], w').

Definition lookupIP `{HT : Outside} (name : string) : Run (result (list IP)) :=
  call (EvLookupIP name) (fun w => LookupIP w name).
Definition lookupCNAME `{HT : Outside} (name : string) : Run (result string) :=
  call (EvLookupCNAME name) (fun w => LookupCNAME w name).
Definition lookupTXT `{HT : Outside} (name : string) : Run (result (list string)) :=
  call (EvLookupTXT name) (fun w => LookupTXT w name).
Definition lookupNS `{HT : Outside} (name : string) : Run (result (list NameServer)) :=
  call (EvLookupNS name) (fun w => LookupNS w name).

Definition exchange `{HT : Outside} (client : dns.Client) (req : Msg)
    (addr : string) : Run (result Msg) :=
  fun w => let '(r, w') := Exchange w client req addr in
           (r, [EvExchange client addr r], w').

Definition WriteMsg `{HT : Outside} (m : Msg) : Run unit :=
  fun w => (tt, [EvWrite m], w).

(** A loop whose body may [return]. *)
Fixpoint untilReturn `{HT : Outside} {X} (body : X -> Run bool) (xs : list X)
    : Run bool :=
  match xs with
  | [] => pure false
  | x :: rest =>
      let! done := body x in
      if done then pure true else untilReturn body rest
  end.

(** A loop that carries a state through all its rounds. *)
Fixpoint forEach `{HT : Outside} {X S} (body : X -> S -> Run S) (xs : list X)
    (s : S) : Run S :=
  match xs with
  | [] => pure s
  | x :: rest => let! s' := body x s in forEach body rest s'
  end.

(** *** The handler *)

Record Handler := {
  clientConfig : dns.ClientConfig;
  clients : list dns.Client
}.

Section Handling.
Context `{HT : Outside}.

(** The header every record of [handleQuery] gets. *)
Definition recordHeader (q : dns.Question) (rrtype : Z) : RR_Header :=
  {| Name := dns.Name q; Rrtype := rrtype; Class := ClassINET; Ttl := 5 |}.

(** [reply.Answer = append(reply.Answer, a); handled = true] for the
    addresses that [pick] keeps. *)
Definition addAddresses (mk : IP -> RR) (pick : IP -> option IP)
    (addrs : list IP) (st : list RR * bool) : list RR * bool :=
  fold_left (fun st ip =>
    match pick ip with
    | Some ip' => (fst st ++ [mk ip'], true)
    | None => st
    end) addrs st.

Definition addNameServers (q : dns.Question) (ns : list NameServer)
    (st : list RR * bool) : list RR * bool :=
  fold_left (fun st s =>
    if String.eqb (Host s) "" then st
    else (fst st ++ [NS (recordHeader q TypeNS) (Host s)], true)) ns st.

(** One round of the loop of [handleQuery]: the [switch] on the type of
    the question. The state is [reply.Answer] and [handled]. *)
Definition answerQuestion (q : dns.Question) (st : list RR * bool)
    : Run (list RR * bool) :=
  if (dns.Qtype q =? TypeA)%Z then
    let! r := lookupIP (dns.Name q) in
    match r with
    | Ok addrs => pure (addAddresses (A (recordHeader q TypeA)) To4 addrs st)
    | Err _ => pure st
    end
  else if (dns.Qtype q =? TypeAAAA)%Z then
    let! r := lookupIP (dns.Name q) in
    match r with
    | Ok addrs => pure (addAddresses (AAAA (recordHeader q TypeAAAA)) To16 addrs st)
    | Err _ => pure st
    end
  else if (dns.Qtype q =? TypeCNAME)%Z then
    let! r := lookupCNAME (dns.Name q) in
    match r with
    | Ok cname =>
        if String.eqb cname "" then pure st
        else pure (fst st ++ [CNAME (recordHeader q TypeCNAME) cname], true)
    | Err _ => pure st
    end
  else if (dns.Qtype q =? TypeTXT)%Z then
    let! r := lookupTXT (dns.Name q) in
    match r with
    | Ok txt =>
        match txt with
        | [] => pure st
        | _ => pure (fst st ++ [TXT (recordHeader q TypeTXT) txt], true)
        end
    | Err _ => pure st
    end
  else if (dns.Qtype q =? TypeNS)%Z then
    let! r := lookupNS (dns.Name q) in
    match r with
    | Ok ns => pure (addNameServers q ns st)
    | Err _ => pure st
    end
  else pure st.

(** [handleDefault]: forward to the servers of the client
    configuration, every client in turn; when none answers, write the
    empty reply to the request. *)
Definition handleDefault (h : Handler) (req : Msg) : Run unit :=
  let! done :=
    untilReturn (fun client =>
      untilReturn (fun srv =>
        let addr := srv +:+ ":" +:+ dns.Port (clientConfig h) in
        let! r := exchange client req addr in
        match r with
        | Ok reply => let! _ := WriteMsg reply in pure true
        | Err _ => pure false
        end)
      (dns.Servers (clientConfig h)))
    (clients h) in
  if done then pure tt
  else WriteMsg (SetReply zeroMsg req).

Definition handleQuery (h : Handler) (req : Msg) : Run unit :=
  let reply := SetReply zeroMsg req in
  let! st := forEach answerQuestion (Question reply) (Answer reply, false) in
  if snd st then WriteMsg (withAnswer reply (fst st))
  else handleDefault h req.

Definition ServeDNS (h : Handler) (req : Msg) : Run unit :=
  if (dns.Opcode (MsgHdr req) =? dns.OpcodeQuery)%Z
  then handleQuery h req
  else handleDefault h req.

End Handling.

(** *** Reading a trace *)

Definition isLookup (ev : Event) : bool :=
  match ev with
  | EvLookupIP _ | EvLookupCNAME _ | EvLookupTXT _ | EvLookupNS _ => true
  | _ => false
  end.

Definition isExchange (ev : Event) : bool :=
  match ev with EvExchange _ _ _ => true | _ => false end.

Fixpoint written (evs : list Event) : list Msg :=
  match evs with
  | [] => []
  | EvWrite m :: rest => m :: written rest
  | _ :: rest => written rest
  end.

Definition answered (ev : Event) : bool :=
  match ev with EvExchange _ _ (Ok _) => true | _ => false end.

Definition traceOf `{HT : Outside} {X} (r : X * list Event * World) : list Event :=
  snd (fst r).

(** The lookup that the type of a question calls for. *)
Definition lookupFor (q : dns.Question) : list Event :=
  if (dns.Qtype q =? TypeA)%Z then [EvLookupIP (dns.Name q)]
  else if (dns.Qtype q =? TypeAAAA)%Z then [EvLookupIP (dns.Name q)]
  else if (dns.Qtype q =? TypeCNAME)%Z then [EvLookupCNAME (dns.Name q)]
  else if (dns.Qtype q =? TypeTXT)%Z then [EvLookupTXT (dns.Name q)]
  else if (dns.Qtype q =? TypeNS)%Z then [EvLookupNS (dns.Name q)]
  else [].

(** [ev] is an exchange that failed. *)
Definition failedExchange (ev : Event) : Prop :=
  exists c a err, ev = EvExchange c a (Err err).

(** What the loops of [handleDefault] leave: when one returned, the
    exchange that answered and the write of its reply, after failed
    exchanges only; otherwise failed exchanges only. *)
Definition forwarded (done : bool) (evs : list Event) : Prop :=
  if done then
    exists pre c a m,
      evs = pre ++ [EvExchange c a (Ok m); EvWrite m] /\
      Forall failedExchange pre
  else Forall failedExchange evs.

(** The records one question adds: [new] is appended, and [handled] is
    set when there is any. *)
Definition adds (new : list RR) (st st' : list RR * bool) : Prop :=
  fst st' = fst st ++ new /\
  snd st' = (snd st || match new with [] => false | _ => true end).

(** The name servers that have a host name. *)
Definition hostsOf (ns : list NameServer) : list string :=
  List.filter (fun host => negb (String.eqb host "")) (map Host ns).

(** An address as the resolver of the host returns it. *)
Definition validIP (ip : IP) : Prop := length ip = 4%nat \/ length ip = 16%nat.

(** The 16-byte form of a valid address. *)
Definition mapped (ip : IP) : IP :=
  if (length ip =? 4)%nat then v4InV6Prefix ++ ip else ip.

(** The question [handleQuery] looks at. *)
Definition firstQuestion (req : Msg) : list dns.Question :=
  match Question req with
  | q :: _ => [q]
  | [] => []
  end.

(** The three ways a call of [ServeDNS] ends: with records of the
    host's resolver, with the reply of an upstream server, or with the
    empty reply. *)
Inductive ends (req : Msg) : list Event -> Prop :=
| ends_local lk new :
    Forall (fun ev => isLookup ev = true) lk ->
    new <> [] ->
    (forall rr, In rr new ->
       exists q, firstQuestion req = [q] /\
                 header rr = recordHeader q (dns.Qtype q)) ->
    ends req (lk ++ [EvWrite (withAnswer (SetReply zeroMsg req) new)])
| ends_upstream lk pre c a m :
    Forall (fun ev => isLookup ev = true) lk ->
    Forall failedExchange pre ->
    ends req (lk ++ pre ++ [EvExchange c a (Ok m); EvWrite m])
| ends_empty lk pre :
    Forall (fun ev => isLookup ev = true) lk ->
    Forall failedExchange pre ->
    ends req (lk ++ pre ++ [EvWrite (SetReply zeroMsg req)]).

(** A host without network whose resolver knows the given addresses
    for every name, and nothing else. *)
Definition offlineHost (ips : list IP) : Outside :=
  {| World := unit;
     Exchange := fun w _ _ _ => (Err "i/o timeout", w);
     LookupIP := fun w _ => (Ok ips, w);
     LookupCNAME := fun w _ => (Err "no such host", w);
     LookupTXT := fun w _ => (Err "no such host", w);
     LookupNS := fun w _ => (Err "no such host", w) |}.

(** A host whose resolver knows nothing, with upstream servers that
    answer every request with [reply]. *)
Definition onlineHost (reply : Msg) : Outside :=
  {| World := unit;
     Exchange := fun w _ _ _ => (Ok reply, w);
     LookupIP := fun w _ => (Err "no such host", w);
     LookupCNAME := fun w _ => (Err "no such host", w);
     LookupTXT := fun w _ => (Err "no such host", w);
     LookupNS := fun w _ => (Err "no such host", w) |}.

Definition ask (id qtype : Z) (name : string) : Msg :=
  {| MsgHdr :=
       {| dns.Id := id; dns.Response := false; dns.Opcode := dns.OpcodeQuery;
          dns.Authoritative := false; dns.Truncated := false;
          dns.RecursionDesired := true; dns.RecursionAvailable := false;
          dns.Zero := false; dns.AuthenticatedData := false;
          dns.CheckingDisabled := false; dns.Rcode := 0 |};
     Compress := false;
     Question := [{| dns.Name := name; dns.Qtype := qtype; dns.Qclass := 1 |}];
     Answer := []; Ns_ := []; Extra := [] |}.

Definition hostName : string := "host.lima.internal.".

(** 192.168.5.2 and fd00::2 *)
Definition hostAddrs : list IP :=
  [[192; 168; 5; 2]; [253; 0; 0; 0; 0; 0; 0; 0; 0; 0; 0; 0; 0; 0; 0; 2]]%Z.

Definition upstreamReply : Msg :=
  withAnswer (SetReply zeroMsg (ask 7 TypeA hostName))
    [A {| Name := hostName; Rrtype := TypeA; Class := ClassINET; Ttl := 300 |}
       [192; 168; 5; 2]%Z].

Definition publicHandler : Handler :=
  {| clientConfig := {| dns.Servers := ["8.8.8.8"]; dns.Port := "53" |};
     clients := [udpClient; tcpClient] |}.

End HostLookup.

(** ** The handler that answers from the host's resolver, with aliases

    A later form of the same handler: the alias of a name is looked up
    for A, AAAA and CNAME questions and put in front of the answer,
    every question of the request is looked at, and the writer is closed
    after a reply. *)

Module CnameLookup.
Import HostLookup.

Section Handling.
Context `{HT : Outside}.

(** [w.Close()] *)
Definition Close : Run unit := fun w => (tt, [EvClose], w).

(** [hdr := dns.RR_Header{Name: q.Name, Rrtype: q.Qtype, Class: q.Qclass, Ttl: 5}] *)
Definition hdrOf (q : dns.Question) : RR_Header :=
  {| Name := dns.Name q; Rrtype := dns.Qtype q; Class := dns.Qclass q; Ttl := 5 |}.

(** [hdr.Rrtype = t] *)
Definition withRrtype (hdr : RR_Header) (t : Z) : RR_Header :=
  {| Name := Name hdr; Rrtype := t; Class := Class hdr; Ttl := Ttl hdr |}.

(** A [net.IP] that may be [nil], as a slice. *)
Definition orNil (ip : option IP) : IP :=
  match ip with Some ip => ip | None => [] end.

(** [reply.RecursionAvailable = true] *)
Definition withRecursionAvailable (m : Msg) : Msg :=
  let h := MsgHdr m in
  {| MsgHdr :=
       {| dns.Id := dns.Id h; dns.Response := dns.Response h;
          dns.Opcode := dns.Opcode h; dns.Authoritative := dns.Authoritative h;
          dns.Truncated := dns.Truncated h;
          dns.RecursionDesired := dns.RecursionDesired h;
          dns.RecursionAvailable := true;
          dns.Zero := dns.Zero h;
          dns.AuthenticatedData := dns.AuthenticatedData h;
          dns.CheckingDisabled := dns.CheckingDisabled h;
          dns.Rcode := dns.Rcode h |};
     Compress := Compress m; Question := Question m; Answer := Answer m;
     Ns_ := Ns_ m; Extra := Extra m |}.

(** The loop over the addresses: an A question takes the addresses
    that have a 4-byte form, an AAAA question the others. *)
Definition addAddresses (q : dns.Question) (hdr : RR_Header)
    (addrs : list IP) (st : list RR * bool) : list RR * bool :=
  fold_left (fun st ip =>
    let ipv6 := match To4 ip with None => true | Some _ => false end in
    if (dns.Qtype q =? TypeA)%Z && negb ipv6
    then (fst st ++ [A (withRrtype hdr TypeA) (orNil (To4 ip))], true)
    else if (dns.Qtype q =? TypeAAAA)%Z && ipv6
    then (fst st ++ [AAAA (withRrtype hdr TypeAAAA) (orNil (To16 ip))], true)
    else st) addrs st.

Definition addNameServers (hdr : RR_Header) (ns : list NameServer)
    (st : list RR * bool) : list RR * bool :=
  fold_left (fun st s =>
    if String.eqb (Host s) "" then st
    else (fst st ++ [NS hdr (Host s)], true)) ns st.

(** One round of the loop of [handleQuery]. The state is
    [reply.Answer] and [handled]. *)
Definition answerQuestion (req : Msg) (q : dns.Question) (st : list RR * bool)
    : Run (list RR * bool) :=
  let hdr := hdrOf q in
  if (dns.Qtype q =? TypeCNAME)%Z || (dns.Qtype q =? TypeA)%Z
     || (dns.Qtype q =? TypeAAAA)%Z then
    let! r := lookupCNAME (dns.Name q) in
    let found :=
      match r with
      | Ok cname => negb (String.eqb cname "")
      | Err _ => false
      end in
    let hdr := if found then withRrtype hdr TypeCNAME else hdr in
    let st :=
      match r with
      | Ok cname =>
          if found then (CNAME hdr cname :: fst st, true) else st
      | Err _ => st
      end in
    if (dns.Qtype q =? TypeCNAME)%Z
       || (negb (dns.RecursionDesired (MsgHdr req)) && snd st)
    then pure st
    else
      let! r := lookupIP (dns.Name q) in
      match r with
      | Ok addrs => pure (addAddresses q hdr addrs st)
      | Err _ => pure st
      end
  else if (dns.Qtype q =? TypeTXT)%Z then
    let! r := lookupTXT (dns.Name q) in
    match r with
    | Ok txt =>
        match txt with
        | [] => pure st
        | _ => pure (fst st ++ [TXT hdr txt], true)
        end
    | Err _ => pure st
    end
  else if (dns.Qtype q =? TypeNS)%Z then
    let! r := lookupNS (dns.Name q) in
    match r with
    | Ok ns => pure (addNameServers hdr ns st)
    | Err _ => pure st
    end
  else pure st.

Definition handleDefault (h : Handler) (req : Msg) : Run unit :=
  let! done :=
    untilReturn (fun client =>
      untilReturn (fun srv =>
        let addr := srv +:+ ":" +:+ dns.Port (clientConfig h) in
        let! r := exchange client req addr in
        match r with
        | Ok reply =>
            let! _ := WriteMsg reply in
            let! _ := Close in
            pure true
        | Err _ => pure false
        end)
      (dns.Servers (clientConfig h)))
    (clients h) in
  if done then pure tt
  else WriteMsg (SetReply zeroMsg req).

Definition handleQuery (h : Handler) (req : Msg) : Run unit :=
  let reply := SetReply (withRecursionAvailable zeroMsg) req in
  let! st := forEach (answerQuestion req) (Question req) (Answer reply, false) in
  if snd st then
    let! _ := WriteMsg (withAnswer reply (fst st)) in
    Close
  else handleDefault h req.

Definition ServeDNS (h : Handler) (req : Msg) : Run unit :=
  if (dns.Opcode (MsgHdr req) =? dns.OpcodeQuery)%Z
  then handleQuery h req
  else handleDefault h req.

End Handling.

(** *** Reading a trace *)

Definition isClose (ev : Event) : bool :=
  match ev with EvClose => true | _ => false end.

(** The name a lookup asks about. *)
Definition lookedUp (ev : Event) : option string :=
  match ev with
  | EvLookupIP name | EvLookupCNAME name | EvLookupTXT name | EvLookupNS name =>
      Some name
  | _ => None
  end.

(** The types a question is looked up for. *)
Definition answerable (q : dns.Question) : bool :=
  (dns.Qtype q =? TypeCNAME)%Z || (dns.Qtype q =? TypeA)%Z
  || (dns.Qtype q =? TypeAAAA)%Z || (dns.Qtype q =? TypeTXT)%Z
  || (dns.Qtype q =? TypeNS)%Z.

Definition isIPv6 (ip : IP) : bool :=
  match To4 ip with None => true | Some _ => false end.

(** What the loops of [handleDefault] leave. *)
Definition forwarded (done : bool) (evs : list Event) : Prop :=
  if done then
    exists pre c a m,
      evs = pre ++ [EvExchange c a (Ok m); EvWrite m; EvClose] /\
      Forall failedExchange pre
  else Forall failedExchange evs.

(** A record whose header and data fit its kind: an A record holds 4
    bytes, an AAAA record an address that has no 4-byte form. *)
Definition wellTyped (rr : RR) : Prop :=
  match rr with
  | A hdr ip => Rrtype hdr = TypeA /\ length ip = 4%nat
  | AAAA hdr ip => Rrtype hdr = TypeAAAA /\ To4 ip = None
  | CNAME hdr _ => Rrtype hdr = TypeCNAME
  | TXT hdr _ => Rrtype hdr = TypeTXT
  | NS hdr _ => Rrtype hdr = TypeNS
  | Other _ _ => False
  end.

(** A record made for the question [q]. *)
Definition about (q : dns.Question) (rr : RR) : Prop :=
  Name (header rr) = dns.Name q /\ Class (header rr) = dns.Qclass q /\
  Ttl (header rr) = 5%Z.

Definition ownRecord (questions : list dns.Question) (rr : RR) : Prop :=
  wellTyped rr /\ exists q, In q questions /\ about q rr.

(** The state of the loop of [handleQuery] is sound: [handled] is set
    only with a record in the answer, and every record is one of the
    handler's own. *)
Definition sound (questions : list dns.Question) (st : list RR * bool) : Prop :=
  (snd st = true -> fst st <> []) /\ Forall (ownRecord questions) (fst st).

(** The three ways a call of [ServeDNS] ends, after the lookups. *)
Inductive ends (req : Msg) : list Event -> Prop :=
| ends_local m :
    Answer m <> [] ->
    Forall (ownRecord (Question req)) (Answer m) ->
    m = withAnswer (SetReply (withRecursionAvailable zeroMsg) req) (Answer m) ->
    ends req [EvWrite m; EvClose]
| ends_upstream pre c a m :
    Forall failedExchange pre ->
    ends req (pre ++ [EvExchange c a (Ok m); EvWrite m; EvClose])
| ends_empty pre :
    Forall failedExchange pre ->
    ends req (pre ++ [EvWrite (SetReply zeroMsg req)]).

(** A host that knows an alias and the addresses for every name. *)
Definition aliasHost (alias : string) (ips : list IP) : Outside :=
  {| World := unit;
     Exchange := fun w _ _ _ => (Err "i/o timeout", w);
     LookupIP := fun w _ => (Ok ips, w);
     LookupCNAME := fun w _ => (Ok alias, w);
     LookupTXT := fun w _ => (Err "no such host", w);
     LookupNS := fun w _ => (Err "no such host", w) |}.

Definition aliasName : string := "lima-host.internal.".

End CnameLookup.

(** * Properties *)

(** ** Strings *)

Module GoStringsFacts.




Lemma length_append s t :
  String.length (s +:+ t) = (String.length s + String.length t)%nat.
Proof.
  induction s as [|c r IH]; simpl; [reflexivity|]. now rewrite IH.
Qed.

Lemma substring_all s : substring 0 (String.length s) s = s.
Proof.
  induction s as [|c r IH]; simpl; [reflexivity|]. now rewrite IH.
Qed.

Lemma substring_skip p s m :
  substring (String.length p) m (p +:+ s) = substring 0 m s.
Proof.
  induction p as [|c r IH]; simpl; [reflexivity|]. exact IH.
Qed.

Lemma substring_split n s :
  (n <= String.length s)%nat ->
  s = substring 0 n s +:+ substring n (String.length s - n) s.
Proof.
  revert n; induction s as [|c r IH]; intros n Hn; simpl in *.
  - destruct n; [reflexivity | lia].
  - destruct n as [|n]; simpl.
    + now rewrite substring_all.
    + change (String c r =
              String c (substring 0 n r +:+ substring n (String.length r - n) r)).
      f_equal. apply IH. lia.
Qed.

(** [HasSuffix] says what its name says. *)
Lemma HasSuffix_spec s suffix :
  HasSuffix s suffix = true <-> exists p, s = p +:+ suffix.
Proof.
  unfold HasSuffix. rewrite andb_true_iff, Nat.leb_le, String.eqb_eq. split.
  - intros [Hle Heq].
    exists (substring 0 (String.length s - String.length suffix) s).
    pose proof (substring_split (String.length s - String.length suffix) s) as H.
    replace (String.length s - (String.length s - String.length suffix))%nat
      with (String.length suffix) in H by lia.
    rewrite Heq in H. apply H. lia.
  - intros [p ->]. rewrite length_append. split; [lia|].
    replace (String.length p + String.length suffix - String.length suffix)%nat
      with (String.length p) by lia.
    rewrite substring_skip. apply substring_all.
Qed.

Lemma HasSuffix_app p suffix : HasSuffix (p +:+ suffix) suffix = true.
Proof. apply HasSuffix_spec. now exists p. Qed.

Lemma append_assoc s t u : (s +:+ t) +:+ u = s +:+ t +:+ u.
Proof.
  induction s as [|c r IH]; [reflexivity|].
  change (String c ((r +:+ t) +:+ u) = String c (r +:+ t +:+ u)). now f_equal.
Qed.

End GoStringsFacts.

Import GoStringsFacts.

(** ** The domain match *)

(** What [domainMatches] decides: the case-folded name ends with the
    case-folded scope and a dot. *)
Lemma domainMatches_spec name domain :
  domainMatches name domain = true <->
  exists p, ToLower name = p +:+ ToLower domain +:+ ".".
Proof. apply HasSuffix_spec. Qed.


Example domainMatches_mixed_case :
  domainMatches "FOO.Example.COM." "example.com" = true /\
  domainMatches "foo.example.com." "Example.COM" = true.
Proof. split; reflexivity. Qed.

Example domainMatches_other_domain :
  domainMatches "foo.example.org." "example.com" = false.
Proof. reflexivity. Qed.



(** ** Runs of the handler *)

Section HandlingFacts.
Context `{RT : Runtime}.

Lemma written_app e1 e2 : written (e1 ++ e2) = written e1 ++ written e2.
Proof.
  induction e1 as [|ev e1 IH]; [reflexivity|].
  destruct ev; simpl; now rewrite ?IH.
Qed.

Lemma exchanges_app e1 e2 : exchanges (e1 ++ e2) = exchanges e1 ++ exchanges e2.
Proof.
  induction e1 as [|ev e1 IH]; [reflexivity|].
  destruct ev; simpl; now rewrite ?IH.
Qed.

Lemma matched_app e1 e2 : matched (e1 ++ e2) = matched e1 ++ matched e2.
Proof.
  induction e1 as [|ev e1 IH]; [reflexivity|].
  destruct ev; simpl; now rewrite ?IH.
Qed.

Lemma allExchangesFailed_app e1 e2 :
  allExchangesFailed (e1 ++ e2) <->
  allExchangesFailed e1 /\ allExchangesFailed e2.
Proof.
  unfold allExchangesFailed. rewrite exchanges_app. apply Forall_app.
Qed.

(** Unfolding one round of a loop. *)
Lemma forUntil_cons {A} (body : A -> M bool) x rest w :
  forUntil body (x :: rest) w =
  let '(done, e1, w1) := body x w in
  if done then (true, e1, w1)
  else let '(b, e2, w2) := forUntil body rest w1 in (b, e1 ++ e2, w2).
Proof.
  simpl. unfold bind. destruct (body x w) as [[done e1] w1].
  destruct done; simpl; [now rewrite app_nil_r | reflexivity].
Qed.

(** A property of (result, trace) that holds of the empty loop and is
    kept when a round that went on is put in front, holds of every loop
    whose rounds have it. *)
Lemma forUntil_inv {A} (P : bool -> list Event -> Prop)
    (body : A -> M bool) (xs : list A) :
  P false [] ->
  (forall e1 b e2, P false e1 -> P b e2 -> P b (e1 ++ e2)) ->
  (forall x w b e w', In x xs -> body x w = (b, e, w') -> P b e) ->
  forall w b e w', forUntil body xs w = (b, e, w') -> P b e.
Proof.
  intros Hnil Hstep. induction xs as [|x rest IH]; intros Hbody w b e w' Hrun.
  - simpl in Hrun. inversion Hrun; subst. exact Hnil.
  - rewrite forUntil_cons in Hrun.
    destruct (body x w) as [[done e1] w1] eqn:Hx.
    assert (H1 : P done e1) by (eapply Hbody; [now left | exact Hx]).
    destruct done.
    + inversion Hrun; subst. exact H1.
    + destruct (forUntil body rest w1) as [[b2 e2] w2] eqn:Hrest.
      inversion Hrun; subst.
      apply Hstep; [exact H1|].
      eapply IH; [|exact Hrest].
      intros y w0 b0 e0 w0' Hy. apply Hbody. now right.
Qed.


Lemma accounted_nil : accounted false [].
Proof. split; [constructor | reflexivity]. Qed.

Lemma accounted_app e1 b e2 :
  accounted false e1 -> accounted b e2 -> accounted b (e1 ++ e2).
Proof.
  intros [Hf1 Hw1] H2. destruct b; simpl in *.
  - destruct H2 as (pre & c & addr & m & -> & Hf & Hw).
    exists (e1 ++ pre), c, addr, m. split; [now rewrite <- List.app_assoc|].
    split; [now apply allExchangesFailed_app|].
    now rewrite written_app, Hw1, Hw.
  - destruct H2 as [Hf2 Hw2]. split; [now apply allExchangesFailed_app|].
    now rewrite written_app, Hw1, Hw2.
Qed.

(** A marker in front changes nothing. *)
Lemma accounted_marker ev b e :
  ~ isNetwork ev -> accounted b e -> accounted b (ev :: e).
Proof.
  intros Hev H.
  assert (Hx : exchanges [ev] = [] /\ written [ev] = [])
    by (destruct ev; simpl in *; tauto).
  change (accounted b ([ev] ++ e)). apply accounted_app; [|exact H].
  split; [|apply Hx]. unfold allExchangesFailed.
  destruct Hx as [-> _]. constructor.
Qed.

Lemma accounted_written b e :
  accounted b e ->
  length (written e) = (if b then 1 else 0)%nat.
Proof.
  destruct b; simpl.
  - intros (pre & c & addr & m & -> & _ & Hw). now rewrite written_app, Hw.
  - intros [_ ->]. reflexivity.
Qed.

Lemma accounted_failed b e :
  accounted b e -> allExchangesFailed e -> b = false.
Proof.
  destruct b; simpl; [|reflexivity].
  intros (pre & c & addr & m & -> & _ & _) H.
  apply allExchangesFailed_app in H. destruct H as [_ H].
  inversion H as [|x l Hx _]; subst. destruct Hx.
Qed.

(** *** [tryWithConfig] *)

Lemma failedAttempts_facts pre fl :
  Forall2 failedAttempt pre fl ->
  written fl = [] /\ matched fl = [] /\ allExchangesFailed fl /\
  Forall isNetwork fl.
Proof.
  induction 1 as [|a ev pre fl [err ->] _ (Hw & Hm & Hf & Hn)].
  - repeat split; constructor.
  - simpl. repeat split; try assumption.
    + constructor; [exact I | exact Hf].
    + constructor; [exact I | exact Hn].
Qed.

Lemma tryOutcome_cons_failed a err attempts b evs :
  tryOutcome attempts b evs ->
  tryOutcome (a :: attempts) b (EvExchange (fst a) (snd a) (Err err) :: evs).
Proof.
  destruct b; simpl.
  - intros (pre & c & addr & post & fl & reply & -> & Hfl & ->).
    exists (a :: pre), c, addr, post,
      (EvExchange (fst a) (snd a) (Err err) :: fl), reply.
    repeat split. constructor; [now exists err | exact Hfl].
  - intros H. constructor; [now exists err | exact H].
Qed.

Lemma tryOutcome_app_done attempts more evs :
  tryOutcome attempts true evs -> tryOutcome (attempts ++ more) true evs.
Proof.
  intros (pre & c & addr & post & fl & reply & -> & Hfl & ->).
  exists pre, c, addr, (post ++ more), fl, reply.
  repeat split; [|exact Hfl]. now rewrite <- List.app_assoc.
Qed.

Lemma tryOutcome_app_failed attempts more e1 b e2 :
  tryOutcome attempts false e1 -> tryOutcome more b e2 ->
  tryOutcome (attempts ++ more) b (e1 ++ e2).
Proof.
  intros H1 H2. simpl in H1. destruct b; simpl in *.
  - destruct H2 as (pre & c & addr & post & fl & reply & -> & Hfl & ->).
    exists (attempts ++ pre), c, addr, post, (e1 ++ fl), reply.
    repeat split.
    + now rewrite <- List.app_assoc.
    + now apply Forall2_app.
    + now rewrite <- List.app_assoc.
  - now apply Forall2_app.
Qed.

(** The inner loop of [tryWithConfig], for one client. *)
Lemma serversLoop_outcome client req port srvs :
  forall w b e w',
    forUntil (fun srv =>
      let addr := srv +:+ ":" +:+ port in
      let* r := exchange client req addr in
      match r with
      | Err _ => ret false
      | Ok reply => let* _ := WriteMsg reply in ret true
      end) srvs w = (b, e, w') ->
    tryOutcome
      (map (pair client) (map (fun srv => srv +:+ ":" +:+ port) srvs)) b e.
Proof.
  induction srvs as [|srv rest IH]; intros w b e w' Hrun.
  - simpl in Hrun. inversion Hrun; subst. constructor.
  - rewrite forUntil_cons in Hrun. unfold bind, exchange in Hrun.
    destruct (Exchange w client req (srv +:+ ":" +:+ port)) as [r w1].
    destruct r as [reply|err]; simpl in Hrun.
    + inversion Hrun; subst.
      exists [], client, (srv +:+ ":" +:+ port),
        (map (pair client) (map (fun srv => srv +:+ ":" +:+ port) rest)),
        [], reply.
      repeat split. constructor.
    + destruct (forUntil _ rest w1) as [[b2 e2] w2] eqn:Hrest.
      inversion Hrun; subst. simpl.
      apply (tryOutcome_cons_failed (client, srv +:+ ":" +:+ port) err).
      eapply IH. exact Hrest.
Qed.

(** The outer loop of [tryWithConfig]. *)
Lemma clientsLoop_outcome req port srvs cls :
  forall w b e w',
    forUntil (fun client =>
      forUntil (fun srv =>
        let addr := srv +:+ ":" +:+ port in
        let* r := exchange client req addr in
        match r with
        | Err _ => ret false
        | Ok reply => let* _ := WriteMsg reply in ret true
        end) srvs) cls w = (b, e, w') ->
    tryOutcome
      (flat_map (fun client =>
         map (pair client) (map (fun srv => srv +:+ ":" +:+ port) srvs)) cls)
      b e.
Proof.
  induction cls as [|client rest IH]; intros w b e w' Hloop.
  - simpl in Hloop. inversion Hloop; subst. constructor.
  - rewrite forUntil_cons in Hloop.
    destruct (forUntil _ srvs w) as [[b1 e1] w1] eqn:Hin.
    apply serversLoop_outcome in Hin. simpl flat_map.
    destruct b1.
    + inversion Hloop; subst. now apply tryOutcome_app_done.
    + destruct (forUntil _ rest w1) as [[b2 e2] w2] eqn:Hrest.
      inversion Hloop; subst.
      apply tryOutcome_app_failed; [exact Hin|]. eapply IH. exact Hrest.
Qed.

(** [tryWithConfig] makes its attempts in the order of [attemptOrder],
    stops at the first exchange that answers, writes that reply, and
    reports an error exactly when every attempt failed. *)
Lemma tryWithConfig_outcome h req clientConfig w err e w' :
  tryWithConfig h req clientConfig w = (err, e, w') ->
  exists done : bool,
    err = (if done then nil else errors_New "No nameservers found") /\
    tryOutcome (attemptOrder h clientConfig) done e.
Proof.
  unfold tryWithConfig, attemptOrder, addresses.
  unfold bind at 1.
  destruct (forUntil _ (clients h) w) as [[done e1] w1] eqn:Hloop.
  apply clientsLoop_outcome in Hloop.
  unfold ret. intros Hrun. inversion Hrun; subst. rewrite app_nil_r.
  exists done. split; [reflexivity | exact Hloop].
Qed.

Lemma tryOutcome_facts attempts done e :
  tryOutcome attempts done e ->
  accounted done e /\ matched e = [] /\ Forall isNetwork e.
Proof.
  destruct done; simpl.
  - intros (pre & c & addr & post & fl & reply & _ & Hfl & ->).
    destruct (failedAttempts_facts _ _ Hfl) as (Hw & Hm & Hf & Hn).
    split; [|split].
    + exists fl, c, addr, reply. now repeat split.
    + rewrite matched_app, Hm. reflexivity.
    + apply Forall_app. split; [exact Hn|]. repeat constructor.
  - intros Hfl.
    destruct (failedAttempts_facts _ _ Hfl) as (Hw & Hm & Hf & Hn).
    split; [|split]; try assumption. now split.
Qed.

Lemma tryWithConfig_facts h req clientConfig w err e w' :
  tryWithConfig h req clientConfig w = (err, e, w') ->
  accounted (isNil err) e /\ matched e = [] /\ Forall isNetwork e.
Proof.
  intros Hrun. apply tryWithConfig_outcome in Hrun.
  destruct Hrun as (done & -> & Hout).
  apply tryOutcome_facts in Hout. now destruct done.
Qed.

(** *** One resolver group handed to [tryWithConfig] *)

Lemma groupRound_run o h req clientConfig w b e w' :
  (let* _ := emit (EvTry o clientConfig) in
   let* err := tryWithConfig h req clientConfig in
   ret (isNil err)) w = (b, e, w') ->
  exists err e1,
    tryWithConfig h req clientConfig w = (err, e1, w') /\
    b = isNil err /\ e = EvTry o clientConfig :: e1.
Proof.
  unfold bind, emit, ret.
  destruct (tryWithConfig h req clientConfig w) as [[err e1] w1].
  intros H. inversion H; subst. exists err, e1.
  repeat split. simpl. now rewrite app_nil_r.
Qed.

Lemma groupRound_facts o h req clientConfig w b e w' :
  (let* _ := emit (EvTry o clientConfig) in
   let* err := tryWithConfig h req clientConfig in
   ret (isNil err)) w = (b, e, w') ->
  accounted b e /\ matched e = [] /\
  exists e1, e = EvTry o clientConfig :: e1 /\ Forall isNetwork e1.
Proof.
  intros H. apply groupRound_run in H.
  destruct H as (err & e1 & Hrun & -> & ->).
  apply tryWithConfig_facts in Hrun. destruct Hrun as (Hacc & Hm & Hn).
  split; [|split].
  - apply accounted_marker; [simpl; tauto | exact Hacc].
  - exact Hm.
  - now exists e1.
Qed.

Lemma isNetwork_not_default e :
  Forall isNetwork e -> Forall (fun ev => ~ isDefaultTry ev) e.
Proof.
  intros H. eapply List.Forall_impl; [|exact H].
  intros [] Hn; simpl in *; tauto.
Qed.

Lemma isNetwork_not_scoped e :
  Forall isNetwork e -> Forall (fun ev => ~ isScopedTry ev) e.
Proof.
  intros H. eapply List.Forall_impl; [|exact H].
  intros [] Hn; simpl in *; tauto.
Qed.

(** *** The scoped phase *)

Lemma scopedInv_nil : scopedInv false [].
Proof. split; [apply accounted_nil|]. split; [reflexivity | constructor]. Qed.

Lemma scopedInv_app e1 b e2 :
  scopedInv false e1 -> scopedInv b e2 -> scopedInv b (e1 ++ e2).
Proof.
  intros (Ha1 & Hm1 & Hd1) (Ha2 & Hm2 & Hd2). split; [|split].
  - now apply accounted_app.
  - now rewrite matched_app, Hm1, Hm2.
  - apply Forall_app. now split.
Qed.

(** The groups of one scope. *)
Lemma scopeLoop_inv domain h req ccs w b e w' :
  forUntil (fun clientConfig =>
    let* _ := emit (EvTry (Scoped domain) clientConfig) in
    let* err := tryWithConfig h req clientConfig in
    ret (isNil err)) ccs w = (b, e, w') ->
  scopedInv b e.
Proof.
  apply forUntil_inv; [exact scopedInv_nil | exact scopedInv_app|].
  intros cc w0 b0 e0 w0' _ Hrun.
  apply groupRound_facts in Hrun.
  destruct Hrun as (Hacc & Hm & e1 & -> & Hn).
  split; [exact Hacc|]. split; [exact Hm|].
  constructor; [simpl; tauto | now apply isNetwork_not_default].
Qed.


Lemma tableLoop_inv h req q table w b e w' :
  forUntil (scopeRound h req q) table w = (b, e, w') -> scopedInv b e.
Proof.
  apply forUntil_inv; [exact scopedInv_nil | exact scopedInv_app|].
  intros [domain ccs] w0 b0 e0 w0' _. unfold scopeRound.
  destruct (domainMatches (dns.Name q) domain).
  - apply scopeLoop_inv.
  - unfold ret. intros H. inversion H; subst. exact scopedInv_nil.
Qed.


(** [matchDomainConfig], taken apart. *)
Lemma matchDomainConfig_run h req q w err e w' :
  matchDomainConfig h req q w = (err, e, w') ->
  exists (b : bool) e1 w1,
    forUntil (scopeRound h req q)
      (fst (RangeMap w (domainClientConfigs h)))
      (snd (RangeMap w (domainClientConfigs h))) = (b, e1, w1) /\
    err = (if b then nil else errors_New "No working match found") /\
    e = EvMatch q :: e1.
Proof.
  unfold matchDomainConfig. fold (scopeRound h req q).
  unfold bind, emit, rangeMap, ret.
  destruct (RangeMap w (domainClientConfigs h)) as [table w0]. simpl.
  destruct (forUntil (scopeRound h req q) table w0) as [[b e1] w1].
  intros H. inversion H; subst. exists b, e1, w'.
  repeat split; simpl; rewrite ?app_nil_r; reflexivity.
Qed.

Lemma matchDomainConfig_facts h req q w err e w' :
  matchDomainConfig h req q w = (err, e, w') ->
  accounted (isNil err) e /\ matched e = [q] /\
  Forall (fun ev => ~ isDefaultTry ev) e.
Proof.
  intros H. apply matchDomainConfig_run in H.
  destruct H as (b & e1 & w1 & Hloop & -> & ->).
  apply tableLoop_inv in Hloop. destruct Hloop as (Hacc & Hm & Hd).
  replace (isNil (if b then nil else errors_New "No working match found"))
    with b by now destruct b.
  split; [apply accounted_marker; [simpl; tauto | exact Hacc]|].
  split; [simpl; now rewrite Hm|].
  constructor; [simpl; tauto | exact Hd].
Qed.


(** *** The loop over the questions *)

Lemma questionRound_run h req q w b e w' :
  (let* err := matchDomainConfig h req q in ret (isNil err)) w = (b, e, w') ->
  exists err, matchDomainConfig h req q w = (err, e, w') /\ b = isNil err.
Proof.
  unfold bind, ret.
  destruct (matchDomainConfig h req q w) as [[err e1] w1].
  intros H. inversion H; subst. exists err. now rewrite app_nil_r.
Qed.

Lemma questionsLoop_inv h req qs w b e w' :
  forUntil (fun q =>
    let* err := matchDomainConfig h req q in ret (isNil err)) qs w
  = (b, e, w') ->
  accounted b e /\ Forall (fun ev => ~ isDefaultTry ev) e.
Proof.
  apply (forUntil_inv
    (fun b e => accounted b e /\ Forall (fun ev => ~ isDefaultTry ev) e)).
  - split; [apply accounted_nil | constructor].
  - intros e1 b0 e2 [Ha1 Hd1] [Ha2 Hd2]. split.
    + now apply accounted_app.
    + apply Forall_app. now split.
  - intros q w0 b0 e0 w0' _ Hrun. apply questionRound_run in Hrun.
    destruct Hrun as (err & Hrun & ->).
    apply matchDomainConfig_facts in Hrun. tauto.
Qed.

(** [matchDomainConfig] is entered for the questions in their order, up
    to the first one it succeeds for. *)
Lemma questionsLoop_matched h req qs :
  forall w b e w',
    forUntil (fun q =>
      let* err := matchDomainConfig h req q in ret (isNil err)) qs w
    = (b, e, w') ->
    exists rest, qs = matched e ++ rest /\
                 (b = false -> rest = []) /\
                 (qs <> [] -> matched e <> []).
Proof.
  induction qs as [|q qs IH]; intros w b e w' Hrun.
  - simpl in Hrun. inversion Hrun; subst. exists []. now repeat split.
  - rewrite forUntil_cons in Hrun.
    destruct ((let* err := matchDomainConfig h req q in ret (isNil err)) w)
      as [[b1 e1] w1] eqn:Hq.
    apply questionRound_run in Hq. destruct Hq as (err & Hq & ->).
    apply matchDomainConfig_facts in Hq. destruct Hq as (_ & Hm & _).
    destruct (isNil err).
    + inversion Hrun; subst. exists qs. rewrite Hm.
      repeat split; [discriminate | discriminate].
    + destruct (forUntil _ qs w1) as [[b2 e2] w2] eqn:Hrest.
      inversion Hrun; subst.
      destruct (IH _ _ _ _ Hrest) as (rest & Hqs & Hnil & _).
      exists rest. rewrite matched_app, Hm. simpl.
      repeat split; [now f_equal | exact Hnil | discriminate].
Qed.


(** *** The default chain *)

Lemma tryDefaults_inv h req w b e w' :
  tryDefaults h req w = (b, e, w') ->
  accounted b e /\ matched e = [] /\ Forall (fun ev => ~ isScopedTry ev) e.
Proof.
  unfold tryDefaults.
  apply (forUntil_inv (fun b e =>
    accounted b e /\ matched e = [] /\
    Forall (fun ev => ~ isScopedTry ev) e)).
  - split; [apply accounted_nil|]. split; [reflexivity | constructor].
  - intros e1 b0 e2 (Ha1 & Hm1 & Hd1) (Ha2 & Hm2 & Hd2). split; [|split].
    + now apply accounted_app.
    + now rewrite matched_app, Hm1, Hm2.
    + apply Forall_app. now split.
  - intros cc w0 b0 e0 w0' _ Hrun. apply groupRound_facts in Hrun.
    destruct Hrun as (Hacc & Hm & e1 & -> & Hn).
    split; [exact Hacc|]. split; [exact Hm|].
    constructor; [simpl; tauto | now apply isNetwork_not_scoped].
Qed.

(** *** [ServeDNS], taken apart *)

Lemma routeByDomain_other_opcode h req w :
  isQueryOpcode req = false -> routeByDomain h req w = (false, [], w).
Proof.
  unfold routeByDomain. intros ->. reflexivity.
Qed.

Lemma routeByDomain_query h req :
  isQueryOpcode req = true ->
  routeByDomain h req =
  forUntil (fun q =>
    let* err := matchDomainConfig h req q in ret (isNil err))
  (dns.Question_ req).
Proof.
  unfold routeByDomain. intros ->. reflexivity.
Qed.

Lemma routeByDomain_inv h req w b e w' :
  routeByDomain h req w = (b, e, w') ->
  accounted b e /\ Forall (fun ev => ~ isDefaultTry ev) e.
Proof.
  destruct (isQueryOpcode req) eqn:Hop.
  - rewrite (routeByDomain_query _ _ Hop). apply questionsLoop_inv.
  - rewrite (routeByDomain_other_opcode _ _ _ Hop).
    intros H. inversion H; subst. split; [apply accounted_nil | constructor].
Qed.

Lemma ServeDNS_run h req w : ServeDNS_shape h req w (traceOf (ServeDNS h req w)).
Proof.
  unfold ServeDNS, traceOf, bind at 1.
  destruct (routeByDomain h req w) as [[b1 e1] w1] eqn:H1.
  destruct b1.
  - unfold ret. simpl. rewrite app_nil_r. eapply served_by_scope; eauto.
  - unfold bind.
    destruct (tryDefaults h req w1) as [[b2 e2] w2] eqn:H2.
    destruct b2; simpl.
    + rewrite app_nil_r. eapply served_by_default; eauto.
    + eapply served_failure; eauto.
Qed.

End HandlingFacts.

(** ** What [ServeDNS] guarantees *)

Section ServeDNSFacts.
Context `{RT : Runtime}.

Lemma isQueryOpcode_true req :
  isQueryOpcode req = true <->
  dns.Opcode (dns.Hdr req) = dns.OpcodeQuery \/
  dns.Opcode (dns.Hdr req) = dns.OpcodeIQuery.
Proof.
  unfold isQueryOpcode. rewrite orb_true_iff, !Z.eqb_eq. reflexivity.
Qed.

Lemma isQueryOpcode_false req :
  isQueryOpcode req = false <->
  dns.Opcode (dns.Hdr req) <> dns.OpcodeQuery /\
  dns.Opcode (dns.Hdr req) <> dns.OpcodeIQuery.
Proof.
  unfold isQueryOpcode. rewrite orb_false_iff, !Z.eqb_neq. reflexivity.
Qed.

(** Either some loop returned after its one write, or nothing was
    written before the failure reply. *)
Lemma ServeDNS_accounted h req w :
  accounted true (traceOf (ServeDNS h req w)) \/
  exists e0, traceOf (ServeDNS h req w) = e0 ++ [EvWrite (failureReply req)] /\
             accounted false e0.
Proof.
  destruct (ServeDNS_run h req w) as [e1 w1 H1|e1 w1 e2 w2 H1 H2|e1 w1 e2 w2 H1 H2].
  - left. now apply routeByDomain_inv in H1.
  - left. apply routeByDomain_inv in H1. apply tryDefaults_inv in H2.
    apply accounted_app; tauto.
  - right. exists (e1 ++ e2). split; [now rewrite <- List.app_assoc|].
    apply routeByDomain_inv in H1. apply tryDefaults_inv in H2.
    apply accounted_app; tauto.
Qed.


(** C10: one run of [ServeDNS] writes exactly one message to the
    response writer. It is either the reply of an exchange that answered,
    written right after that exchange, which ends the run and before
    which every exchange failed; or it is the failure reply, and then
    every exchange of the run failed. *)
Theorem ServeDNS_writes_exactly_one_reply (h : Handler) (req : dns.Msg)
    (w : World) :
  exists m,
    written (traceOf (ServeDNS h req w)) = [m] /\
    ((exists pre c addr,
        traceOf (ServeDNS h req w)
        = pre ++ [EvExchange c addr (Ok m); EvWrite m] /\
        allExchangesFailed pre)
     \/ (m = failureReply req /\
         allExchangesFailed (traceOf (ServeDNS h req w)))).
Proof.
  destruct (ServeDNS_accounted h req w) as [H|(e0 & Heq & [Hf Hw])].
  - destruct H as (pre & c & addr & m & Heq & Hf & Hw).
    exists m. rewrite Heq. split.
    + rewrite written_app, Hw. reflexivity.
    + left. now exists pre, c, addr.
  - exists (failureReply req). rewrite Heq. split.
    + rewrite written_app, Hw. reflexivity.
    + right. split; [reflexivity|].
      apply allExchangesFailed_app. split; [exact Hf | constructor].
Qed.

(** C2: when no exchange of the run answered, [ServeDNS] writes exactly
    one message: a reply with the transaction id and the opcode of the
    request, the response flag set, recursion-available clear and the
    response code server-failure. *)
Theorem ServeDNS_failure_reply (h : Handler) (req : dns.Msg) (w : World) :
  allExchangesFailed (traceOf (ServeDNS h req w)) ->
  exists m,
    written (traceOf (ServeDNS h req w)) = [m] /\
    dns.Id (dns.Hdr m) = dns.Id (dns.Hdr req) /\
    dns.Opcode (dns.Hdr m) = dns.Opcode (dns.Hdr req) /\
    dns.Response (dns.Hdr m) = true /\
    dns.RecursionAvailable (dns.Hdr m) = false /\
    dns.Rcode (dns.Hdr m) = dns.RcodeServerFailure.
Proof.
  intros Hall.
  destruct (ServeDNS_accounted h req w) as [H|(e0 & Heq & [Hf Hw])].
  - apply accounted_failed in H; [discriminate | exact Hall].
  - exists (failureReply req). rewrite Heq, written_app, Hw.
    repeat split.
Qed.

(** C9: domain routing depends on the opcode alone. For QUERY and
    inverse QUERY, [matchDomainConfig] is entered for the questions in
    their order, for the first one at least. For every other opcode it is
    never entered and no scoped group is tried: the run is the default
    chain followed, if that gives nothing, by the failure reply. *)
Theorem ServeDNS_routes_by_opcode (h : Handler) (req : dns.Msg) (w : World) :
  (dns.Opcode (dns.Hdr req) = dns.OpcodeQuery \/
   dns.Opcode (dns.Hdr req) = dns.OpcodeIQuery ->
   exists rest,
     dns.Question_ req = matched (traceOf (ServeDNS h req w)) ++ rest /\
     (dns.Question_ req <> [] -> matched (traceOf (ServeDNS h req w)) <> []))
  /\
  (dns.Opcode (dns.Hdr req) <> dns.OpcodeQuery /\
   dns.Opcode (dns.Hdr req) <> dns.OpcodeIQuery ->
   matched (traceOf (ServeDNS h req w)) = [] /\
   Forall (fun ev => ~ isScopedTry ev) (traceOf (ServeDNS h req w)) /\
   ServeDNS h req w =
   (let* done := tryDefaults h req in
    if done then ret tt else WriteMsg (failureReply req)) w).
Proof.
  split.
  - intros Hop. apply isQueryOpcode_true in Hop.
    pose proof (routeByDomain_query h req Hop) as Hroute.
    assert (Hq : forall b e1 w1, routeByDomain h req w = (b, e1, w1) ->
              exists rest, dns.Question_ req = matched e1 ++ rest /\
                           (dns.Question_ req <> [] -> matched e1 <> [])).
    { intros b e1 w1 H1. rewrite Hroute in H1.
      apply questionsLoop_matched in H1.
      destruct H1 as (rest & ? & _ & ?). now exists rest. }
    destruct (ServeDNS_run h req w)
      as [e1 w1 H1|e1 w1 e2 w2 H1 H2|e1 w1 e2 w2 H1 H2].
    + eapply Hq; eauto.
    + apply tryDefaults_inv in H2. destruct H2 as (_ & Hm & _).
      rewrite matched_app, Hm, app_nil_r. eapply Hq; eauto.
    + apply tryDefaults_inv in H2. destruct H2 as (_ & Hm & _).
      rewrite !matched_app, Hm. simpl. rewrite app_nil_r. eapply Hq; eauto.
  - intros Hop. apply isQueryOpcode_false in Hop.
    pose proof (routeByDomain_other_opcode h req w Hop) as Hroute.
    assert (Hrun : ServeDNS h req w =
              (let* done := tryDefaults h req in
               if done then ret tt else WriteMsg (failureReply req)) w).
    { unfold ServeDNS. unfold bind at 1. rewrite Hroute.
      destruct ((let* done := tryDefaults h req in
                 if done then ret tt else WriteMsg (failureReply req)) w)
        as [[u e] w']. reflexivity. }
    split; [|split]; [| |exact Hrun].
    + destruct (ServeDNS_run h req w)
        as [e1 w1 H1|e1 w1 e2 w2 H1 H2|e1 w1 e2 w2 H1 H2];
        rewrite Hroute in H1; inversion H1; subst; simpl;
        apply tryDefaults_inv in H2; destruct H2 as (_ & Hm & _).
      * exact Hm.
      * now rewrite matched_app, Hm.
    + destruct (ServeDNS_run h req w)
        as [e1 w1 H1|e1 w1 e2 w2 H1 H2|e1 w1 e2 w2 H1 H2];
        rewrite Hroute in H1; inversion H1; subst; simpl;
        apply tryDefaults_inv in H2; destruct H2 as (_ & _ & Hs).
      * exact Hs.
      * apply Forall_app. split; [exact Hs|].
        constructor; [simpl; tauto | constructor].
Qed.


End ServeDNSFacts.

(** ** Sorting a short slice *)

Section SortFacts.
Context {A : Type} (less : A -> A -> bool).

Lemma swapIfLess_perm (data : list A) i j :
  snd (swapIfLess less data i j) ≡ₚ data.
Proof.
  unfold swapIfLess.
  destruct (data !! i) as [x|] eqn:Hi; [|reflexivity].
  destruct (data !! j) as [y|] eqn:Hj; [|reflexivity].
  destruct (less x y); [|reflexivity]. simpl.
  now apply Permutation_insert_swap.
Qed.

Lemma bubble_perm j : forall data : list A, bubble less j data ≡ₚ data.
Proof.
  induction j as [|j IH]; intros data; [reflexivity|]. simpl.
  pose proof (swapIfLess_perm data (S j) j) as Hp.
  destruct (swapIfLess less data (S j) j) as [[] data']; simpl in Hp.
  - now rewrite IH.
  - reflexivity.
Qed.

Lemma fold_perm (f : list A -> nat -> list A) (idx : list nat) :
  (forall d i, f d i ≡ₚ d) ->
  forall data, fold_left f idx data ≡ₚ data.
Proof.
  intros Hf. induction idx as [|i idx IH]; intros data; [reflexivity|].
  simpl. now rewrite IH.
Qed.

Lemma insertionSort_func_perm (data : list A) :
  insertionSort_func less data ≡ₚ data.
Proof. apply fold_perm. intros d i. apply bubble_perm. Qed.

Lemma shellPass6_perm (data : list A) : shellPass6 less data ≡ₚ data.
Proof. apply fold_perm. intros d i. apply swapIfLess_perm. Qed.

Lemma sort_Slice_perm legacy (data : list A) :
  sort_Slice less legacy data ≡ₚ data.
Proof.
  unfold sort_Slice. rewrite insertionSort_func_perm.
  destruct legacy; [apply shellPass6_perm | reflexivity].
Qed.








End SortFacts.

(** ** The order of the resolvers *)






(** The comparison is not an ordering: each of these two resolvers is
    less than the other. *)
Example resolverLess_both_ways :
  let scoped := {| scutil.Domain := "corp"; scutil.Nameservers := ["10.0.0.53"];
                   scutil.Order := 2; scutil.Reachable := true |} in
  let unscoped := {| scutil.Domain := ""; scutil.Nameservers := ["192.168.1.1"];
                     scutil.Order := 1; scutil.Reachable := true |} in
  resolverLess scoped unscoped = true /\ resolverLess unscoped scoped = true.
Proof. split; reflexivity. Qed.

(** ** Configuration discovery *)

Lemma addResolver_clients h r cc : clients (addResolver h r cc) = clients h.
Proof. unfold addResolver. now destruct (String.eqb (scutil.Domain r) ""). Qed.

Lemma addResolvers_clients env rs :
  forall h h', addResolvers env rs h = Ok h' -> clients h' = clients h.
Proof.
  induction rs as [|r rs IH]; intros h h' H; simpl in H.
  - now inversion H.
  - destruct (newStaticClientConfig env (scutil.Nameservers r)) as [cc|err];
      [|discriminate].
    rewrite (IH _ _ H). apply addResolver_clients.
Qed.

(** Every handler that discovery builds has the UDP client first and the
    TCP client second. *)
Lemma newHandler_clients env h :
  newHandler env = Ok h -> clients h = [udpClient; tcpClient].
Proof.
  unfold newHandler.
  destruct (ReadMacOSDNS env) as [scConfig|e1].
  - intros H. now rewrite (addResolvers_clients _ _ _ _ H).
  - destruct (ClientConfigFromFile env "/etc/resolv.conf") as [cc|e2].
    + intros H. now inversion H.
    + destruct (newStaticClientConfig env fallbackIPs) as [cc|e3];
        intros H; now inversion H.
Qed.


Lemma sortedResolvers_perm env scConfig :
  sortedResolvers env scConfig ≡ₚ List.filter scutil.Reachable scConfig.
Proof. apply sort_Slice_perm. Qed.



(** C6: when the platform facility reports an error and the resolver
    file cannot be read, discovery succeeds: the domain table is empty
    and the default chain is the one group that the DNS library reads
    from the two lines naming 8.8.8.8 and 1.1.1.1. *)
Theorem newHandler_public_fallback (env : Env) (e1 e2 : string) :
  ReadMacOSDNS env = Err e1 ->
  ClientConfigFromFile env "/etc/resolv.conf" = Err e2 ->
  ClientConfigFromReader env
    ("nameserver 8.8.8.8" +:+ LF +:+ "nameserver 1.1.1.1" +:+ LF)
  = Ok {| dns.Servers := ["8.8.8.8"; "1.1.1.1"]; dns.Port := "53" |} ->
  newHandler env =
  Ok {| domainClientConfigs := ∅;
        defaultClientConfigs :=
          [{| dns.Servers := ["8.8.8.8"; "1.1.1.1"]; dns.Port := "53" |}];
        clients := [udpClient; tcpClient] |}.
Proof.
  intros H1 H2 H3. unfold newHandler. rewrite H1, H2.
  unfold newStaticClientConfig, fallbackIPs. simpl fold_left.
  change (ClientConfigFromReader env
            ("nameserver 8.8.8.8" +:+ LF +:+ "nameserver 1.1.1.1" +:+ LF))
    with (ClientConfigFromReader env
            ((("" +:+ "nameserver " +:+ "8.8.8.8" +:+ LF)
              +:+ "nameserver " +:+ "1.1.1.1" +:+ LF))) in H3.
  rewrite H3. reflexivity.
Qed.

(** ** The attempts of [tryWithConfig] under a discovered handler *)

(** C4: under a handler built by discovery, [tryWithConfig] goes through
    the addresses of the group in their stored order over UDP and then
    again over TCP. It stops at the first exchange that comes back
    without an error and writes the reply of that exchange as it is,
    whatever its response code; every attempt before it failed and none
    is made after it. When every attempt fails it writes nothing and
    reports an error. *)
Theorem tryWithConfig_udp_then_tcp `{RT : Runtime} (env : Env) (h : Handler)
    (req : dns.Msg) (clientConfig : dns.ClientConfig) (w : World) :
  newHandler env = Ok h ->
  let attempts :=
    map (pair udpClient) (addresses clientConfig)
    ++ map (pair tcpClient) (addresses clientConfig) in
  let r := tryWithConfig h req clientConfig w in
  (valueOf r = nil /\
   exists pre c addr post fl reply,
     attempts = pre ++ (c, addr) :: post /\
     Forall2 failedAttempt pre fl /\
     traceOf r = fl ++ [EvExchange c addr (Ok reply); EvWrite reply])
  \/
  (valueOf r = errors_New "No nameservers found" /\
   Forall2 failedAttempt attempts (traceOf r)).
Proof.
  intros Hh attempts r.
  assert (Hatt : attemptOrder h clientConfig = attempts).
  { unfold attemptOrder. rewrite (newHandler_clients _ _ Hh). simpl.
    now rewrite app_nil_r. }
  subst r. destruct (tryWithConfig h req clientConfig w) as [[err e] w'] eqn:Hrun.
  apply tryWithConfig_outcome in Hrun. destruct Hrun as (done & -> & Hout).
  rewrite Hatt in Hout. unfold valueOf, traceOf. simpl.
  destruct done; [left | right]; split; auto.
Qed.

(** ** The listener handle *)

Lemma dns_Shutdown_stops d : snd (dns.Shutdown d) = stop d.
Proof. unfold dns.Shutdown, stop. destruct d as [n a []]; reflexivity. Qed.

(** [Shutdown] returns, whatever the library answers, and leaves every
    server of the handle stopped. *)
Lemma Shutdown_stops s :
  Shutdown s = Returned {| udp := stop <$> udp s; tcp := stop <$> tcp s |}.
Proof.
  destruct s as [[[n a []]|] [[n' a' []]|]]; reflexivity.
Qed.

Lemma stop_stop d : stop (stop d) = stop d.
Proof. reflexivity. Qed.

(** A second call meets stopped servers: the library reports an error
    for each, and the call returns all the same. *)
Example Shutdown_twice_library_error :
  let d := {| dns.srvNet := "udp"; dns.Addr := "127.0.0.1:5353";
              dns.started := true |} in
  fst (dns.Shutdown (stop d)) = errors_New "dns: server not started" /\
  Shutdown {| udp := Some (stop d); tcp := None |}
  = Returned {| udp := Some (stop d); tcp := None |}.
Proof. split; reflexivity. Qed.

Lemma StartDNS_goroutines a env srv err gs :
  StartDNS a env = Returned (srv, err, gs) ->
  ((udpDNSLocalPort a <= 0)%Z -> Forall (fun g => isUDP g = false) gs) /\
  ((tcpDNSLocalPort a <= 0)%Z -> Forall (fun g => isUDP g = true) gs).
Proof.
  unfold StartDNS. destruct (newHandler env) as [h|e]; [|discriminate].
  intros H. inversion H; subst. split; intros Hp.
  - replace (0 <? udpDNSLocalPort a)%Z with false by (symmetry; apply Z.ltb_ge; lia).
    simpl. destruct (0 <? tcpDNSLocalPort a)%Z; repeat constructor.
  - replace (0 <? tcpDNSLocalPort a)%Z with false by (symmetry; apply Z.ltb_ge; lia).
    rewrite app_nil_r. destruct (0 <? udpDNSLocalPort a)%Z; repeat constructor.
Qed.

(** A transport without a goroutine never gets a server. *)
Lemma reachable_no_udp gs s :
  Forall (fun g => isUDP g = false) gs -> reachable gs s -> udp s = None.
Proof.
  intros Hgs. rewrite List.Forall_forall in Hgs.
  induction 1 as [|g s Hg _ IH|g s Hg _ IH|s s' _ IH Hsd].
  - reflexivity.
  - specialize (Hgs g Hg). destruct g; [discriminate | exact IH].
  - specialize (Hgs g Hg). destruct g; [discriminate | exact IH].
  - rewrite Shutdown_stops in Hsd. inversion Hsd; subst. simpl. now rewrite IH.
Qed.

Lemma reachable_no_tcp gs s :
  Forall (fun g => isUDP g = true) gs -> reachable gs s -> tcp s = None.
Proof.
  intros Hgs. rewrite List.Forall_forall in Hgs.
  induction 1 as [|g s Hg _ IH|g s Hg _ IH|s s' _ IH Hsd].
  - reflexivity.
  - specialize (Hgs g Hg). destruct g; [exact IH | discriminate].
  - specialize (Hgs g Hg). destruct g; [exact IH | discriminate].
  - rewrite Shutdown_stops in Hsd. inversion Hsd; subst. simpl. now rewrite IH.
Qed.

Lemma isStopped_stop o : isStopped (stop <$> o).
Proof. now destruct o. Qed.

(** C7: in every state of a handle that [StartDNS] returned, [Shutdown]
    returns, and so does a second call, which changes nothing. After it
    every server the handle holds is stopped, and the handle holds the
    servers it held before and no other. A transport whose port was zero
    or negative has no server before or after. *)
Theorem Shutdown_idempotent_total (a : HostAgent) (env : Env)
    (srv : Server) (err : error) (gs : list Goroutine) (s : Server) :
  StartDNS a env = Returned (srv, err, gs) ->
  reachable gs s ->
  exists s',
    Shutdown s = Returned s' /\
    Shutdown s' = Returned s' /\
    udp s' = stop <$> udp s /\
    tcp s' = stop <$> tcp s /\
    isStopped (udp s') /\ isStopped (tcp s') /\
    ((udpDNSLocalPort a <= 0)%Z -> udp s = None /\ udp s' = None) /\
    ((tcpDNSLocalPort a <= 0)%Z -> tcp s = None /\ tcp s' = None).
Proof.
  intros Hstart Hreach.
  apply StartDNS_goroutines in Hstart. destruct Hstart as [Hu Ht].
  exists {| udp := stop <$> udp s; tcp := stop <$> tcp s |}.
  split; [apply Shutdown_stops|]. split.
  { rewrite Shutdown_stops. simpl. f_equal. f_equal.
    - now destruct (udp s).
    - now destruct (tcp s). }
  simpl. repeat split; try apply isStopped_stop.
  - now apply (reachable_no_udp gs); [apply Hu|].
  - rewrite (reachable_no_udp gs s); [reflexivity | now apply Hu | exact Hreach].
  - now apply (reachable_no_tcp gs); [apply Ht|].
  - rewrite (reachable_no_tcp gs s); [reflexivity | now apply Ht | exact Hreach].
Qed.



(** ** The scripted world and the sample hosts at work *)

#[global] Instance scripted_visits_all : RangeVisitsAll Scripted.runtime.
Proof. intros w m. reflexivity. Qed.

Module Runs.
Import Sample.

(** A name under the scope is answered by the scoped group; the default
    chain is not contacted. *)
Example scoped_answer_skips_default :
  traceOf (ServeDNS corpHandler (request 7 0 "db.internal.corp.")
             (Scripted.script [Ok (answerA 7 "db.internal.corp." "10.0.0.5")]))
  = [EvMatch (question "db.internal.corp.");
     EvTry (Scoped "internal.corp") corpConfig;
     EvExchange udpClient "10.0.0.53:53"
       (Ok (answerA 7 "db.internal.corp." "10.0.0.5"));
     EvWrite (answerA 7 "db.internal.corp." "10.0.0.5")].
Proof. vm_compute. reflexivity. Qed.

(** The first default group times out on every attempt, the second one
    answers NXDOMAIN: that answer is the reply. *)
Example nxdomain_is_relayed :
  written (traceOf (ServeDNS twoDefaults (request 9 0 "nowhere.example.")
                      (Scripted.script
                         [timeout; timeout; Ok (nxdomain 9 "nowhere.example.")])))
  = [nxdomain 9 "nowhere.example."].
Proof. vm_compute. reflexivity. Qed.

(** The first address of a group times out, the second answers. *)
Example second_address_answers :
  traceOf (tryWithConfig corpHandler (request 3 0 "db.internal.corp.")
             pairConfig
             (Scripted.script
                [timeout; Ok (answerA 3 "db.internal.corp." "10.0.0.5")]))
  = [EvExchange udpClient "10.0.0.53:53" timeout;
     EvExchange udpClient "10.0.0.54:53"
       (Ok (answerA 3 "db.internal.corp." "10.0.0.5"));
     EvWrite (answerA 3 "db.internal.corp." "10.0.0.5")].
Proof. vm_compute. reflexivity. Qed.

(** With a NOTIFY opcode the scope is not consulted. *)
Example notify_goes_to_default :
  traceOf (ServeDNS corpHandler (request 11 dns.OpcodeNotify "db.internal.corp.")
             (Scripted.script [Ok (answerA 11 "db.internal.corp." "203.0.113.9")]))
  = [EvTry Default publicConfig;
     EvExchange udpClient "8.8.8.8:53"
       (Ok (answerA 11 "db.internal.corp." "203.0.113.9"));
     EvWrite (answerA 11 "db.internal.corp." "203.0.113.9")].
Proof. vm_compute. reflexivity. Qed.

(** What discovery builds on the host with a platform list. *)
Example macEnv_handler :
  newHandler macEnv =
  Ok {| domainClientConfigs :=
          {[ "lab" := [{| dns.Servers := ["10.9.0.1"; "10.9.0.2"]; dns.Port := "53" |}];
             "internal.corp" := [corpConfig] ]};
        defaultClientConfigs :=
          [{| dns.Servers := ["192.168.1.1"]; dns.Port := "53" |}];
        clients := [udpClient; tcpClient] |}.
Proof. vm_compute. reflexivity. Qed.

Example macEnv_sorted :
  sortedResolvers macEnv [wifi; corpVPN; mdns; labVPN] = [labVPN; corpVPN; wifi].
Proof. vm_compute. reflexivity. Qed.

(** An unscoped entry with a smaller hint stays in front of a scoped
    one. *)
Example unscoped_may_come_first :
  let early := {| scutil.Domain := ""; scutil.Nameservers := ["192.168.1.1"];
                  scutil.Order := 100; scutil.Reachable := true |} in
  sort_Slice resolverLess false [corpVPN; early] = [early; corpVPN].
Proof. vm_compute. reflexivity. Qed.

End Runs.

(** ** The theorems at concrete inputs *)

(** C2 on a request whose every exchange times out. *)
Lemma ServeDNS_failure_reply_witness :
  allExchangesFailed
    (traceOf (ServeDNS Sample.corpHandler
                (Sample.request 7 dns.OpcodeQuery "db.internal.corp.")
                (Scripted.script []))) /\
  exists m,
    written (traceOf (ServeDNS Sample.corpHandler
                        (Sample.request 7 dns.OpcodeQuery "db.internal.corp.")
                        (Scripted.script []))) = [m] /\
    dns.Id (dns.Hdr m) = 7%Z /\
    dns.Opcode (dns.Hdr m) = dns.OpcodeQuery /\
    dns.Response (dns.Hdr m) = true /\
    dns.RecursionAvailable (dns.Hdr m) = false /\
    dns.Rcode (dns.Hdr m) = dns.RcodeServerFailure.
Proof.
  assert (H : allExchangesFailed
                (traceOf (ServeDNS Sample.corpHandler
                            (Sample.request 7 dns.OpcodeQuery "db.internal.corp.")
                            (Scripted.script []))))
    by (vm_compute; repeat constructor).
  split; [exact H|].
  exact (ServeDNS_failure_reply Sample.corpHandler
           (Sample.request 7 dns.OpcodeQuery "db.internal.corp.")
           (Scripted.script []) H).
Defined.


(** C4 under the handler of the bare host: the first address times out
    over UDP, the second answers NXDOMAIN, and that is what is written. *)
Lemma tryWithConfig_udp_then_tcp_witness :
  let h := {| domainClientConfigs := ∅;
              defaultClientConfigs :=
                [{| dns.Servers := ["8.8.8.8"; "1.1.1.1"]; dns.Port := "53" |}];
              clients := [udpClient; tcpClient] |} in
  let r := tryWithConfig h (Sample.request 3 dns.OpcodeQuery "nowhere.example.")
             Sample.pairConfig
             (Scripted.script
                [Sample.timeout; Ok (Sample.nxdomain 3 "nowhere.example.")]) in
  newHandler Sample.bareEnv = Ok h /\
  traceOf r = [EvExchange udpClient "10.0.0.53:53" Sample.timeout;
               EvExchange udpClient "10.0.0.54:53"
                 (Ok (Sample.nxdomain 3 "nowhere.example."));
               EvWrite (Sample.nxdomain 3 "nowhere.example.")] /\
  ((valueOf r = nil /\
    exists pre c addr post fl reply,
      map (pair udpClient) (addresses Sample.pairConfig)
      ++ map (pair tcpClient) (addresses Sample.pairConfig)
      = pre ++ (c, addr) :: post /\
      Forall2 failedAttempt pre fl /\
      traceOf r = fl ++ [EvExchange c addr (Ok reply); EvWrite reply])
   \/
   (valueOf r = errors_New "No nameservers found" /\
    Forall2 failedAttempt
      (map (pair udpClient) (addresses Sample.pairConfig)
       ++ map (pair tcpClient) (addresses Sample.pairConfig))
      (traceOf r))).
Proof.
  intros h r.
  assert (Hh : newHandler Sample.bareEnv = Ok h) by (vm_compute; reflexivity).
  split; [exact Hh|]. split; [vm_compute; reflexivity|].
  exact (tryWithConfig_udp_then_tcp (RT := Scripted.runtime) Sample.bareEnv h
           (Sample.request 3 dns.OpcodeQuery "nowhere.example.")
           Sample.pairConfig
           (Scripted.script
              [Sample.timeout; Ok (Sample.nxdomain 3 "nowhere.example.")])
           Hh).
Defined.

(** C6 on the bare host. *)
Lemma newHandler_public_fallback_witness :
  newHandler Sample.bareEnv =
  Ok {| domainClientConfigs := ∅;
        defaultClientConfigs :=
          [{| dns.Servers := ["8.8.8.8"; "1.1.1.1"]; dns.Port := "53" |}];
        clients := [udpClient; tcpClient] |}.
Proof.
  apply (newHandler_public_fallback Sample.bareEnv
           "scutil: executable file not found"
           "open /etc/resolv.conf: no such file or directory").
  - reflexivity.
  - reflexivity.
  - vm_compute. reflexivity.
Defined.


(** C7 on a handle started with UDP only, whose listener serves. *)
Lemma Shutdown_idempotent_total_witness :
  let a := {| udpDNSLocalPort := 5353; tcpDNSLocalPort := 0 |} in
  let s := {| udp := Some {| dns.srvNet := "udp"; dns.Addr := "127.0.0.1:5353";
                             dns.started := true |};
              tcp := None |} in
  exists s',
    Shutdown s = Returned s' /\
    Shutdown s' = Returned s' /\
    udp s' = stop <$> udp s /\
    tcp s' = stop <$> tcp s /\
    isStopped (udp s') /\ isStopped (tcp s') /\
    ((udpDNSLocalPort a <= 0)%Z -> udp s = None /\ udp s' = None) /\
    ((tcpDNSLocalPort a <= 0)%Z -> tcp s = None /\ tcp s' = None).
Proof.
  intros a s.
  pose (h := {| domainClientConfigs := ∅;
                defaultClientConfigs :=
                  [{| dns.Servers := ["8.8.8.8"; "1.1.1.1"]; dns.Port := "53" |}];
                clients := [udpClient; tcpClient] |}).
  pose (g := goUDP "127.0.0.1:5353" h).
  apply (Shutdown_idempotent_total a Sample.bareEnv
           {| udp := None; tcp := None |} nil [g] s).
  - vm_compute. reflexivity.
  - apply (reach_serving [g] g (assign g {| udp := None; tcp := None |})).
    + left. reflexivity.
    + apply reach_assign; [left; reflexivity | apply reach_init].
Defined.

(** ** More on the runs of the handler *)

Section MoreHandlingFacts.
Context `{RT : Runtime}.

Lemma defaultTries_app e1 e2 :
  defaultTries (e1 ++ e2) = defaultTries e1 ++ defaultTries e2.
Proof.
  induction e1 as [|ev e1 IH]; [reflexivity|].
  destruct ev as [| [] | |]; simpl; now rewrite ?IH.
Qed.

Lemma defaultTries_none e :
  Forall (fun ev => ~ isDefaultTry ev) e -> defaultTries e = [].
Proof.
  induction 1 as [|ev e Hev _ IH]; [reflexivity|].
  destruct ev as [| [] | |]; simpl in *; try exact IH. now contradiction Hev.
Qed.

Lemma exchanges_length_failed pre fl :
  Forall2 failedAttempt pre fl -> length (exchanges fl) = length pre.
Proof.
  induction 1 as [|a ev pre fl [err ->] _ IH]; [reflexivity|].
  simpl. now rewrite IH.
Qed.

Lemma attemptOrder_length h cc :
  length (attemptOrder h cc) = (length (clients h) * length (dns.Servers cc))%nat.
Proof.
  unfold attemptOrder, addresses. induction (clients h) as [|c cls IH];
    [reflexivity|].
  simpl. rewrite List.length_app, !length_map, IH. reflexivity.
Qed.

(** The default chain, group by group. *)
Lemma defaultsLoop_tries h req ccs :
  forall w b e w',
    forUntil (fun clientConfig =>
      let* _ := emit (EvTry Default clientConfig) in
      let* err := tryWithConfig h req clientConfig in
      ret (isNil err)) ccs w = (b, e, w') ->
    exists rest, ccs = defaultTries e ++ rest /\ (b = false -> rest = []).
Proof.
  induction ccs as [|cc ccs IH]; intros w b e w' Hrun.
  - simpl in Hrun. inversion Hrun; subst. now exists [].
  - rewrite forUntil_cons in Hrun.
    destruct ((let* _ := emit (EvTry Default cc) in
               let* err := tryWithConfig h req cc in ret (isNil err)) w)
      as [[b1 e1] w1] eqn:Hcc.
    apply groupRound_facts in Hcc.
    destruct Hcc as (_ & _ & e0 & -> & Hn).
    assert (H0 : defaultTries e0 = [])
      by (apply defaultTries_none; now apply isNetwork_not_default).
    destruct b1.
    + inversion Hrun; subst. exists ccs. simpl. rewrite H0.
      split; [reflexivity | discriminate].
    + destruct (forUntil _ ccs w1) as [[b2 e2] w2] eqn:Hrest.
      inversion Hrun; subst.
      destruct (IH _ _ _ _ Hrest) as (rest & Hccs & Hnil).
      exists rest. simpl. rewrite defaultTries_app, H0. simpl.
      split; [now f_equal | exact Hnil].
Qed.

(** X1: the groups of the default chain are tried in their stored
    order, without gaps; and when no exchange of the run answered, every
    one of them was tried. *)
Theorem ServeDNS_default_chain_in_order (h : Handler) (req : dns.Msg)
    (w : World) :
  exists rest,
    defaultClientConfigs h
    = defaultTries (traceOf (ServeDNS h req w)) ++ rest /\
    (allExchangesFailed (traceOf (ServeDNS h req w)) -> rest = []).
Proof.
  pose proof (ServeDNS_accounted h req w) as Hacc.
  destruct (ServeDNS_run h req w)
    as [e1 w1 H1|e1 w1 e2 w2 H1 H2|e1 w1 e2 w2 H1 H2].
  - pose proof (routeByDomain_inv _ _ _ _ _ _ H1) as [Ha Hno].
    exists (defaultClientConfigs h). rewrite (defaultTries_none _ Hno).
    split; [reflexivity|]. intros Hf.
    apply accounted_failed in Ha; [discriminate | exact Hf].
  - pose proof (routeByDomain_inv _ _ _ _ _ _ H1) as [Ha1 Hno].
    pose proof (tryDefaults_inv _ _ _ _ _ _ H2) as (Ha2 & _ & _).
    apply defaultsLoop_tries in H2. destruct H2 as (rest & Heq & _).
    exists rest. rewrite defaultTries_app, (defaultTries_none _ Hno).
    split; [exact Heq|]. intros Hf.
    apply allExchangesFailed_app in Hf. destruct Hf as [_ Hf].
    apply accounted_failed in Ha2; [discriminate | exact Hf].
  - pose proof (routeByDomain_inv _ _ _ _ _ _ H1) as [_ Hno].
    apply defaultsLoop_tries in H2. destruct H2 as (rest & Heq & Hnil).
    exists []. rewrite !defaultTries_app, (defaultTries_none _ Hno). simpl.
    rewrite !app_nil_r. split; [|reflexivity].
    rewrite (Hnil eq_refl), app_nil_r in Heq. exact Heq.
Qed.

(** X2: a run has two phases. In the first only scoped groups are
    tried, in the second only default groups, and [matchDomainConfig] is
    not entered again; for an opcode other than QUERY and inverse QUERY
    the first phase is empty. *)
Theorem ServeDNS_scoped_phase_then_default_phase (h : Handler)
    (req : dns.Msg) (w : World) :
  exists e1 e2,
    traceOf (ServeDNS h req w) = e1 ++ e2 /\
    Forall (fun ev => ~ isDefaultTry ev) e1 /\
    Forall (fun ev => ~ isScopedTry ev) e2 /\
    matched e2 = [] /\
    (isQueryOpcode req = false -> e1 = []).
Proof.
  assert (Hother : forall e1 w1 b,
            routeByDomain h req w = (b, e1, w1) ->
            isQueryOpcode req = false -> e1 = []).
  { intros e1 w1 b H1 Hop.
    rewrite (routeByDomain_other_opcode h req w Hop) in H1. now inversion H1. }
  destruct (ServeDNS_run h req w)
    as [e1 w1 H1|e1 w1 e2 w2 H1 H2|e1 w1 e2 w2 H1 H2].
  - exists e1, []. rewrite app_nil_r.
    pose proof (routeByDomain_inv _ _ _ _ _ _ H1) as [_ Hno].
    repeat split; try constructor; try assumption. eapply Hother; eauto.
  - exists e1, e2.
    pose proof (routeByDomain_inv _ _ _ _ _ _ H1) as [_ Hno].
    pose proof (tryDefaults_inv _ _ _ _ _ _ H2) as (_ & Hm & Hs).
    repeat split; try assumption. eapply Hother; eauto.
  - exists e1, (e2 ++ [EvWrite (failureReply req)]).
    pose proof (routeByDomain_inv _ _ _ _ _ _ H1) as [_ Hno].
    pose proof (tryDefaults_inv _ _ _ _ _ _ H2) as (_ & Hm & Hs).
    repeat split; try assumption.
    + apply Forall_app. split; [exact Hs|].
      constructor; [simpl; tauto | constructor].
    + now rewrite matched_app, Hm.
    + eapply Hother; eauto.
Qed.

(** X3: one call of [tryWithConfig] makes at most one exchange for each
    client and server of the group, and writes at most once. When it
    reports an error it made every one of these exchanges and wrote
    nothing; so a group without servers costs no exchange. *)
Theorem tryWithConfig_bounded (h : Handler) (req : dns.Msg)
    (clientConfig : dns.ClientConfig) (w : World) :
  let r := tryWithConfig h req clientConfig w in
  (length (exchanges (traceOf r))
   <= length (clients h) * length (dns.Servers clientConfig))%nat /\
  (length (written (traceOf r)) <= 1)%nat /\
  (valueOf r <> nil ->
   length (exchanges (traceOf r))
   = (length (clients h) * length (dns.Servers clientConfig))%nat /\
   written (traceOf r) = []).
Proof.
  intros r. subst r.
  destruct (tryWithConfig h req clientConfig w) as [[err e] w'] eqn:Hrun.
  apply tryWithConfig_outcome in Hrun. destruct Hrun as (done & -> & Hout).
  unfold traceOf, valueOf. simpl. rewrite <- attemptOrder_length.
  destruct done; simpl in Hout.
  - destruct Hout as (pre & c & addr & post & fl & reply & Heq & Hfl & ->).
    pose proof (exchanges_length_failed _ _ Hfl) as Hlen.
    destruct (failedAttempts_facts _ _ Hfl) as (Hw & _).
    rewrite exchanges_app, written_app, Hw, Heq, !List.length_app, Hlen.
    simpl. split; [lia|]. split; [lia|]. intros Hne. now contradiction Hne.
  - pose proof (exchanges_length_failed _ _ Hout) as Hlen.
    destruct (failedAttempts_facts _ _ Hout) as (Hw & _).
    rewrite Hw, Hlen. simpl. split; [lia|]. split; [lia|]. now intros _.
Qed.

(** *** Where the exchanges go *)

Lemma within_nil A S : within A S [].
Proof. intros ev []. Qed.

Lemma within_app A S e1 e2 :
  within A S e1 -> within A S e2 -> within A S (e1 ++ e2).
Proof.
  intros H1 H2 ev Hin. apply in_app_or in Hin.
  destruct Hin as [Hin|Hin]; [exact (H1 ev Hin) | exact (H2 ev Hin)].
Qed.

Lemma within_mono (A A' : dns.Client -> string -> Prop)
    (S S' : string -> dns.ClientConfig -> Prop) e :
  (forall c a, A c a -> A' c a) -> (forall d cc, S d cc -> S' d cc) ->
  within A S e -> within A' S' e.
Proof.
  intros HA HS H ev Hin. specialize (H ev Hin).
  destruct ev as [q | [d|] cc | c a r | m]; auto.
Qed.

Lemma in_attemptOrder h cc c addr :
  In (c, addr) (attemptOrder h cc) -> attemptOf h cc c addr.
Proof.
  unfold attemptOrder, attemptOf. rewrite in_flat_map.
  intros (c' & Hc & Hin). apply in_map_iff in Hin.
  destruct Hin as (a & Heq & Ha). inversion Heq; subst. now split.
Qed.

Lemma failedAttempts_in pre fl :
  Forall2 failedAttempt pre fl ->
  forall ev, In ev fl ->
  exists a err, In a pre /\ ev = EvExchange (fst a) (snd a) (Err err).
Proof.
  induction 1 as [|a ev0 pre fl [err ->] _ IH]; intros ev Hin; [destruct Hin|].
  destruct Hin as [<-|Hin].
  - exists a, err. split; [now left | reflexivity].
  - destruct (IH ev Hin) as (a' & err' & Ha & ->).
    exists a', err'. split; [now right | reflexivity].
Qed.

(** [tryWithConfig] talks to the addresses of its group only, through
    the clients of the handler, and hands no group on. *)
Lemma tryWithConfig_within h req cc w err e w' S :
  tryWithConfig h req cc w = (err, e, w') ->
  within (attemptOf h cc) S e /\ Forall isNetwork e.
Proof.
  intros Hrun.
  pose proof (tryWithConfig_facts _ _ _ _ _ _ _ Hrun) as (_ & _ & Hnet).
  split; [|exact Hnet].
  apply tryWithConfig_outcome in Hrun. destruct Hrun as (done & _ & Hout).
  assert (Hfl : forall pre fl, Forall2 failedAttempt pre fl ->
            (forall a, In a pre -> In a (attemptOrder h cc)) ->
            within (attemptOf h cc) S fl).
  { intros pre fl H2 Hsub ev Hin.
    destruct (failedAttempts_in _ _ H2 ev Hin) as ([c a] & e0 & Ha & ->).
    simpl. apply in_attemptOrder. now apply Hsub. }
  destruct done; simpl in Hout.
  - destruct Hout as (pre & c & addr & post & fl & reply & Heq & H2 & ->).
    apply within_app.
    + apply (Hfl pre fl H2). intros a Ha. rewrite Heq.
      apply in_or_app. now left.
    + intros ev [<-|[<-|[]]]; simpl; [|exact I].
      apply in_attemptOrder. rewrite Heq. apply in_or_app. right. now left.
  - apply (Hfl _ _ Hout). auto.
Qed.

Lemma groupRound_within o h req cc w b e w' A S :
  (let* _ := emit (EvTry o cc) in
   let* err := tryWithConfig h req cc in
   ret (isNil err)) w = (b, e, w') ->
  (forall c a, attemptOf h cc c a -> A c a) ->
  (forall d, o = Scoped d -> S d cc) ->
  within A S e.
Proof.
  intros Hrun HA HS. apply groupRound_run in Hrun.
  destruct Hrun as (err & e1 & Hrun & _ & ->).
  apply (tryWithConfig_within _ _ _ _ _ _ _ S) in Hrun. destruct Hrun as [Hw _].
  intros ev [<-|Hin].
  - destruct o; [now apply HS | exact I].
  - exact (within_mono (attemptOf h cc) A S S e1 HA (fun _ _ H => H) Hw ev Hin).
Qed.

Lemma loop_within {X} (A : dns.Client -> string -> Prop)
    (S : string -> dns.ClientConfig -> Prop) (body : X -> M bool) xs :
  (forall x w b e w', In x xs -> body x w = (b, e, w') -> within A S e) ->
  forall w b e w', forUntil body xs w = (b, e, w') -> within A S e.
Proof.
  intros Hbody.
  apply (forUntil_inv (fun _ e => within A S e)).
  - apply within_nil.
  - intros e1 b e2. apply within_app.
  - exact Hbody.
Qed.

Lemma matchDomainConfig_within `{!RangeVisitsAll RT} h req q w err e w' :
  matchDomainConfig h req q w = (err, e, w') ->
  within (fun c a => exists d cc, selects h q d cc /\ attemptOf h cc c a)
         (selects h q) e.
Proof.
  intros Hrun. apply matchDomainConfig_run in Hrun.
  destruct Hrun as (b & e1 & w1 & Hloop & _ & ->).
  intros ev [<-|Hin]; [exact I|]. revert ev Hin.
  change (within (fun c a => exists d cc, selects h q d cc /\ attemptOf h cc c a)
                 (selects h q) e1).
  eapply loop_within; [|exact Hloop].
  intros [domain ccs] w0 b0 e0 w0' Hent Hbody.
  assert (Hlook : domainClientConfigs h !! domain = Some ccs).
  { apply elem_of_map_to_list.
    rewrite <- (range_visits_all w (domainClientConfigs h)).
    now apply list_elem_of_In. }
  unfold scopeRound in Hbody.
  destruct (domainMatches (dns.Name q) domain) eqn:Hmatch.
  - eapply loop_within; [|exact Hbody].
    intros cc w2 b2 e2 w2' Hcc Hround.
    eapply groupRound_within; [exact Hround| |].
    + intros c a Hat. exists domain, cc. split; [|exact Hat].
      split; [exact Hmatch|]. now exists ccs.
    + intros d Hd. inversion Hd; subst. split; [exact Hmatch|]. now exists ccs.
  - unfold ret in Hbody. inversion Hbody; subst. apply within_nil.
Qed.

(** Every exchange of a run is with an address of a group the request
    may be sent to, and every scoped group tried is one that a question
    selects. *)
Lemma ServeDNS_within `{!RangeVisitsAll RT} h req w :
  within (fun c a => exists cc, groupFor h req cc /\ attemptOf h cc c a)
         (fun d cc => isQueryOpcode req = true /\ scopedFor h req d cc)
         (traceOf (ServeDNS h req w)).
Proof.
  set (A := fun c a => exists cc, groupFor h req cc /\ attemptOf h cc c a).
  set (S := fun d cc => isQueryOpcode req = true /\ scopedFor h req d cc).
  assert (Hroute : forall b e1 w1,
            routeByDomain h req w = (b, e1, w1) -> within A S e1).
  { intros b e1 w1 H1.
    destruct (Bool.bool_dec (isQueryOpcode req) true) as [Hop|Hop];
      [|apply not_true_is_false in Hop].
    - rewrite (routeByDomain_query h req Hop) in H1.
      eapply loop_within; [|exact H1].
      intros q w0 b0 e0 w0' Hq Hbody. apply questionRound_run in Hbody.
      destruct Hbody as (err & Hbody & _).
      apply matchDomainConfig_within in Hbody.
      eapply within_mono; [| |exact Hbody].
      + intros c a (d & cc & [Hm (ccs & Hl & Hcc)] & Hat).
        exists cc. split; [|exact Hat]. right. split; [exact Hop|].
        exists d, q, ccs. now repeat split.
      + intros d cc [Hm (ccs & Hl & Hcc)]. split; [exact Hop|].
        exists q, ccs. now repeat split.
    - rewrite (routeByDomain_other_opcode h req w Hop) in H1.
      inversion H1; subst. apply within_nil. }
  assert (Hdef : forall w1 b e2 w2,
            tryDefaults h req w1 = (b, e2, w2) -> within A S e2).
  { intros w1 b e2 w2 H2. unfold tryDefaults in H2.
    eapply loop_within; [|exact H2].
    intros cc w0 b0 e0 w0' Hcc Hround.
    eapply groupRound_within; [exact Hround| |].
    - intros c a Hat. exists cc. split; [now left | exact Hat].
    - intros d Hd. discriminate Hd. }
  destruct (ServeDNS_run h req w)
    as [e1 w1 H1|e1 w1 e2 w2 H1 H2|e1 w1 e2 w2 H1 H2].
  - eapply Hroute; eauto.
  - apply within_app; [eapply Hroute | eapply Hdef]; eauto.
  - apply within_app; [eapply Hroute; eauto|].
    apply within_app; [eapply Hdef; eauto|].
    intros ev [<-|[]]. exact I.
Qed.

(** X4: every exchange of a run goes through a client of the handler
    to an address of a configured group: a group of the default chain,
    or, for a QUERY or inverse QUERY, a group scoped to a domain that a
    question of the request matches. No other server is contacted. *)
Theorem ServeDNS_contacts_configured_servers `{!RangeVisitsAll RT}
    (h : Handler) (req : dns.Msg) (w : World)
    (c : dns.Client) (addr : string) (r : result dns.Msg) :
  In (EvExchange c addr r) (traceOf (ServeDNS h req w)) ->
  exists clientConfig,
    groupFor h req clientConfig /\
    In c (clients h) /\ In addr (addresses clientConfig).
Proof.
  intros Hin. pose proof (ServeDNS_within h req w _ Hin) as H. simpl in H.
  destruct H as (cc & Hg & Hc & Ha). now exists cc.
Qed.

(** X5: a scoped group is tried only for a QUERY or inverse QUERY, and
    only when it stands in the table under a domain that a question of
    the request matches. *)
Theorem ServeDNS_tries_matching_scopes_only `{!RangeVisitsAll RT}
    (h : Handler) (req : dns.Msg) (w : World)
    (domain : string) (clientConfig : dns.ClientConfig) :
  In (EvTry (Scoped domain) clientConfig) (traceOf (ServeDNS h req w)) ->
  (dns.Opcode (dns.Hdr req) = dns.OpcodeQuery \/
   dns.Opcode (dns.Hdr req) = dns.OpcodeIQuery) /\
  exists q ccs,
    In q (dns.Question_ req) /\
    domainMatches (dns.Name q) domain = true /\
    domainClientConfigs h !! domain = Some ccs /\
    In clientConfig ccs.
Proof.
  intros Hin. pose proof (ServeDNS_within h req w _ Hin) as H. simpl in H.
  destruct H as [Hop Hs]. split; [now apply isQueryOpcode_true | exact Hs].
Qed.

(** A loop whose rounds all go on without a trace leaves none. *)
Lemma forUntil_silent {X} (body : X -> M bool) xs :
  (forall x w, In x xs -> body x w = (false, [], w)) ->
  forall w, forUntil body xs w = (false, [], w).
Proof.
  induction xs as [|x xs IH]; intros Hbody w; [reflexivity|].
  rewrite forUntil_cons, (Hbody x w) by now left.
  rewrite IH; [reflexivity|]. intros y w0 Hy. apply Hbody. now right.
Qed.

(** X6: for a question that no domain of the table matches, and so for
    an empty table, [matchDomainConfig] reports an error without any
    exchange and without writing. *)
Theorem matchDomainConfig_without_match `{!RangeVisitsAll RT}
    (h : Handler) (req : dns.Msg) (q : dns.Question) (w : World) :
  (forall domain ccs,
     domainClientConfigs h !! domain = Some ccs ->
     domainMatches (dns.Name q) domain = false) ->
  valueOf (matchDomainConfig h req q w) = errors_New "No working match found" /\
  traceOf (matchDomainConfig h req q w) = [EvMatch q].
Proof.
  intros Hnone.
  destruct (matchDomainConfig h req q w) as [[err e] w'] eqn:Hrun.
  apply matchDomainConfig_run in Hrun.
  destruct Hrun as (b & e1 & w1 & Hloop & -> & ->).
  rewrite forUntil_silent in Hloop.
  - inversion Hloop; subst. split; reflexivity.
  - intros [domain ccs] w0 Hent. unfold scopeRound.
    rewrite (Hnone domain ccs); [reflexivity|].
    apply elem_of_map_to_list.
    rewrite <- (range_visits_all w (domainClientConfigs h)).
    now apply list_elem_of_In.
Qed.

End MoreHandlingFacts.

(** ** What is sent upstream *)

Section RecordingFacts.
Variable base : Runtime.
Variable req : dns.Msg.

Lemma mirrors_ret {A} (a : A) :
  mirrors base req (ret (RT := base) a) (ret (RT := recording base) a).
Proof. intros w log. unfold ret. simpl. now rewrite app_nil_r. Qed.

Lemma mirrors_emit ev :
  (forall c a r, ev <> EvExchange c a r) ->
  mirrors base req (emit (RT := base) ev) (emit (RT := recording base) ev).
Proof.
  intros Hev w log. unfold emit.
  destruct ev as [q|o cc|c a r|m]; simpl; try now rewrite app_nil_r.
  now contradiction (Hev c a r).
Qed.

Lemma mirrors_bind {A B} (m : @M base A) m' (k : A -> @M base B) k' :
  mirrors base req m m' ->
  (forall a, mirrors base req (k a) (k' a)) ->
  mirrors base req (bind (RT := base) m k) (bind (RT := recording base) m' k').
Proof.
  intros Hm Hk w log. unfold bind. rewrite Hm.
  destruct (m w) as [[a e1] w1]. rewrite Hk.
  destruct (k a w1) as [[b e2] w2].
  rewrite exchanges_app, List.length_app, repeat_app, List.app_assoc.
  reflexivity.
Qed.

Lemma mirrors_exchange client addr :
  mirrors base req (exchange (RT := base) client req addr)
                   (exchange (RT := recording base) client req addr).
Proof.
  intros w log. unfold exchange. simpl.
  destruct (@Exchange base w client req addr) as [r w1]. reflexivity.
Qed.

Lemma mirrors_rangeMap m :
  mirrors base req (rangeMap (RT := base) m) (rangeMap (RT := recording base) m).
Proof.
  intros w log. unfold rangeMap. simpl.
  destruct (@RangeMap base w m) as [ents w1]. simpl. now rewrite app_nil_r.
Qed.

Lemma mirrors_forUntil {X} (body : X -> @M base bool) body' xs :
  (forall x, mirrors base req (body x) (body' x)) ->
  mirrors base req (forUntil (RT := base) body xs)
                   (forUntil (RT := recording base) body' xs).
Proof.
  intros Hbody. induction xs as [|x xs IH]; simpl.
  - apply mirrors_ret.
  - apply mirrors_bind; [apply Hbody|].
    intros []; [apply mirrors_ret | exact IH].
Qed.

Lemma mirrors_tryWithConfig h cc :
  mirrors base req (tryWithConfig (RT := base) h req cc)
                   (tryWithConfig (RT := recording base) h req cc).
Proof.
  unfold tryWithConfig. apply mirrors_bind.
  - apply mirrors_forUntil. intros client.
    apply mirrors_forUntil. intros srv. cbv zeta.
    apply mirrors_bind; [apply mirrors_exchange|].
    intros [reply|err]; [|apply mirrors_ret].
    apply mirrors_bind; [|intros; apply mirrors_ret].
    apply mirrors_emit. discriminate.
  - intros done. apply mirrors_ret.
Qed.

Lemma mirrors_group o h cc :
  mirrors base req
    (let* _ := emit (RT := base) (EvTry o cc) in
     let* err := tryWithConfig (RT := base) h req cc in
     ret (RT := base) (isNil err))
    (let* _ := emit (RT := recording base) (EvTry o cc) in
     let* err := tryWithConfig (RT := recording base) h req cc in
     ret (RT := recording base) (isNil err)).
Proof.
  apply mirrors_bind; [apply mirrors_emit; discriminate|]. intros _.
  apply mirrors_bind; [apply mirrors_tryWithConfig|]. intros err.
  apply mirrors_ret.
Qed.

Lemma mirrors_matchDomainConfig h q :
  mirrors base req (matchDomainConfig (RT := base) h req q)
                   (matchDomainConfig (RT := recording base) h req q).
Proof.
  unfold matchDomainConfig.
  apply mirrors_bind; [apply mirrors_emit; discriminate|]. intros _.
  apply mirrors_bind; [apply mirrors_rangeMap|]. intros table.
  apply mirrors_bind; [|intros done; apply mirrors_ret].
  apply mirrors_forUntil. intros [domain ccs].
  destruct (domainMatches (dns.Name q) domain); [|apply mirrors_ret].
  apply mirrors_forUntil. intros cc. apply mirrors_group.
Qed.

Lemma mirrors_ServeDNS h :
  mirrors base req (ServeDNS (RT := base) h req)
                   (ServeDNS (RT := recording base) h req).
Proof.
  unfold ServeDNS. apply mirrors_bind.
  - unfold routeByDomain. destruct (isQueryOpcode req); [|apply mirrors_ret].
    apply mirrors_forUntil. intros q.
    apply mirrors_bind; [apply mirrors_matchDomainConfig|].
    intros err. apply mirrors_ret.
  - intros []; [apply mirrors_ret|].
    apply mirrors_bind.
    + unfold tryDefaults. apply mirrors_forUntil. intros cc.
      apply mirrors_group.
    + intros []; [apply mirrors_ret|]. apply mirrors_emit. discriminate.
Qed.

(** X7: every exchange of a run is made with the request as it was
    received. A world that records the messages handed to
    [client.Exchange] sees the request once for each exchange and
    nothing else, and the run itself goes as it does without the
    recording. *)
Theorem ServeDNS_forwards_request_unchanged (h : Handler)
    (w : @World base) (log : list dns.Msg) :
  let r := ServeDNS (RT := recording base) h req (w, log) in
  let r0 := ServeDNS (RT := base) h req w in
  traceOf (RT := recording base) r = traceOf (RT := base) r0 /\
  fst (snd r) = snd r0 /\
  snd (snd r) = log ++ repeat req (length (exchanges (traceOf (RT := base) r0))).
Proof.
  intros r r0. subst r r0. rewrite (mirrors_ServeDNS h w log).
  destruct (ServeDNS (RT := base) h req w) as [[u e] w1].
  repeat split.
Qed.

End RecordingFacts.

(** ** More on the domain match *)




(** X9: a name that matches a domain matches every domain that the
    first one ends with, whatever the case: a name under
    "internal.corp" is also under "corp", and both scopes are tried. *)
Theorem domainMatches_wider_domain (name inner outer p : string) :
  ToLower inner = p +:+ ToLower outer ->
  domainMatches name inner = true ->
  domainMatches name outer = true.
Proof.
  intros Hin H. apply domainMatches_spec in H. destruct H as [p0 Hp0].
  apply domainMatches_spec. exists (p0 +:+ p).
  rewrite Hp0, Hin. now rewrite !append_assoc.
Qed.

Lemma domainMatches_wider_domain_witness :
  domainMatches "db.internal.corp." "Internal.Corp" = true /\
  domainMatches "db.internal.corp." "corp" = true.
Proof.
  split; [reflexivity|].
  apply (domainMatches_wider_domain "db.internal.corp." "Internal.Corp"
           "corp" "internal.").
  - reflexivity.
  - reflexivity.
Defined.

(** ** More on discovery *)

Lemma addResolvers_groups env rs :
  forall h0 h, addResolvers env rs h0 = Ok h ->
  exists ccs,
    Forall2 (builds env) rs ccs /\
    defaultClientConfigs h = defaultClientConfigs h0 ++ groupsOf "" rs ccs /\
    (forall d, d <> "" ->
       domainClientConfigs h !! d =
       match groupsOf d rs ccs with
       | [] => domainClientConfigs h0 !! d
       | l => Some (default [] (domainClientConfigs h0 !! d) ++ l)
       end) /\
    domainClientConfigs h !! "" = domainClientConfigs h0 !! "".
Proof.
  induction rs as [|r rs IH]; intros h0 h H; simpl in H.
  - inversion H; subst. exists []. simpl. rewrite app_nil_r.
    repeat split. constructor.
  - destruct (newStaticClientConfig env (scutil.Nameservers r)) as [cc|e] eqn:Hcc;
      [|discriminate].
    destruct (IH _ _ H) as (ccs & Hb & Hdef & Hdom & Hroot).
    exists (cc :: ccs). split; [constructor; [exact Hcc | exact Hb]|].
    unfold addResolver in *. simpl groupsOf.
    destruct (String.eqb (scutil.Domain r) "") eqn:Hr.
    + simpl in *. split; [now rewrite Hdef, <- List.app_assoc|].
      split; [|exact Hroot]. intros d Hd.
      apply String.eqb_eq in Hr.
      assert (Hne : String.eqb (scutil.Domain r) d = false)
        by (apply String.eqb_neq; congruence).
      rewrite Hne. now apply Hdom.
    + simpl in *. apply String.eqb_neq in Hr. split; [exact Hdef|].
      split.
      * intros d Hd. rewrite (Hdom d Hd).
        destruct (String.eqb (scutil.Domain r) d) eqn:Hrd.
        -- apply String.eqb_eq in Hrd. subst d. rewrite lookup_insert_eq.
           destruct (groupsOf (scutil.Domain r) rs ccs) as [|g gs]; simpl.
           ++ reflexivity.
           ++ now rewrite <- List.app_assoc.
        -- apply String.eqb_neq in Hrd. now rewrite lookup_insert_ne.
      * rewrite Hroot. now rewrite lookup_insert_ne.
Qed.

(** The tables after discovery through the platform list. *)
Lemma newHandler_groups env scConfig h :
  ReadMacOSDNS env = Ok scConfig ->
  newHandler env = Ok h ->
  exists ccs,
    Forall2 (builds env) (sortedResolvers env scConfig) ccs /\
    defaultClientConfigs h = groupsOf "" (sortedResolvers env scConfig) ccs /\
    forall d,
      domainClientConfigs h !! d =
      if String.eqb d "" then None
      else match groupsOf d (sortedResolvers env scConfig) ccs with
           | [] => None
           | l => Some l
           end.
Proof.
  unfold newHandler. intros -> H. apply addResolvers_groups in H.
  destruct H as (ccs & Hb & Hdef & Hdom & Hroot).
  exists ccs. split; [exact Hb|]. split; [exact Hdef|].
  intros d. destruct (String.eqb d "") eqn:Hd.
  - apply String.eqb_eq in Hd. subst d. rewrite Hroot. apply lookup_empty.
  - apply String.eqb_neq in Hd. rewrite (Hdom d Hd). simpl.
    rewrite lookup_empty. reflexivity.
Qed.

Lemma groupsOf_sound env d rs :
  forall ccs cc, Forall2 (builds env) rs ccs -> In cc (groupsOf d rs ccs) ->
  exists r, In r rs /\ scutil.Domain r = d /\ builds env r cc.
Proof.
  induction rs as [|r rs IH]; intros ccs cc Hb Hin;
    inversion Hb as [|? c0 ? ccs' Hr Hb']; subst; simpl in Hin; [destruct Hin|].
  destruct (String.eqb (scutil.Domain r) d) eqn:Hd.
  - destruct Hin as [<-|Hin].
    + exists r. apply String.eqb_eq in Hd. split; [now left | now split].
    + destruct (IH _ _ Hb' Hin) as (r' & ? & ? & ?). exists r'.
      split; [now right | now split].
  - destruct (IH _ _ Hb' Hin) as (r' & ? & ? & ?). exists r'.
    split; [now right | now split].
Qed.

Lemma groupsOf_complete env rs :
  forall ccs r, Forall2 (builds env) rs ccs -> In r rs ->
  exists cc, builds env r cc /\ In cc (groupsOf (scutil.Domain r) rs ccs).
Proof.
  induction rs as [|r0 rs IH]; intros ccs r Hb Hin; [destruct Hin|].
  inversion Hb as [|? c0 ? ccs' Hr Hb']; subst. simpl.
  destruct Hin as [->|Hin].
  - exists c0. rewrite String.eqb_refl. split; [exact Hr | now left].
  - destruct (IH _ _ Hb' Hin) as (cc & Hcc & Hg). exists cc.
    split; [exact Hcc|].
    destruct (String.eqb (scutil.Domain r0) (scutil.Domain r)); [now right | exact Hg].
Qed.


(** X11: no handler that discovery builds has the empty domain as a
    key of its table, and none has a domain without a group. *)
Theorem newHandler_table_well_formed (env : Env) (h : Handler) :
  newHandler env = Ok h ->
  domainClientConfigs h !! "" = None /\
  forall d ccs, domainClientConfigs h !! d = Some ccs -> ccs <> [].
Proof.
  intros H. destruct (ReadMacOSDNS env) as [scConfig|e1] eqn:Hsc.
  - destruct (newHandler_groups env scConfig h Hsc H) as (ccs & _ & _ & Hdom).
    split; [now rewrite (Hdom "")|].
    intros d l Hl. rewrite (Hdom d) in Hl.
    destruct (String.eqb d ""); [discriminate|].
    destruct (groupsOf d (sortedResolvers env scConfig) ccs); [discriminate|].
    inversion Hl; subst. discriminate.
  - unfold newHandler in H. rewrite Hsc in H.
    assert (Hempty : domainClientConfigs h = ∅).
    { destruct (ClientConfigFromFile env "/etc/resolv.conf");
        [now inversion H|].
      destruct (newStaticClientConfig env fallbackIPs); now inversion H. }
    rewrite Hempty. split; [apply lookup_empty|].
    intros d l Hl. rewrite lookup_empty in Hl. discriminate.
Qed.

(** X12: after discovery through the platform list, every group of
    the handler was built for a reachable entry of the list, the groups
    of the default chain for entries without a domain and the groups
    under a domain for entries of that domain; and every reachable entry
    has its group there. An unreachable entry is never used, and an entry
    with a domain never feeds the default chain. *)
Theorem newHandler_groups_are_reachable_entries (env : Env)
    (scConfig : list scutil.Resolver) (h : Handler) :
  ReadMacOSDNS env = Ok scConfig ->
  newHandler env = Ok h ->
  (forall cc, In cc (defaultClientConfigs h) ->
     exists r, In r scConfig /\ scutil.Reachable r = true /\
               scutil.Domain r = "" /\ builds env r cc) /\
  (forall d ccs cc,
     domainClientConfigs h !! d = Some ccs -> In cc ccs ->
     exists r, In r scConfig /\ scutil.Reachable r = true /\
               scutil.Domain r = d /\ d <> "" /\ builds env r cc) /\
  (forall r, In r scConfig -> scutil.Reachable r = true ->
     exists cc, builds env r cc /\
       if String.eqb (scutil.Domain r) ""
       then In cc (defaultClientConfigs h)
       else exists ccs,
              domainClientConfigs h !! scutil.Domain r = Some ccs /\ In cc ccs).
Proof.
  intros Hsc H.
  destruct (newHandler_groups env scConfig h Hsc H) as (ccs & Hb & Hdef & Hdom).
  assert (Hsorted : forall r, In r (sortedResolvers env scConfig) <->
                              In r scConfig /\ scutil.Reachable r = true).
  { intros r. rewrite <- filter_In. split; apply Permutation_in;
      [|symmetry]; apply sortedResolvers_perm. }
  split; [|split].
  - intros cc Hcc. rewrite Hdef in Hcc.
    destruct (groupsOf_sound _ _ _ _ _ Hb Hcc) as (r & Hr & Hd & Hbr).
    apply Hsorted in Hr. exists r. tauto.
  - intros d l cc Hl Hcc. rewrite (Hdom d) in Hl.
    destruct (String.eqb d "") eqn:Hd; [discriminate|].
    apply String.eqb_neq in Hd.
    destruct (groupsOf d (sortedResolvers env scConfig) ccs) as [|g gs] eqn:Hg;
      [discriminate|].
    inversion Hl; subst l. rewrite <- Hg in Hcc.
    destruct (groupsOf_sound _ _ _ _ _ Hb Hcc) as (r & Hr & Hdr & Hbr).
    apply Hsorted in Hr. exists r. tauto.
  - intros r Hr Hreach.
    assert (Hin : In r (sortedResolvers env scConfig)) by now apply Hsorted.
    destruct (groupsOf_complete _ _ _ _ Hb Hin) as (cc & Hcc & Hg).
    exists cc. split; [exact Hcc|].
    destruct (String.eqb (scutil.Domain r) "") eqn:Hd.
    + apply String.eqb_eq in Hd. rewrite Hd in Hg. now rewrite Hdef.
    + rewrite (Hdom (scutil.Domain r)), Hd.
      destruct (groupsOf (scutil.Domain r) (sortedResolvers env scConfig) ccs)
        as [|g gs] eqn:Hgs; [destruct Hg|].
      exists (g :: gs). split; [reflexivity | exact Hg].
Qed.

(** X13: when the platform facility fails, a handler that discovery
    builds has an empty table and a default chain of one group: the
    configuration of the resolver file if that could be read, otherwise
    the one built for the two static addresses. *)
Theorem newHandler_fallback_single_group (env : Env) (e1 : string)
    (h : Handler) :
  ReadMacOSDNS env = Err e1 ->
  newHandler env = Ok h ->
  domainClientConfigs h = ∅ /\
  clients h = [udpClient; tcpClient] /\
  exists cc,
    defaultClientConfigs h = [cc] /\
    (ClientConfigFromFile env "/etc/resolv.conf" = Ok cc \/
     ((exists e2, ClientConfigFromFile env "/etc/resolv.conf" = Err e2) /\
      newStaticClientConfig env fallbackIPs = Ok cc)).
Proof.
  unfold newHandler. intros -> H.
  destruct (ClientConfigFromFile env "/etc/resolv.conf") as [cc|e2].
  - inversion H; subst. repeat split. exists cc. split; [reflexivity | now left].
  - destruct (newStaticClientConfig env fallbackIPs) as [cc|e3] eqn:Hs;
      [|discriminate].
    inversion H; subst. repeat split. exists cc. split; [reflexivity|].
    right. split; [now exists e2 | reflexivity].
Qed.

(** ** More on the listener handle *)

Lemma StartDNS_goroutine_addresses a env srv err gs :
  StartDNS a env = Returned (srv, err, gs) ->
  forall g, In g gs ->
    match g with
    | goUDP addr _ =>
        addr = "127.0.0.1:" +:+ pretty (udpDNSLocalPort a) /\
        (0 < udpDNSLocalPort a)%Z
    | goTCP addr _ =>
        addr = "127.0.0.1:" +:+ pretty (tcpDNSLocalPort a) /\
        (0 < tcpDNSLocalPort a)%Z
    end.
Proof.
  unfold StartDNS. destruct (newHandler env) as [h|e]; [|discriminate].
  intros H g Hg. inversion H; subst. apply in_app_or in Hg.
  destruct Hg as [Hg|Hg].
  - destruct (0 <? udpDNSLocalPort a)%Z eqn:Hp; [|destruct Hg].
    destruct Hg as [<-|[]]. apply Z.ltb_lt in Hp. now split.
  - destruct (0 <? tcpDNSLocalPort a)%Z eqn:Hp; [|destruct Hg].
    destruct Hg as [<-|[]]. apply Z.ltb_lt in Hp. now split.
Qed.

(** X14: in every state of a handle that [StartDNS] returned, a server
    the handle holds listens on the loopback address 127.0.0.1, on the
    port given for its transport, and that port is positive. *)
Theorem listeners_on_loopback (a : HostAgent) (env : Env)
    (srv : Server) (err : error) (gs : list Goroutine) (s : Server) :
  StartDNS a env = Returned (srv, err, gs) ->
  reachable gs s ->
  (forall d, udp s = Some d -> listensOn "udp" (udpDNSLocalPort a) d) /\
  (forall d, tcp s = Some d -> listensOn "tcp" (tcpDNSLocalPort a) d).
Proof.
  intros Hstart Hreach.
  pose proof (StartDNS_goroutine_addresses _ _ _ _ _ Hstart) as Hgs.
  induction Hreach as [|g s Hg _ IH|g s Hg _ IH|s s' _ IH Hsd].
  - split; intros d Hd; discriminate Hd.
  - specialize (Hgs g Hg). destruct IH as [IHu IHt].
    destruct g as [addr h|addr h]; destruct Hgs as [-> Hp]; simpl; split;
      try assumption; intros d Hd; inversion Hd; subst; now repeat split.
  - destruct IH as [IHu IHt].
    destruct g as [addr h|addr h]; simpl; split; try assumption; intros d Hd.
    + destruct (udp s) as [d0|]; [|discriminate Hd].
      inversion Hd; subst. destruct (IHu d0 eq_refl) as (? & ? & ?).
      now repeat split.
    + destruct (tcp s) as [d0|]; [|discriminate Hd].
      inversion Hd; subst. destruct (IHt d0 eq_refl) as (? & ? & ?).
      now repeat split.
  - rewrite Shutdown_stops in Hsd. inversion Hsd; subst. simpl.
    destruct IH as [IHu IHt]. split; intros d Hd.
    + destruct (udp s) as [d0|]; [|discriminate Hd].
      inversion Hd; subst. destruct (IHu d0 eq_refl) as (? & ? & ?).
      now repeat split.
    + destruct (tcp s) as [d0|]; [|discriminate Hd].
      inversion Hd; subst. destruct (IHt d0 eq_refl) as (? & ? & ?).
      now repeat split.
Qed.

(** ** The guest environment *)

Module cidataFacts.
Import cidata.

(** The order in which the range visits the instance file's variables
    does not matter. *)
Lemma applyEnv_union (entries : list (string * string)) :
  NoDup (entries.*1) ->
  forall env : gmap string string,
    applyEnv entries env = (list_to_map entries : gmap string string) ∪ env.
Proof.
  unfold applyEnv. induction entries as [|[k v] l IH]; intros Hnd env; simpl.
  - now rewrite (left_id_L ∅ (∪)).
  - simpl in Hnd. apply NoDup_cons in Hnd. destruct Hnd as [Hk Hnd].
    rewrite (IH Hnd). rewrite <- insert_union_l.
    symmetry. apply insert_union_r. now apply not_elem_of_list_to_map_1.
Qed.

Lemma applyEnv_any_order (yEnv env : gmap string string) entries :
  entries ≡ₚ map_to_list yEnv -> applyEnv entries env = yEnv ∪ env.
Proof.
  intros Hp. rewrite applyEnv_union.
  - f_equal. rewrite (list_to_map_proper (M := gmap string) entries (map_to_list yEnv)).
    + apply list_to_map_to_list.
    + rewrite Hp. apply NoDup_fst_map_to_list.
    + exact Hp.
  - rewrite Hp. apply NoDup_fst_map_to_list.
Qed.

Lemma applyEnv_lookup (yEnv env : gmap string string) k :
  applyEnv (map_to_list yEnv) env !! k = orElse (yEnv !! k) (env !! k).
Proof.
  rewrite (applyEnv_any_order yEnv env) by reflexivity.
  rewrite lookup_union. unfold orElse.
  destruct (yEnv !! k), (env !! k); reflexivity.
Qed.

Lemma override_lookup LookupEnv names :
  forall (env : gmap string string) k,
    fold_left (overrideFromProcess LookupEnv) names env !! k =
    if decide (k ∈ names) then orElse (LookupEnv k) (env !! k) else env !! k.
Proof.
  induction names as [|n names IH]; intros env k; simpl.
  - reflexivity.
  - rewrite IH. unfold overrideFromProcess.
    destruct (decide (k ∈ names)) as [Hin|Hnin].
    + rewrite decide_True by (now right).
      destruct (LookupEnv k) eqn:Hk; simpl; [reflexivity|].
      destruct (LookupEnv n) eqn:Hn; [|reflexivity].
      rewrite lookup_insert_ne; [reflexivity | congruence].
    + destruct (decide (k = n)) as [->|Hne].
      * rewrite decide_True by (now left).
        destruct (LookupEnv n); simpl; [apply lookup_insert_eq | reflexivity].
      * rewrite decide_False by (intros H; apply elem_of_cons in H; tauto).
        destruct (LookupEnv n); [|reflexivity].
        now rewrite lookup_insert_ne.
Qed.

Lemma alignCase_other env n k :
  k <> n -> k <> ToUpper n -> alignCase env n !! k = env !! k.
Proof.
  intros H1 H2. unfold alignCase.
  destruct (env !! n); [now rewrite lookup_insert_ne|].
  destruct (env !! ToUpper n); [now rewrite lookup_insert_ne | reflexivity].
Qed.

Lemma alignCase_pair env n :
  n <> ToUpper n ->
  alignCase env n !! n = orElse (env !! n) (env !! ToUpper n) /\
  alignCase env n !! ToUpper n = orElse (env !! n) (env !! ToUpper n).
Proof.
  intros Hne. unfold alignCase, orElse.
  destruct (env !! n) as [v|] eqn:Hn.
  - rewrite lookup_insert_ne by congruence. rewrite lookup_insert_eq. now split.
  - destruct (env !! ToUpper n) as [v|] eqn:Hu.
    + rewrite lookup_insert_eq. rewrite lookup_insert_ne by congruence. now split.
    + now split.
Qed.

Lemma alignCase_fold_other names :
  forall env k,
    k ∉ names -> k ∉ map ToUpper names ->
    fold_left alignCase names env !! k = env !! k.
Proof.
  induction names as [|n names IH]; intros env k H1 H2; [reflexivity|].
  simpl in *. apply not_elem_of_cons in H1, H2.
  rewrite IH by tauto. apply alignCase_other; tauto.
Qed.

Lemma alignCase_fold_pair names :
  NoDup (names ++ map ToUpper names) ->
  forall env n, n ∈ names ->
    fold_left alignCase names env !! n
    = orElse (env !! n) (env !! ToUpper n) /\
    fold_left alignCase names env !! ToUpper n
    = orElse (env !! n) (env !! ToUpper n).
Proof.
  induction names as [|m names IH]; intros Hnd env n Hn;
    [now apply elem_of_nil in Hn|].
  simpl in Hnd. apply NoDup_cons in Hnd. destruct Hnd as [Hm Hnd].
  rewrite not_elem_of_app in Hm. destruct Hm as [Hm1 Hm2].
  apply NoDup_app in Hnd. destruct Hnd as (Hnd1 & Hdisj & Hnd2).
  simpl in Hnd2. apply NoDup_cons in Hnd2. destruct Hnd2 as [Hu Hnd2].
  simpl in Hm2. apply not_elem_of_cons in Hm2. destruct Hm2 as [Hmu Hm2].
  assert (Hrest : NoDup (names ++ map ToUpper names)).
  { apply NoDup_app. split; [exact Hnd1|]. split; [|exact Hnd2].
    intros x Hx Hx'. apply (Hdisj x Hx). now right. }
  assert (HmU : ToUpper m ∉ names).
  { intros H. apply (Hdisj _ H). now left. }
  simpl. apply elem_of_cons in Hn. destruct Hn as [->|Hn].
  - rewrite !alignCase_fold_other by assumption.
    now apply alignCase_pair.
  - destruct (IH Hrest (alignCase env m) n Hn) as [H1 H2].
    rewrite H1, H2.
    assert (Hnm : n <> m) by (intros ->; contradiction).
    assert (HnU : n <> ToUpper m) by (intros ->; contradiction).
    assert (HUn : ToUpper n ∈ map ToUpper names).
    { apply list_elem_of_In, in_map, list_elem_of_In, Hn. }
    assert (HUm : ToUpper n <> m) by (intros Heq; rewrite Heq in HUn; contradiction).
    assert (HUU : ToUpper n <> ToUpper m)
      by (intros Heq; rewrite Heq in HUn; contradiction).
    rewrite !alignCase_other by assumption. now split.
Qed.

Lemma proxy_names_distinct : NoDup (lowerVars ++ map ToUpper lowerVars).
Proof. apply (bool_decide_unpack _). vm_compute. exact I. Qed.

Lemma setupEnv_merged (sys yEnv : gmap string string) LookupEnv :
  fst (setupEnv (sys, nil) yEnv LookupEnv)
  = fold_left alignCase lowerVars
      (fold_left (overrideFromProcess LookupEnv) (lowerVars ++ upperVars)
         (applyEnv (map_to_list yEnv) sys)).
Proof. reflexivity. Qed.

(** X15: for each of the four proxy variables, the lower-case and the
    upper-case name end up with the same value or are both unset. The
    value is the first there is of: the lower-case name in the process
    environment, in the instance file, in the system settings; then the
    upper-case name in the same three places. *)
Theorem setupEnv_proxy_variables (sys yEnv : gmap string string)
    (LookupEnv : string -> option string) (name : string) :
  In name lowerVars ->
  let env := fst (setupEnv (sys, nil) yEnv LookupEnv) in
  env !! name
  = orElse (sourced sys yEnv LookupEnv name)
           (sourced sys yEnv LookupEnv (ToUpper name)) /\
  env !! ToUpper name = env !! name.
Proof.
  intros Hname env. subst env. rewrite setupEnv_merged.
  apply list_elem_of_In in Hname.
  destruct (alignCase_fold_pair lowerVars proxy_names_distinct
              (fold_left (overrideFromProcess LookupEnv) (lowerVars ++ upperVars)
                 (applyEnv (map_to_list yEnv) sys)) name Hname) as [H1 H2].
  rewrite H1, H2. split; [|reflexivity].
  rewrite !override_lookup, !applyEnv_lookup.
  rewrite decide_True by (apply elem_of_app; now left).
  rewrite decide_True.
  - reflexivity.
  - apply elem_of_app. right. unfold upperVars.
    apply list_elem_of_In, in_map, list_elem_of_In, Hname.
Qed.

(** X16: every other variable has the value of the instance file if
    the file sets it, and the value of the system settings otherwise;
    the process environment is not looked at for it. And when the
    system settings cannot be read, they are returned with the error and
    nothing is merged. *)
Theorem setupEnv_other_variables (sys yEnv : gmap string string)
    (LookupEnv : string -> option string) :
  (forall name,
     ~ In name (lowerVars ++ upperVars) ->
     fst (setupEnv (sys, nil) yEnv LookupEnv) !! name
     = orElse (yEnv !! name) (sys !! name)) /\
  snd (setupEnv (sys, nil) yEnv LookupEnv) = nil /\
  (forall msg,
     setupEnv (sys, errors_New msg) yEnv LookupEnv = (sys, errors_New msg)).
Proof.
  split; [|split; reflexivity].
  intros name Hname. rewrite setupEnv_merged.
  assert (Hn : name ∉ lowerVars ++ upperVars)
    by (intros H; apply Hname; now apply list_elem_of_In).
  rewrite not_elem_of_app in Hn. destruct Hn as [Hl Hu].
  rewrite alignCase_fold_other by assumption.
  rewrite override_lookup, applyEnv_lookup.
  rewrite decide_False; [reflexivity|].
  intros H. apply elem_of_app in H. tauto.
Qed.

Lemma setupEnv_proxy_variables_witness :
  let sys : gmap string string := {[ "HTTP_PROXY" := "http://sys:3128" ]} in
  let yEnv : gmap string string := {[ "http_proxy" := "http://file:8080" ]} in
  let env := fst (setupEnv (sys, nil) yEnv (fun _ => None)) in
  env !! "http_proxy" = Some "http://file:8080" /\
  env !! "HTTP_PROXY" = Some "http://file:8080".
Proof.
  intros sys yEnv env. subst env.
  pose proof (setupEnv_proxy_variables sys yEnv (fun _ => None) "http_proxy"
                (or_intror (or_introl eq_refl))) as [H1 H2].
  cbv zeta in H1, H2. split.
  - rewrite H1. vm_compute. reflexivity.
  - change "HTTP_PROXY" with (ToUpper "http_proxy").
    rewrite H2, H1. vm_compute. reflexivity.
Defined.

(** *** [GuestAgentBinary] *)

Section GuestAgentFacts.
Context `{os : OS}.

Lemma opened_app e1 e2 : opened (e1 ++ e2) = opened e1 ++ opened e2.
Proof. unfold opened. apply omap_app. Qed.

Lemma opened_opens l : opened (map SysOpen l) = l.
Proof. induction l as [|c l IH]; [reflexivity|]. simpl. now rewrite IH. Qed.

Lemma opened_none e : Forall (fun ev => isOpen ev = false) e -> opened e = [].
Proof.
  induction 1 as [|ev e Hev _ IH]; [reflexivity|].
  destruct ev; try discriminate Hev; exact IH.
Qed.

Lemma sys_run {X} ev (call : World -> (X + oserror) * World) w r e w' :
  sys ev call w = (r, e, w') ->
  e = [ev] /\
  match r with
  | inl x => call w = (inl x, w')
  | inr f => exists err, f = FromOS err /\ call w = (inr err, w')
  end.
Proof.
  unfold sys. destruct (call w) as [[x|err] w1]; intros H; inversion H; subst;
    split; try reflexivity. now exists err.
Qed.

(** Resolving the executable opens nothing, and fails only with an
    error of the system. *)
Lemma resolveSelf_run w r e w' :
  resolveSelf w = (r, e, w') ->
  Forall (fun ev => isOpen ev = false) e /\
  match r with
  | inl _ => True
  | inr f => exists err, f = FromOS err
  end.
Proof.
  unfold resolveSelf, try.
  destruct (sys SysExecutable Executable w) as [[[self|f] e1] w1] eqn:H1;
    apply sys_run in H1; destruct H1 as [-> H1].
  2:{ intros H; inversion H; subst. split; [repeat constructor|].
      destruct H1 as (err & -> & _). now exists err. }
  destruct (sys (SysStat self) (fun w => Stat w self) w1) as [[[st|f] e2] w2] eqn:H2;
    apply sys_run in H2; destruct H2 as [-> H2].
  2:{ intros H; inversion H; subst. split; [repeat constructor|].
      destruct H2 as (err & -> & _). now exists err. }
  destruct (negb (Z.land st ModeSymlink =? 0)%Z).
  - destruct (sys (SysReadlink self) (fun w => Readlink w self) w2)
      as [[[l|f] e3] w3] eqn:H3;
      apply sys_run in H3; destruct H3 as [-> H3];
      intros H; inversion H; subst; (split; [repeat constructor|]); [exact I|].
    destruct H3 as (err & -> & _). now exists err.
  - unfold ok. intros H; inversion H; subst. split; [repeat constructor | exact I].
Qed.

(** The search opens the candidates in order and stops at the first
    that does not fail with "does not exist". *)
Lemma openFirst_run candidates :
  forall w r e w',
    openFirst candidates w = (r, e, w') ->
    exists tried rest,
      e = map SysOpen tried /\ candidates = tried ++ rest /\
      match r with
      | inl None => rest = []
      | inl (Some f) =>
          exists c wl, last tried = Some c /\ Open wl c = (inl f, w')
      | inr fl =>
          exists c wl err,
            last tried = Some c /\ Open wl c = (inr err, w') /\
            isNotExist err = false /\ fl = FromOS err
      end.
Proof.
  induction candidates as [|c cs IH]; intros w r e w' H; simpl in H.
  - inversion H; subst. now exists [], [].
  - destruct (Open w c) as [[f|err] w1] eqn:Hopen.
    + inversion H; subst. exists [c], cs. repeat split. now exists c, w.
    + destruct (isNotExist err) eqn:Hne.
      * destruct (openFirst cs w1) as [[r1 e1] w2] eqn:Hrest.
        inversion H; subst.
        destruct (IH _ _ _ _ Hrest) as (tried & rest & -> & -> & Hr).
        exists (c :: tried), rest. repeat split.
        destruct r as [[f|]|fl]; [| exact Hr |].
        -- destruct Hr as (c' & wl & Hlast & Hc'). exists c', wl.
           split; [|exact Hc']. destruct tried; [discriminate Hlast | exact Hlast].
        -- destruct Hr as (c' & wl & err' & Hlast & Hc').
           exists c', wl, err'. split; [|exact Hc'].
           destruct tried; [discriminate Hlast | exact Hlast].
      * inversion H; subst. exists [c], cs. repeat split.
        now exists c, w, err.
Qed.

Lemma GuestAgentBinary_resolved arch w self e0 w0 :
  String.eqb arch "" = false ->
  resolveSelf w = (inl self, e0, w0) ->
  GuestAgentBinary arch w =
  let '(r, e, w1) := openFirst (candidatesFor self arch) w0 in
  (match r with
   | inl (Some f) => inl f
   | inl None => inr (NotFound arch self (candidatesFor self arch))
   | inr fl => inr fl
   end, e0 ++ e, w1).
Proof.
  intros Harch Hself. unfold GuestAgentBinary. rewrite Harch.
  unfold try at 1. rewrite Hself. cbv zeta. unfold try.
  destruct (openFirst (candidatesFor self arch) w0) as [[[[f|]|fl] e] w1];
    simpl; now rewrite ?app_nil_r.
Qed.

Lemma GuestAgentBinary_unresolved arch w fl e0 w0 :
  String.eqb arch "" = false ->
  resolveSelf w = (inr fl, e0, w0) ->
  GuestAgentBinary arch w = (inr fl, e0, w0).
Proof.
  intros Harch Hself. unfold GuestAgentBinary. rewrite Harch.
  unfold try at 1. now rewrite Hself.
Qed.

(** X24: GuestAgentBinary opens nothing but its two candidates: the
    paths it opens are, in order, a first part of the candidate list
    built from the resolved executable (the directory of the
    executable first, share/lima beside it second), and all opening
    comes after the executable has been resolved; with an empty
    architecture the system is not asked at all. *)
Theorem GuestAgentBinary_opens_candidates_in_order arch w r evs w' :
  GuestAgentBinary arch w = (r, evs, w') ->
  (arch = "" -> r = inr ArchUnset /\ evs = []) /\
  exists pre,
    evs = pre ++ map SysOpen (opened evs) /\
    Forall (fun ev => isOpen ev = false) pre /\
    (opened evs = [] \/
     exists self w0 rest,
       resolveSelf w = (inl self, pre, w0) /\
       candidatesFor self arch = opened evs ++ rest).
Proof.
  intros Hrun. split.
  { intros ->. unfold GuestAgentBinary in Hrun. simpl in Hrun.
    inversion Hrun. now split. }
  destruct (String.eqb arch "") eqn:Harch.
  { unfold GuestAgentBinary in Hrun. rewrite Harch in Hrun.
    inversion Hrun; subst. exists []. split; [reflexivity|].
    split; [constructor | now left]. }
  destruct (resolveSelf w) as [[[self|fl] e0] w0] eqn:Hself;
    destruct (resolveSelf_run _ _ _ _ Hself) as [Hno _].
  - rewrite (GuestAgentBinary_resolved _ _ _ _ _ Harch Hself) in Hrun.
    destruct (openFirst (candidatesFor self arch) w0) as [[r1 e] w1] eqn:Hopen.
    destruct (openFirst_run _ _ _ _ _ Hopen) as (tried & rest & -> & Hcs & _).
    inversion Hrun; subst evs.
    rewrite opened_app, (opened_none _ Hno), opened_opens. simpl.
    exists e0. split; [reflexivity|]. split; [exact Hno|].
    right. now exists self, w0, rest.
  - rewrite (GuestAgentBinary_unresolved _ _ _ _ _ Harch Hself) in Hrun.
    inversion Hrun; subst evs. rewrite (opened_none _ Hno).
    exists e0. split; [now rewrite app_nil_r|]. split; [exact Hno | now left].
Qed.

(** X25: what a result of GuestAgentBinary means. A file returned is
    the one the last open of the run gave. "Not found" is returned only
    after both candidates were opened, and names them. An error of the
    system is passed on only if it came before any open or is not a
    "does not exist" error. "arch must be set" means the architecture
    was empty. *)
Theorem GuestAgentBinary_result arch w r evs w' :
  GuestAgentBinary arch w = (r, evs, w') ->
  match r with
  | inl f => exists c wl, last (opened evs) = Some c /\ Open wl c = (inl f, w')
  | inr ArchUnset => arch = ""
  | inr (FromOS err) => opened evs = [] \/ isNotExist err = false
  | inr (NotFound a self cs) =>
      a = arch /\ cs = candidatesFor self arch /\ opened evs = cs /\
      length cs = 2%nat
  end.
Proof.
  intros Hrun.
  destruct (String.eqb arch "") eqn:Harch.
  { unfold GuestAgentBinary in Hrun. rewrite Harch in Hrun.
    inversion Hrun; subst. now apply String.eqb_eq. }
  destruct (resolveSelf w) as [[[self|fl] e0] w0] eqn:Hself;
    destruct (resolveSelf_run _ _ _ _ Hself) as [Hno Hfl].
  - rewrite (GuestAgentBinary_resolved _ _ _ _ _ Harch Hself) in Hrun.
    destruct (openFirst (candidatesFor self arch) w0) as [[r1 e] w1] eqn:Hopen.
    destruct (openFirst_run _ _ _ _ _ Hopen) as (tried & rest & -> & Hcs & Hr).
    inversion Hrun; subst r evs w1.
    rewrite opened_app, (opened_none _ Hno), opened_opens. simpl.
    destruct r1 as [[f|]|fl].
    + exact Hr.
    + subst rest. rewrite app_nil_r in Hcs. subst tried. now repeat split.
    + destruct Hr as (c & wl & err & _ & _ & Hne & ->). now right.
  - rewrite (GuestAgentBinary_unresolved _ _ _ _ _ Harch Hself) in Hrun.
    inversion Hrun; subst r evs w0.
    destruct Hfl as (err & ->). left. now apply opened_none.
Qed.

End GuestAgentFacts.

Lemma GuestAgentBinary_opens_candidates_in_order_witness :
  ("x86_64" = "" -> @inl File failure 3%Z = inr ArchUnset /\
                    [SysExecutable; SysStat "/usr/local/bin/limactl";
                     SysOpen "/usr/local/bin/lima-guestagent.Linux-x86_64";
                     SysOpen "/usr/local/share/lima/lima-guestagent.Linux-x86_64"]
                    = []) /\
  exists pre,
    [SysExecutable; SysStat "/usr/local/bin/limactl";
     SysOpen "/usr/local/bin/lima-guestagent.Linux-x86_64";
     SysOpen "/usr/local/share/lima/lima-guestagent.Linux-x86_64"]
    = pre ++ map SysOpen
        (opened [SysExecutable; SysStat "/usr/local/bin/limactl";
                 SysOpen "/usr/local/bin/lima-guestagent.Linux-x86_64";
                 SysOpen "/usr/local/share/lima/lima-guestagent.Linux-x86_64"]) /\
    Forall (fun ev => isOpen ev = false) pre /\
    (opened [SysExecutable; SysStat "/usr/local/bin/limactl";
             SysOpen "/usr/local/bin/lima-guestagent.Linux-x86_64";
             SysOpen "/usr/local/share/lima/lima-guestagent.Linux-x86_64"] = [] \/
     exists self w0 rest,
       resolveSelf (os := installed) tt = (inl self, pre, w0) /\
       candidatesFor (os := installed) self "x86_64"
       = opened [SysExecutable; SysStat "/usr/local/bin/limactl";
                 SysOpen "/usr/local/bin/lima-guestagent.Linux-x86_64";
                 SysOpen "/usr/local/share/lima/lima-guestagent.Linux-x86_64"]
         ++ rest).
Proof.
  apply (GuestAgentBinary_opens_candidates_in_order (os := installed)
           "x86_64" tt (inl 3%Z) _ tt).
  vm_compute. reflexivity.
Defined.

Lemma GuestAgentBinary_result_witness :
  exists c wl,
    last (opened [SysExecutable; SysStat "/usr/local/bin/limactl";
                  SysOpen "/usr/local/bin/lima-guestagent.Linux-x86_64";
                  SysOpen "/usr/local/share/lima/lima-guestagent.Linux-x86_64"])
    = Some c /\
    Open (OS := installed) wl c = (inl 3%Z, tt).
Proof.
  apply (GuestAgentBinary_result (os := installed) "x86_64" tt (inl 3%Z) _ tt).
  vm_compute. reflexivity.
Defined.

End cidataFacts.

(** ** The handler that answers from the host's resolver *)

Module HostLookupFacts.
Import HostLookup.

Section Runs.
Context `{HT : Outside}.

Lemma hostWritten_app e1 e2 : written (e1 ++ e2) = written e1 ++ written e2.
Proof.
  induction e1 as [|ev e1 IH]; [reflexivity|].
  destruct ev; simpl; now rewrite ?IH.
Qed.

Lemma untilReturn_cons {X} (body : X -> Run bool) x rest w :
  untilReturn body (x :: rest) w =
  let '(done, e1, w1) := body x w in
  if done then (true, e1, w1)
  else let '(b, e2, w2) := untilReturn body rest w1 in (b, e1 ++ e2, w2).
Proof.
  simpl. unfold andThen. destruct (body x w) as [[done e1] w1].
  destruct done; simpl; [now rewrite app_nil_r | reflexivity].
Qed.

Lemma untilReturn_inv {X} (P : bool -> list Event -> Prop)
    (body : X -> Run bool) (xs : list X) :
  P false [] ->
  (forall e1 b e2, P false e1 -> P b e2 -> P b (e1 ++ e2)) ->
  (forall x w b e w', body x w = (b, e, w') -> P b e) ->
  forall w b e w', untilReturn body xs w = (b, e, w') -> P b e.
Proof.
  intros Hnil Hstep Hbody.
  induction xs as [|x rest IH]; intros w b e w' Hrun.
  - simpl in Hrun. inversion Hrun; subst. exact Hnil.
  - rewrite untilReturn_cons in Hrun.
    destruct (body x w) as [[done e1] w1] eqn:Hx.
    apply Hbody in Hx. destruct done.
    + inversion Hrun; subst. exact Hx.
    + destruct (untilReturn body rest w1) as [[b2 e2] w2] eqn:Hrest.
      inversion Hrun; subst. apply Hstep; [exact Hx|]. eapply IH. exact Hrest.
Qed.

Lemma hostForwarded_app e1 b e2 :
  forwarded false e1 -> forwarded b e2 -> forwarded b (e1 ++ e2).
Proof.
  intros H1 H2. destruct b; simpl in *.
  - destruct H2 as (pre & c & a & m & -> & Hpre).
    exists (e1 ++ pre), c, a, m. split; [now rewrite <- List.app_assoc|].
    apply Forall_app. now split.
  - apply Forall_app. now split.
Qed.

(** The loops of [handleDefault]. *)
Lemma forwardLoop_forwarded h req w b e w' :
  untilReturn (fun client =>
    untilReturn (fun srv =>
      let addr := srv +:+ ":" +:+ dns.Port (clientConfig h) in
      let! r := exchange client req addr in
      match r with
      | Ok reply => let! _ := WriteMsg reply in pure true
      | Err _ => pure false
      end)
    (dns.Servers (clientConfig h)))
  (clients h) w = (b, e, w') ->
  forwarded b e.
Proof.
  apply untilReturn_inv; [constructor | exact hostForwarded_app|].
  intros client w0 b0 e0 w0'.
  apply untilReturn_inv; [constructor | exact hostForwarded_app|].
  intros srv w1 b1 e1 w1'. cbv zeta. unfold andThen, exchange.
  destruct (Exchange w1 client req (srv +:+ ":" +:+ dns.Port (clientConfig h)))
    as [[reply|err] w2]; simpl; intros H; inversion H; subst.
  - exists [], client, (srv +:+ ":" +:+ dns.Port (clientConfig h)), reply.
    split; [reflexivity | constructor].
  - constructor; [|constructor]. now eexists _, _, _.
Qed.

Lemma failedExchange_facts e :
  Forall failedExchange e ->
  written e = [] /\ Forall (fun ev => answered ev = false) e /\
  Forall (fun ev => isLookup ev = false) e.
Proof.
  induction 1 as [|ev e (c & a & err & ->) _ (Hw & Ha & Hl)].
  - repeat split; constructor.
  - simpl. repeat split; try assumption; constructor; auto.
Qed.

Lemma hostDefault_run h req w :
  exists (done : bool) e w1,
    forwarded done e /\
    handleDefault h req w =
    if done then (tt, e, w1)
    else (tt, e ++ [EvWrite (SetReply zeroMsg req)], w1).
Proof.
  unfold handleDefault, andThen at 1.
  destruct (untilReturn _ (clients h) w) as [[done e] w1] eqn:Hloop.
  apply forwardLoop_forwarded in Hloop.
  exists done, e, w1. split; [exact Hloop|].
  destruct done; simpl; [now rewrite app_nil_r | reflexivity].
Qed.

(** [handleDefault] writes once: the reply of the first exchange that
    answered, or the empty reply when none did. It asks the resolver of
    the host nothing. *)
Lemma handleDefault_shape h req w :
  (exists pre c a m,
     traceOf (handleDefault h req w) = pre ++ [EvExchange c a (Ok m); EvWrite m] /\
     Forall failedExchange pre)
  \/
  (exists pre,
     traceOf (handleDefault h req w) = pre ++ [EvWrite (SetReply zeroMsg req)] /\
     Forall failedExchange pre).
Proof.
  destruct (hostDefault_run h req w) as (done & e & w1 & Hf & ->).
  destruct done; simpl in Hf.
  - left. destruct Hf as (pre & c & a & m & -> & Hpre). now exists pre, c, a, m.
  - right. now exists e.
Qed.

(** *** One question *)

Lemma adds_nothing st : adds [] st st.
Proof. destruct st as [ans hd]. split; simpl; [now rewrite app_nil_r | now rewrite orb_false_r]. Qed.

Lemma adds_one rr st : adds [rr] st (fst st ++ [rr], true).
Proof. split; simpl; [reflexivity | now rewrite orb_true_r]. Qed.

Lemma hostAddresses_adds mk pick addrs :
  forall st, adds (map mk (omap pick addrs)) st (addAddresses mk pick addrs st).
Proof.
  unfold addAddresses.
  induction addrs as [|ip addrs IH]; intros st; [apply adds_nothing|].
  simpl. destruct (pick ip) as [ip'|]; simpl; [|apply IH].
  destruct (IH (fst st ++ [mk ip'], true)) as [H1 H2]. split.
  - rewrite H1. simpl. now rewrite <- List.app_assoc.
  - rewrite H2. simpl. now rewrite orb_true_r.
Qed.

Lemma addNameServers_adds q ns :
  forall st,
    adds (map (NS (recordHeader q TypeNS)) (hostsOf ns)) st
         (addNameServers q ns st).
Proof.
  unfold addNameServers, hostsOf.
  induction ns as [|s ns IH]; intros st; [apply adds_nothing|].
  simpl. destruct (String.eqb (Host s) ""); simpl; [apply IH|].
  destruct (IH (fst st ++ [NS (recordHeader q TypeNS) (Host s)], true)) as [H1 H2].
  split.
  - rewrite H1. simpl. now rewrite <- List.app_assoc.
  - rewrite H2. simpl. now rewrite orb_true_r.
Qed.

(** Whatever the resolver gives, one question costs the one lookup its
    type calls for, and every record it adds carries the name and the
    type of the question, the class INET and a time to live of 5. *)
Lemma answerQuestion_adds q st w st' e w' :
  answerQuestion q st w = (st', e, w') ->
  e = lookupFor q /\
  exists new,
    adds new st st' /\
    Forall (fun rr => header rr = recordHeader q (dns.Qtype q)) new.
Proof.
  unfold answerQuestion, lookupFor.
  destruct (dns.Qtype q =? TypeA)%Z eqn:HA.
  { apply Z.eqb_eq in HA. rewrite HA.
    unfold andThen, lookupIP, call.
    destruct (LookupIP w (dns.Name q)) as [[addrs|err] w1]; simpl;
      intros H; inversion H; subst; (split; [reflexivity|]).
    - exists (map (A (recordHeader q TypeA)) (omap To4 addrs)).
      split; [apply hostAddresses_adds|].
      apply Forall_forall. intros rr Hrr. apply list_elem_of_In, in_map_iff in Hrr.
      destruct Hrr as (ip & <- & _). reflexivity.
    - exists []. split; [apply adds_nothing | constructor]. }
  destruct (dns.Qtype q =? TypeAAAA)%Z eqn:H4.
  { apply Z.eqb_eq in H4. rewrite H4.
    unfold andThen, lookupIP, call.
    destruct (LookupIP w (dns.Name q)) as [[addrs|err] w1]; simpl;
      intros H; inversion H; subst; (split; [reflexivity|]).
    - exists (map (AAAA (recordHeader q TypeAAAA)) (omap To16 addrs)).
      split; [apply hostAddresses_adds|].
      apply Forall_forall. intros rr Hrr. apply list_elem_of_In, in_map_iff in Hrr.
      destruct Hrr as (ip & <- & _). reflexivity.
    - exists []. split; [apply adds_nothing | constructor]. }
  destruct (dns.Qtype q =? TypeCNAME)%Z eqn:HC.
  { apply Z.eqb_eq in HC. rewrite HC.
    unfold andThen, lookupCNAME, call.
    destruct (LookupCNAME w (dns.Name q)) as [[cname|err] w1]; simpl.
    - destruct (String.eqb cname ""); simpl; intros H; inversion H; subst;
        (split; [reflexivity|]).
      + exists []. split; [apply adds_nothing | constructor].
      + exists [CNAME (recordHeader q TypeCNAME) cname].
        split; [apply adds_one | repeat constructor].
    - intros H; inversion H; subst. split; [reflexivity|].
      exists []. split; [apply adds_nothing | constructor]. }
  destruct (dns.Qtype q =? TypeTXT)%Z eqn:HT'.
  { apply Z.eqb_eq in HT'. rewrite HT'.
    unfold andThen, lookupTXT, call.
    destruct (LookupTXT w (dns.Name q)) as [[txt|err] w1]; simpl.
    - destruct txt as [|t txt]; simpl; intros H; inversion H; subst;
        (split; [reflexivity|]).
      + exists []. split; [apply adds_nothing | constructor].
      + exists [TXT (recordHeader q TypeTXT) (t :: txt)].
        split; [apply adds_one | repeat constructor].
    - intros H; inversion H; subst. split; [reflexivity|].
      exists []. split; [apply adds_nothing | constructor]. }
  destruct (dns.Qtype q =? TypeNS)%Z eqn:HN.
  { apply Z.eqb_eq in HN. rewrite HN.
    unfold andThen, lookupNS, call.
    destruct (LookupNS w (dns.Name q)) as [[ns|err] w1]; simpl;
      intros H; inversion H; subst; (split; [reflexivity|]).
    - exists (map (NS (recordHeader q TypeNS)) (hostsOf ns)).
      split; [apply addNameServers_adds|].
      apply Forall_forall. intros rr Hrr. apply list_elem_of_In, in_map_iff in Hrr.
      destruct Hrr as (host & <- & _). reflexivity.
    - exists []. split; [apply adds_nothing | constructor]. }
  unfold pure. intros H; inversion H; subst. split; [reflexivity|].
  exists []. split; [apply adds_nothing | constructor].
Qed.

(** *** [handleQuery] and [ServeDNS] *)

Lemma SetReply_first req :
  Question (SetReply zeroMsg req) = firstQuestion req /\
  Answer (SetReply zeroMsg req) = [].
Proof. unfold SetReply, firstQuestion. simpl. now destruct (Question req). Qed.

(** [handleQuery] asks the resolver of the host about the first
    question; with records in hand it writes them, without records it
    goes on as [handleDefault]. *)
Lemma hostQuery_run h req w :
  exists new w1,
    (forall rr, In rr new ->
       exists q, firstQuestion req = [q] /\
                 header rr = recordHeader q (dns.Qtype q)) /\
    (forall q, firstQuestion req = [q] ->
       exists st e, answerQuestion q ([], false) w = (st, e, w1) /\ fst st = new) /\
    (firstQuestion req = [] -> w1 = w) /\
    handleQuery h req w =
    match new with
    | [] => let '(u, e, w2) := handleDefault h req w1 in
            (u, flat_map lookupFor (firstQuestion req) ++ e, w2)
    | _ => (tt, flat_map lookupFor (firstQuestion req)
                ++ [EvWrite (withAnswer (SetReply zeroMsg req) new)], w1)
    end.
Proof.
  unfold handleQuery. cbv zeta. destruct (SetReply_first req) as [-> ->].
  unfold firstQuestion. destruct (Question req) as [|q qs].
  - exists [], w. split; [intros rr []|]. split; [discriminate|].
    split; [reflexivity|].
    simpl. unfold andThen, pure. simpl.
    destruct (handleDefault h req w) as [[u e] w2]. reflexivity.
  - simpl forEach. unfold andThen at 1. unfold andThen at 1.
    destruct (answerQuestion q ([], false) w) as [[[ans hd] e0] w1] eqn:Hq.
    pose proof (answerQuestion_adds _ _ _ _ _ _ Hq) as (-> & new & [Hfst Hsnd] & Hhdr).
    simpl in Hfst, Hsnd. subst ans. exists new, w1.
    split.
    { intros rr Hrr. exists q. split; [reflexivity|].
      rewrite List.Forall_forall in Hhdr. now apply Hhdr. }
    split.
    { intros q' Hq'. inversion Hq'; subst q'.
      eexists _, _. split; [exact Hq | reflexivity]. }
    split; [discriminate|].
    simpl. rewrite app_nil_r. unfold pure. simpl.
    destruct new as [|rr new]; subst hd; simpl.
    + destruct (handleDefault h req w1) as [[u e] w2]. reflexivity.
    + unfold WriteMsg. reflexivity.
Qed.

Lemma lookupFor_isLookup q : Forall (fun ev => isLookup ev = true) (lookupFor q).
Proof.
  unfold lookupFor.
  repeat match goal with
         | |- context [if ?b then _ else _] => destruct b
         end; repeat constructor.
Qed.

Lemma firstLookups_isLookup req :
  Forall (fun ev => isLookup ev = true) (flat_map lookupFor (firstQuestion req)).
Proof.
  unfold firstQuestion. destruct (Question req) as [|q qs]; [constructor|].
  simpl. rewrite app_nil_r. apply lookupFor_isLookup.
Qed.

Lemma lookups_facts lk :
  Forall (fun ev => isLookup ev = true) lk ->
  written lk = [] /\ Forall (fun ev => answered ev = false) lk.
Proof.
  induction 1 as [|ev lk Hev _ [Hw Ha]]; [split; constructor|].
  destruct ev; try discriminate Hev; simpl; split; try assumption;
    constructor; auto.
Qed.

Lemma hostLookup_run h req w :
  ends req (traceOf (ServeDNS h req w)) /\
  exists rest,
    traceOf (ServeDNS h req w)
    = (if (dns.Opcode (MsgHdr req) =? dns.OpcodeQuery)%Z
       then flat_map lookupFor (firstQuestion req) else []) ++ rest /\
    Forall (fun ev => isLookup ev = false) rest.
Proof.
  assert (Hdef : forall w1 lk,
            Forall (fun ev => isLookup ev = true) lk ->
            ends req (lk ++ traceOf (handleDefault h req w1)) /\
            Forall (fun ev => isLookup ev = false)
                   (traceOf (handleDefault h req w1))).
  { intros w1 lk Hlk.
    destruct (handleDefault_shape h req w1)
      as [(pre & c & a & m & -> & Hpre)|(pre & -> & Hpre)];
      pose proof (failedExchange_facts _ Hpre) as (_ & _ & Hl); split.
    - now apply ends_upstream.
    - apply Forall_app. split; [exact Hl | repeat constructor].
    - now apply ends_empty.
    - apply Forall_app. split; [exact Hl | repeat constructor]. }
  unfold ServeDNS.
  destruct (dns.Opcode (MsgHdr req) =? dns.OpcodeQuery)%Z.
  - destruct (hostQuery_run h req w) as (new & w1 & Hhdr & _ & _ & ->).
    pose proof (firstLookups_isLookup req) as Hlk.
    destruct new as [|rr new].
    + destruct (Hdef w1 _ Hlk) as [He Hno].
      unfold traceOf in *.
      destruct (handleDefault h req w1) as [[u e] w2]. simpl in *.
      split; [exact He|]. now exists e.
    + unfold traceOf. simpl. split.
      * apply ends_local; [exact Hlk | discriminate | exact Hhdr].
      * eexists. split; [reflexivity | repeat constructor].
  - destruct (Hdef w [] (Forall_nil_2 _)) as [He Hno]. simpl in He.
    split; [exact He|]. now exists (traceOf (handleDefault h req w)).
Qed.

Lemma handleQuery_first h req q qs w st e w1 :
  Question req = q :: qs ->
  answerQuestion q ([], false) w = (st, e, w1) ->
  handleQuery h req w =
  if snd st
  then (tt, e ++ [EvWrite (withAnswer (SetReply zeroMsg req) (fst st))], w1)
  else let '(u, e2, w2) := handleDefault h req w1 in (u, e ++ e2, w2).
Proof.
  intros Hq Hans. unfold handleQuery. cbv zeta.
  destruct (SetReply_first req) as [-> ->].
  unfold firstQuestion. rewrite Hq. simpl forEach.
  unfold andThen at 1. unfold andThen at 1. rewrite Hans.
  unfold pure at 1. cbv beta iota. rewrite app_nil_r.
  destruct st as [ans [|]]; simpl.
  - reflexivity.
  - destruct (handleDefault h req w1) as [[u e2] w2]. reflexivity.
Qed.

Lemma To16_valid addrs :
  Forall validIP addrs -> omap To16 addrs = map mapped addrs.
Proof.
  induction 1 as [|ip addrs Hip _ IH]; [reflexivity|].
  assert (H16 : To16 ip = Some (mapped ip)).
  { unfold To16, mapped. destruct Hip as [Hip|Hip]; rewrite Hip; reflexivity. }
  change (omap To16 (ip :: addrs))
    with (match To16 ip with
          | Some y => y :: omap To16 addrs
          | None => omap To16 addrs
          end).
  rewrite H16, IH. reflexivity.
Qed.

Lemma ends_written req e :
  ends req e -> exists pre m, e = pre ++ [EvWrite m] /\ written pre = [].
Proof.
  intros [lk new Hlk _ _|lk pre c a m Hlk Hpre|lk pre Hlk Hpre];
    destruct (lookups_facts _ Hlk) as [Hw _].
  - now exists lk, (withAnswer (SetReply zeroMsg req) new).
  - destruct (failedExchange_facts _ Hpre) as [Hw' _].
    exists (lk ++ pre ++ [EvExchange c a (Ok m)]), m. split.
    + now rewrite <- !List.app_assoc.
    + rewrite !hostWritten_app, Hw, Hw'. reflexivity.
  - destruct (failedExchange_facts _ Hpre) as [Hw' _].
    exists (lk ++ pre), (SetReply zeroMsg req). split.
    + now rewrite <- !List.app_assoc.
    + rewrite !hostWritten_app, Hw, Hw'. reflexivity.
Qed.

Lemma not_answered_In e c a m :
  Forall (fun ev => answered ev = false) e ->
  ~ In (EvExchange c a (Ok m)) e.
Proof.
  intros H Hin. rewrite List.Forall_forall in H.
  specialize (H _ Hin). discriminate H.
Qed.

(** X17: a call of the host-lookup ServeDNS writes exactly one reply,
    and the write is the last thing it does. *)
Theorem hostLookup_writes_once_at_the_end h req w :
  exists pre m,
    traceOf (ServeDNS h req w) = pre ++ [EvWrite m] /\
    written pre = [] /\
    written (traceOf (ServeDNS h req w)) = [m].
Proof.
  destruct (hostLookup_run h req w) as [He _].
  destruct (ends_written _ _ He) as (pre & m & Heq & Hw).
  exists pre, m. split; [exact Heq|]. split; [exact Hw|].
  rewrite Heq, hostWritten_app, Hw. reflexivity.
Qed.

(** X18: the resolver of the host is asked only at the start of a
    call, and only about the first question of a QUERY, by the one
    lookup that the type of that question calls for; the questions
    after the first, and requests with another opcode, are never looked
    up. *)
Theorem hostLookup_looks_up_first_question_only h req w :
  exists rest,
    traceOf (ServeDNS h req w)
    = (if (dns.Opcode (MsgHdr req) =? dns.OpcodeQuery)%Z
       then flat_map lookupFor (firstQuestion req) else []) ++ rest /\
    Forall (fun ev => isLookup ev = false) rest /\
    (length (List.filter isLookup (traceOf (ServeDNS h req w))) <= 1)%nat.
Proof.
  destruct (hostLookup_run h req w) as [_ (rest & Heq & Hrest)].
  exists rest. split; [exact Heq|]. split; [exact Hrest|].
  rewrite Heq, List.filter_app.
  assert (Hnone : List.filter isLookup rest = []).
  { clear Heq. induction Hrest as [|ev rest Hev _ IH]; [reflexivity|].
    simpl. now rewrite Hev. }
  rewrite Hnone, app_nil_r.
  destruct (dns.Opcode (MsgHdr req) =? dns.OpcodeQuery)%Z; [|simpl; lia].
  unfold firstQuestion. destruct (Question req) as [|q qs]; [simpl; lia|].
  simpl. rewrite app_nil_r. unfold lookupFor.
  repeat match goal with
         | |- context [if ?b then _ else _] => destruct b
         end; simpl; lia.
Qed.

(** X19: when an upstream server answers, the call ends there: that
    answer is written as it came, it is the only one of the call, and
    every exchange before it failed. *)
Theorem hostLookup_forwards_upstream_answer h req w c a m :
  In (EvExchange c a (Ok m)) (traceOf (ServeDNS h req w)) ->
  exists pre,
    traceOf (ServeDNS h req w) = pre ++ [EvExchange c a (Ok m); EvWrite m] /\
    Forall (fun ev => answered ev = false) pre /\
    written pre = [].
Proof.
  intros Hin. destruct (hostLookup_run h req w) as [He _].
  destruct He as [lk new Hlk _ _|lk pre c' a' m' Hlk Hpre|lk pre Hlk Hpre];
    destruct (lookups_facts _ Hlk) as [Hwl Hal].
  - exfalso. apply in_app_or in Hin. destruct Hin as [Hin|[Hin|[]]].
    + now apply (not_answered_In lk c a m Hal).
    + discriminate Hin.
  - destruct (failedExchange_facts _ Hpre) as (Hwp & Hap & _).
    assert (Hsame : EvExchange c a (Ok m) = EvExchange c' a' (Ok m')).
    { apply in_app_or in Hin. destruct Hin as [Hin|Hin].
      - exfalso. now apply (not_answered_In lk c a m Hal).
      - apply in_app_or in Hin. destruct Hin as [Hin|[Hin|[Hin|[]]]].
        + exfalso. now apply (not_answered_In pre c a m Hap).
        + now symmetry.
        + discriminate Hin. }
    inversion Hsame; subst c' a' m'.
    exists (lk ++ pre). split; [now rewrite <- List.app_assoc|].
    split; [apply Forall_app; now split|].
    rewrite hostWritten_app, Hwl, Hwp. reflexivity.
  - exfalso. destruct (failedExchange_facts _ Hpre) as (_ & Hap & _).
    apply in_app_or in Hin. destruct Hin as [Hin|Hin].
    + now apply (not_answered_In lk c a m Hal).
    + apply in_app_or in Hin. destruct Hin as [Hin|[Hin|[]]].
      * now apply (not_answered_In pre c a m Hap).
      * discriminate Hin.
Qed.

(** X20: when no upstream server answered, the reply written is built
    by the handler itself: it carries the id of the request, the
    response flag and the response code success (also when every
    upstream exchange failed), only the first question of the request,
    and answer records that all have the name and the type of that
    question, class INET and a TTL of 5 seconds; when it holds any
    record, no upstream server was contacted at all. *)
Theorem hostLookup_own_reply h req w :
  Forall (fun ev => answered ev = false) (traceOf (ServeDNS h req w)) ->
  exists m,
    written (traceOf (ServeDNS h req w)) = [m] /\
    m = withAnswer (SetReply zeroMsg req) (Answer m) /\
    dns.Id (MsgHdr m) = dns.Id (MsgHdr req) /\
    dns.Response (MsgHdr m) = true /\
    dns.Rcode (MsgHdr m) = dns.RcodeSuccess /\
    Question m = firstQuestion req /\
    (forall rr, In rr (Answer m) ->
       exists q, firstQuestion req = [q] /\
                 header rr = {| Name := dns.Name q; Rrtype := dns.Qtype q;
                                Class := ClassINET; Ttl := 5 |}) /\
    (Answer m <> [] ->
     Forall (fun ev => isExchange ev = false) (traceOf (ServeDNS h req w))).
Proof.
  intros Hno. destruct (hostLookup_run h req w) as [He _].
  destruct He as [lk new Hlk Hnew Hhdr|lk pre c a m Hlk Hpre|lk pre Hlk Hpre];
    destruct (lookups_facts _ Hlk) as [Hwl Hal].
  - exists (withAnswer (SetReply zeroMsg req) new).
    rewrite hostWritten_app, Hwl. simpl.
    do 6 (split; [reflexivity|]).
    split; [exact Hhdr|].
    intros _. apply Forall_app. split; [|repeat constructor].
    clear -Hlk. induction Hlk as [|ev lk Hev _ IH]; constructor; auto.
    now destruct ev.
  - exfalso. apply (not_answered_In _ c a m Hno).
    apply in_or_app. right. apply in_or_app. right. now left.
  - exists (SetReply zeroMsg req).
    destruct (failedExchange_facts _ Hpre) as (Hwp & _ & _).
    rewrite !hostWritten_app, Hwl, Hwp. simpl.
    do 6 (split; [reflexivity|]).
    split.
    + intros rr [].
    + intros Hne. now contradiction Hne.
Qed.

(** X21: an AAAA question that the resolver of the host has
    addresses for is answered with one AAAA record per address, in the
    order of the resolver; an IPv4 address is not left out but given in
    its IPv4-mapped 16-byte form. No upstream server is asked. *)
Theorem hostLookup_AAAA_includes_IPv4 h req q qs addrs w w' :
  dns.Opcode (MsgHdr req) = dns.OpcodeQuery ->
  Question req = q :: qs ->
  dns.Qtype q = TypeAAAA ->
  LookupIP w (dns.Name q) = (Ok addrs, w') ->
  Forall validIP addrs ->
  addrs <> [] ->
  ServeDNS h req w =
  (tt,
   [EvLookupIP (dns.Name q);
    EvWrite (withAnswer (SetReply zeroMsg req)
               (map (fun ip => AAAA (recordHeader q TypeAAAA) (mapped ip)) addrs))],
   w').
Proof.
  intros Hop Hq Hty Hlk Hvalid Hne.
  unfold ServeDNS. rewrite Hop, Z.eqb_refl.
  assert (Hans : answerQuestion q ([], false) w
                 = (addAddresses (AAAA (recordHeader q TypeAAAA)) To16 addrs ([], false),
                    [EvLookupIP (dns.Name q)], w')).
  { unfold answerQuestion. rewrite Hty. simpl.
    unfold andThen, lookupIP, call. rewrite Hlk. reflexivity. }
  rewrite (handleQuery_first h req q qs w _ _ _ Hq Hans).
  destruct (hostAddresses_adds (AAAA (recordHeader q TypeAAAA)) To16 addrs ([], false))
    as [Hfst Hsnd].
  rewrite Hfst, Hsnd, (To16_valid _ Hvalid), List.map_map. simpl.
  destruct addrs as [|ip addrs]; [now contradiction Hne|]. reflexivity.
Qed.

(** X22: an A question that the resolver of the host has addresses
    for is answered with one A record per address that has a 4-byte
    form, in the order of the resolver; when none has (the host knows
    IPv6 addresses only, or nothing), the request goes upstream as
    handleDefault sends it. *)
Theorem hostLookup_A_keeps_IPv4_only h req q qs addrs w w' :
  dns.Opcode (MsgHdr req) = dns.OpcodeQuery ->
  Question req = q :: qs ->
  dns.Qtype q = TypeA ->
  LookupIP w (dns.Name q) = (Ok addrs, w') ->
  ServeDNS h req w =
  match omap To4 addrs with
  | [] => let '(u, e, w2) := handleDefault h req w' in
          (u, EvLookupIP (dns.Name q) :: e, w2)
  | v4 => (tt,
           [EvLookupIP (dns.Name q);
            EvWrite (withAnswer (SetReply zeroMsg req)
                       (map (A (recordHeader q TypeA)) v4))],
           w')
  end.
Proof.
  intros Hop Hq Hty Hlk.
  unfold ServeDNS. rewrite Hop, Z.eqb_refl.
  assert (Hans : answerQuestion q ([], false) w
                 = (addAddresses (A (recordHeader q TypeA)) To4 addrs ([], false),
                    [EvLookupIP (dns.Name q)], w')).
  { unfold answerQuestion. rewrite Hty. simpl.
    unfold andThen, lookupIP, call. rewrite Hlk. reflexivity. }
  rewrite (handleQuery_first h req q qs w _ _ _ Hq Hans).
  destruct (hostAddresses_adds (A (recordHeader q TypeA)) To4 addrs ([], false))
    as [Hfst Hsnd].
  rewrite Hfst, Hsnd. simpl.
  destruct (omap To4 addrs) as [|ip v4]; reflexivity.
Qed.

(** X23: a request whose first question has a type other than A,
    AAAA, CNAME, TXT and NS (or that has no question) is handled
    exactly as handleDefault handles it, whatever its opcode: the
    resolver of the host is not asked. *)
Theorem hostLookup_other_types_go_upstream h req w :
  (forall q, In q (firstQuestion req) ->
     ~ In (dns.Qtype q) [TypeA; TypeAAAA; TypeCNAME; TypeTXT; TypeNS]) ->
  ServeDNS h req w = handleDefault h req w.
Proof.
  intros Hty. unfold ServeDNS.
  destruct (dns.Opcode (MsgHdr req) =? dns.OpcodeQuery)%Z; [|reflexivity].
  unfold firstQuestion in Hty.
  destruct (Question req) as [|q qs] eqn:Hq.
  - unfold handleQuery. cbv zeta. destruct (SetReply_first req) as [-> ->].
    unfold firstQuestion. rewrite Hq. simpl. unfold andThen, pure. simpl.
    now destruct (handleDefault h req w) as [[u e] w2].
  - specialize (Hty q (or_introl eq_refl)).
    assert (Hans : answerQuestion q ([], false) w = (([], false), [], w)).
    { unfold answerQuestion.
      repeat match goal with
             | |- context [(dns.Qtype q =? ?t)%Z] =>
                 destruct (Z.eqb_spec (dns.Qtype q) t) as [Heq|_];
                 [exfalso; apply Hty; rewrite Heq; simpl; tauto|]
             end.
      reflexivity. }
    rewrite (handleQuery_first h req q qs w _ _ _ Hq Hans). simpl.
    now destruct (handleDefault h req w) as [[u e] w2].
Qed.

End Runs.

Lemma hostLookup_forwards_upstream_answer_witness :
  exists pre,
    traceOf (ServeDNS (HT := onlineHost upstreamReply) publicHandler
               (ask 7 TypeA hostName) tt)
    = pre ++ [EvExchange udpClient "8.8.8.8:53" (Ok upstreamReply);
              EvWrite upstreamReply] /\
    Forall (fun ev => answered ev = false) pre /\
    written pre = [].
Proof.
  apply (hostLookup_forwards_upstream_answer (HT := onlineHost upstreamReply)
           publicHandler (ask 7 TypeA hostName) tt udpClient "8.8.8.8:53"
           upstreamReply).
  vm_compute. right. left. reflexivity.
Defined.

Lemma hostLookup_own_reply_witness :
  exists m,
    written (traceOf (ServeDNS (HT := offlineHost []) publicHandler
                        (ask 7 TypeA hostName) tt)) = [m] /\
    m = withAnswer (SetReply zeroMsg (ask 7 TypeA hostName)) (Answer m) /\
    dns.Id (MsgHdr m) = dns.Id (MsgHdr (ask 7 TypeA hostName)) /\
    dns.Response (MsgHdr m) = true /\
    dns.Rcode (MsgHdr m) = dns.RcodeSuccess /\
    Question m = firstQuestion (ask 7 TypeA hostName) /\
    (forall rr, In rr (Answer m) ->
       exists q, firstQuestion (ask 7 TypeA hostName) = [q] /\
                 header rr = {| Name := dns.Name q; Rrtype := dns.Qtype q;
                                Class := ClassINET; Ttl := 5 |}) /\
    (Answer m <> [] ->
     Forall (fun ev => isExchange ev = false)
       (traceOf (ServeDNS (HT := offlineHost []) publicHandler
                   (ask 7 TypeA hostName) tt))).
Proof.
  apply (hostLookup_own_reply (HT := offlineHost []) publicHandler
           (ask 7 TypeA hostName) tt).
  vm_compute. repeat constructor.
Defined.

Lemma hostLookup_AAAA_includes_IPv4_witness :
  ServeDNS (HT := offlineHost hostAddrs) publicHandler
    (ask 7 TypeAAAA hostName) tt =
  (tt,
   [EvLookupIP hostName;
    EvWrite (withAnswer (SetReply zeroMsg (ask 7 TypeAAAA hostName))
               (map (fun ip =>
                       AAAA (recordHeader
                               {| dns.Name := hostName; dns.Qtype := TypeAAAA;
                                  dns.Qclass := 1 |} TypeAAAA) (mapped ip))
                    hostAddrs))],
   tt).
Proof.
  apply (hostLookup_AAAA_includes_IPv4 (HT := offlineHost hostAddrs)
           publicHandler (ask 7 TypeAAAA hostName)
           {| dns.Name := hostName; dns.Qtype := TypeAAAA; dns.Qclass := 1 |}
           [] hostAddrs tt tt).
  - reflexivity.
  - reflexivity.
  - reflexivity.
  - reflexivity.
  - apply List.Forall_cons; [left; reflexivity|].
    apply List.Forall_cons; [right; reflexivity|].
    apply List.Forall_nil.
  - discriminate.
Defined.

Lemma hostLookup_A_keeps_IPv4_only_witness :
  ServeDNS (HT := offlineHost hostAddrs) publicHandler
    (ask 7 TypeA hostName) tt =
  match omap To4 hostAddrs with
  | [] => let '(u, e, w2) := handleDefault (HT := offlineHost hostAddrs)
                               publicHandler (ask 7 TypeA hostName) tt in
          (u, EvLookupIP hostName :: e, w2)
  | v4 => (tt,
           [EvLookupIP hostName;
            EvWrite (withAnswer (SetReply zeroMsg (ask 7 TypeA hostName))
                       (map (A (recordHeader
                                  {| dns.Name := hostName; dns.Qtype := TypeA;
                                     dns.Qclass := 1 |} TypeA)) v4))],
           tt)
  end.
Proof.
  apply (hostLookup_A_keeps_IPv4_only (HT := offlineHost hostAddrs)
           publicHandler (ask 7 TypeA hostName)
           {| dns.Name := hostName; dns.Qtype := TypeA; dns.Qclass := 1 |}
           [] hostAddrs tt tt); reflexivity.
Defined.

Lemma hostLookup_other_types_go_upstream_witness :
  ServeDNS (HT := offlineHost hostAddrs) publicHandler (ask 7 15 hostName) tt
  = handleDefault (HT := offlineHost hostAddrs) publicHandler
      (ask 7 15 hostName) tt.
Proof.
  apply (hostLookup_other_types_go_upstream (HT := offlineHost hostAddrs)
           publicHandler (ask 7 15 hostName) tt).
  intros q [<-|[]]. vm_compute. intuition discriminate.
Defined.

End HostLookupFacts.

(** ** The handler that answers from the host's resolver, with aliases *)

Module CnameLookupFacts.
Import HostLookup CnameLookup.

Section Runs.
Context `{HT : Outside}.

Lemma closedForwarded_app e1 b e2 :
  forwarded false e1 -> forwarded b e2 -> forwarded b (e1 ++ e2).
Proof.
  intros H1 H2. destruct b; simpl in *.
  - destruct H2 as (pre & c & a & m & -> & Hpre).
    exists (e1 ++ pre), c, a, m. split; [now rewrite <- List.app_assoc|].
    apply Forall_app. now split.
  - apply Forall_app. now split.
Qed.

Lemma cnameDefault_run h req w :
  exists (done : bool) e w1,
    forwarded done e /\
    handleDefault h req w =
    if done then (tt, e, w1)
    else (tt, e ++ [EvWrite (SetReply zeroMsg req)], w1).
Proof.
  unfold handleDefault, andThen at 1.
  destruct (untilReturn _ (clients h) w) as [[done e] w1] eqn:Hloop.
  exists done, e, w1. split.
  - revert Hloop.
    apply HostLookupFacts.untilReturn_inv; [constructor | exact closedForwarded_app|].
    intros client w0 b0 e0 w0'.
    apply HostLookupFacts.untilReturn_inv; [constructor | exact closedForwarded_app|].
    intros srv w2 b1 e1 w2'. cbv zeta. unfold andThen, exchange.
    destruct (Exchange w2 client req (srv +:+ ":" +:+ dns.Port (clientConfig h)))
      as [[reply|err] w3]; simpl; intros H; inversion H; subst.
    + exists [], client, (srv +:+ ":" +:+ dns.Port (clientConfig h)), reply.
      split; [reflexivity | constructor].
    + constructor; [|constructor]. now eexists _, _, _.
  - destruct done; simpl; [now rewrite app_nil_r | reflexivity].
Qed.

(** *** One question *)

Lemma To4_length ip ip4 : To4 ip = Some ip4 -> length ip4 = 4%nat.
Proof.
  unfold To4. destruct (length ip =? 4)%nat eqn:H4.
  - intros H; inversion H; subst. now apply Nat.eqb_eq.
  - destruct (length ip =? 16)%nat eqn:H16; simpl; [|discriminate].
    apply Nat.eqb_eq in H16.
    destruct (isZeros (take 10 ip) && (nth 10 ip 0 =? 255)%Z
              && (nth 11 ip 0 =? 255)%Z); [|discriminate].
    intros H; inversion H; subst. rewrite length_drop. lia.
Qed.

Lemma To16_not_IPv4 ip : To4 ip = None -> To4 (orNil (To16 ip)) = None.
Proof.
  intros H. unfold To16.
  destruct (length ip =? 4)%nat eqn:H4.
  - unfold To4 in H. rewrite H4 in H. discriminate H.
  - destruct (length ip =? 16)%nat; [exact H | reflexivity].
Qed.

Lemma sound_adds Q new st st' :
  adds new st st' -> Forall (ownRecord Q) new -> sound Q st -> sound Q st'.
Proof.
  intros [Hfst Hsnd] Hnew [Hh Hown]. split.
  - rewrite Hfst, Hsnd. intros H. apply orb_true_iff in H.
    destruct H as [H|H].
    + specialize (Hh H). destruct (fst st); [now contradiction Hh | discriminate].
    + destruct new; [discriminate H|]. now destruct (fst st).
  - rewrite Hfst. apply Forall_app. now split.
Qed.

Lemma adds_trans n1 n2 st1 st2 st3 :
  adds n1 st1 st2 -> adds n2 st2 st3 -> adds (n1 ++ n2) st1 st3.
Proof.
  intros [F1 S1] [F2 S2]. split.
  - now rewrite F2, F1, List.app_assoc.
  - rewrite S2, S1, <- orb_assoc. f_equal.
    destruct n1, n2; reflexivity.
Qed.

Lemma cnameAddresses_adds q hdr addrs :
  forall st,
    adds (omap (fun ip =>
            if (dns.Qtype q =? TypeA)%Z && negb (isIPv6 ip)
            then Some (A (withRrtype hdr TypeA) (orNil (To4 ip)))
            else if (dns.Qtype q =? TypeAAAA)%Z && isIPv6 ip
            then Some (AAAA (withRrtype hdr TypeAAAA) (orNil (To16 ip)))
            else None) addrs)
         st (addAddresses q hdr addrs st).
Proof.
  unfold addAddresses.
  induction addrs as [|ip addrs IH]; intros st.
  - apply HostLookupFacts.adds_nothing.
  - cbn [fold_left omap list_omap]. unfold isIPv6 at 1 2. cbv zeta.
    destruct ((dns.Qtype q =? TypeA)%Z
              && negb match To4 ip with None => true | Some _ => false end).
    + apply (adds_trans [_] _ _ _ _ (HostLookupFacts.adds_one _ st) (IH _)).
    + destruct ((dns.Qtype q =? TypeAAAA)%Z
                && match To4 ip with None => true | Some _ => false end).
      * apply (adds_trans [_] _ _ _ _ (HostLookupFacts.adds_one _ st) (IH _)).
      * apply IH.
Qed.

Lemma addAddresses_own Q q hdr addrs st :
  In q Q -> Name hdr = dns.Name q -> Class hdr = dns.Qclass q -> Ttl hdr = 5%Z ->
  sound Q st -> sound Q (addAddresses q hdr addrs st).
Proof.
  intros Hq Hn Hc Ht. apply (sound_adds _ _ _ _ (cnameAddresses_adds q hdr addrs st)).
  induction addrs as [|ip addrs IH]; [constructor|].
  cbn [omap list_omap]. unfold isIPv6 at 1 2.
  destruct (To4 ip) as [ip4|] eqn:H4; simpl;
    destruct (dns.Qtype q =? TypeA)%Z; simpl;
    try destruct (dns.Qtype q =? TypeAAAA)%Z; simpl; try exact IH;
    constructor; try exact IH;
    (split;
     [split; [reflexivity
             | first [exact (To4_length _ _ H4) | now apply To16_not_IPv4]]
     | exists q; now repeat split]).
Qed.

Lemma addNameServers_own Q q ns :
  In q Q -> dns.Qtype q = TypeNS ->
  forall st, sound Q st -> sound Q (addNameServers (hdrOf q) ns st).
Proof.
  intros Hq Hty. unfold addNameServers.
  induction ns as [|s ns IH]; intros st Hst; [exact Hst|].
  simpl. destruct (String.eqb (Host s) ""); [now apply IH|].
  apply IH. apply (sound_adds Q [_] st _ (HostLookupFacts.adds_one _ st)); [|exact Hst].
  constructor; [|constructor]. split; [exact Hty|]. exists q. now repeat split.
Qed.

Lemma sound_alias Q q cname st :
  In q Q -> sound Q st ->
  sound Q (CNAME (withRrtype (hdrOf q) TypeCNAME) cname :: fst st, true).
Proof.
  intros Hq [_ Hown]. split; [discriminate|].
  constructor; [|exact Hown]. split; [reflexivity|]. exists q. now repeat split.
Qed.

(** One round asks the resolver of the host only, about the name of
    its question, and keeps the state sound. *)
Lemma answerQuestion_run Q req q st w st' e w' :
  In q Q ->
  answerQuestion req q st w = (st', e, w') ->
  Forall (fun ev => isLookup ev = true) e /\
  (answerable q = true ->
   exists ev, In ev e /\ lookedUp ev = Some (dns.Name q)) /\
  (sound Q st -> sound Q st').
Proof.
  intros Hq. unfold answerQuestion, answerable. cbv zeta.
  destruct ((dns.Qtype q =? TypeCNAME)%Z || (dns.Qtype q =? TypeA)%Z
            || (dns.Qtype q =? TypeAAAA)%Z) eqn:Haddr.
  - unfold andThen at 1. unfold lookupCNAME, call.
    destruct (LookupCNAME w (dns.Name q)) as [r w1].
    set (found := match r with
                  | Ok cname => negb (String.eqb cname "")
                  | Err _ => false
                  end).
    set (hdr := if found then withRrtype (hdrOf q) TypeCNAME else hdrOf q).
    set (st1 := match r with
                | Ok cname => if found then (CNAME hdr cname :: fst st, true) else st
                | Err _ => st
                end).
    assert (Hhdr : Name hdr = dns.Name q /\ Class hdr = dns.Qclass q /\ Ttl hdr = 5%Z)
      by (subst hdr; destruct found; now repeat split).
    assert (Hst1 : sound Q st -> sound Q st1).
    { intros Hst. subst st1 hdr. destruct r as [cname|err]; [|exact Hst].
      destruct found; [|exact Hst]. now apply sound_alias. }
    destruct ((dns.Qtype q =? TypeCNAME)%Z
              || negb (dns.RecursionDesired (MsgHdr req)) && snd st1).
    + unfold pure. intros H; inversion H; subst.
      split; [repeat constructor|]. split; [|exact Hst1].
      intros _. eexists. split; [left; reflexivity | reflexivity].
    + unfold andThen, lookupIP, call.
      destruct (LookupIP w1 (dns.Name q)) as [[addrs|err] w2];
        unfold pure; intros H; inversion H; subst;
        (split; [repeat constructor|]);
        (split; [intros _; eexists; split; [left; reflexivity | reflexivity]|]).
      * intros Hst. destruct Hhdr as (Hn & Hc & Ht).
        apply addAddresses_own; auto.
      * exact Hst1.
  - apply orb_false_iff in Haddr. destruct Haddr as [Haddr _].
    apply orb_false_iff in Haddr. destruct Haddr as [HC HA].
    destruct (Z.eqb_spec (dns.Qtype q) TypeTXT) as [HT'|_].
    + unfold andThen, lookupTXT, call.
      destruct (LookupTXT w (dns.Name q)) as [[[|t txt]|err] w1];
        unfold pure; intros H; inversion H; subst;
        (split; [repeat constructor|]);
        (split; [intros _; eexists; split; [left; reflexivity | reflexivity]|]);
        try (intros Hst; exact Hst).
      intros Hst.
      apply (sound_adds Q [_] st _ (HostLookupFacts.adds_one _ st)); [|exact Hst].
      constructor; [|constructor]. split; [exact HT'|]. exists q. now repeat split.
    + destruct (Z.eqb_spec (dns.Qtype q) TypeNS) as [HN|_].
      * unfold andThen, lookupNS, call.
        destruct (LookupNS w (dns.Name q)) as [[ns|err] w1];
          unfold pure; intros H; inversion H; subst;
          (split; [repeat constructor|]);
          (split; [intros _; eexists; split; [left; reflexivity | reflexivity]|]);
          try (intros Hst; exact Hst).
        now apply addNameServers_own.
      * unfold pure. intros H; inversion H; subst.
        split; [constructor|]. split; [|auto].
        simpl. discriminate.
Qed.

(** *** The loop over the questions, [handleQuery] and [ServeDNS] *)

Lemma forEach_run Q req qs :
  (forall q, In q qs -> In q Q) ->
  forall st w st' e w',
    forEach (answerQuestion req) qs st w = (st', e, w') ->
    Forall (fun ev => isLookup ev = true) e /\
    (forall q, In q qs -> answerable q = true ->
       exists ev, In ev e /\ lookedUp ev = Some (dns.Name q)) /\
    (sound Q st -> sound Q st').
Proof.
  induction qs as [|q qs IH]; intros HQ st w st' e w' Hrun.
  - simpl in Hrun. inversion Hrun; subst.
    split; [constructor|]. split; [intros q []|auto].
  - simpl in Hrun. unfold andThen in Hrun.
    destruct (answerQuestion req q st w) as [[st1 e1] w1] eqn:Hq.
    destruct (forEach (answerQuestion req) qs st1 w1) as [[st2 e2] w2] eqn:Hrest.
    inversion Hrun; subst.
    destruct (answerQuestion_run Q _ _ _ _ _ _ _ (HQ q (or_introl eq_refl)) Hq)
      as (Hl1 & Ha1 & Hs1).
    destruct (IH (fun q' H => HQ q' (or_intror H)) _ _ _ _ _ Hrest)
      as (Hl2 & Ha2 & Hs2).
    split; [apply Forall_app; now split|]. split; [|auto].
    intros q' [<-|Hin] Hans.
    + destruct (Ha1 Hans) as (ev & Hev & Hname).
      exists ev. split; [apply in_or_app; now left | exact Hname].
    + destruct (Ha2 q' Hin Hans) as (ev & Hev & Hname).
      exists ev. split; [apply in_or_app; now right | exact Hname].
Qed.

Lemma cnameQuery_run h req w :
  handleQuery h req w =
  let '(st, e, w1) := forEach (answerQuestion req) (Question req) ([], false) w in
  if snd st
  then (tt, e ++ [EvWrite (withAnswer (SetReply (withRecursionAvailable zeroMsg) req)
                             (fst st)); EvClose], w1)
  else let '(u, e2, w2) := handleDefault h req w1 in (u, e ++ e2, w2).
Proof.
  unfold handleQuery. cbv zeta. unfold andThen at 1.
  change (Answer (SetReply (withRecursionAvailable zeroMsg) req)) with ([] : list RR).
  destruct (forEach (answerQuestion req) (Question req) ([], false) w)
    as [[[ans [|]] e] w1]; simpl.
  - reflexivity.
  - now destruct (handleDefault h req w1) as [[u e2] w2].
Qed.

Lemma cnameLookup_run h req w :
  exists lk tail,
    traceOf (ServeDNS h req w) = lk ++ tail /\
    Forall (fun ev => isLookup ev = true) lk /\
    ends req tail /\
    (forall q, (dns.Opcode (MsgHdr req) =? dns.OpcodeQuery)%Z = true ->
       In q (Question req) -> answerable q = true ->
       exists ev, In ev lk /\ lookedUp ev = Some (dns.Name q)) /\
    ((dns.Opcode (MsgHdr req) =? dns.OpcodeQuery)%Z = false -> lk = []).
Proof.
  assert (Hdef : forall w1, ends req (traceOf (handleDefault h req w1))).
  { intros w1. destruct (cnameDefault_run h req w1) as (done & e & w2 & Hf & ->).
    destruct done; simpl in Hf; unfold traceOf; simpl.
    - destruct Hf as (pre & c & a & m & -> & Hpre). now apply ends_upstream.
    - now apply ends_empty. }
  unfold ServeDNS.
  destruct (dns.Opcode (MsgHdr req) =? dns.OpcodeQuery)%Z.
  - rewrite cnameQuery_run.
    destruct (forEach (answerQuestion req) (Question req) ([], false) w)
      as [[st e] w1] eqn:Hloop.
    destruct (forEach_run (Question req) req (Question req) (fun _ H => H)
                _ _ _ _ _ Hloop) as (Hlk & Hall & Hsound).
    destruct Hsound as [Hh Hown]; [split; [discriminate | constructor]|].
    destruct (snd st) eqn:Hhandled.
    + exists e, [EvWrite (withAnswer (SetReply (withRecursionAvailable zeroMsg) req)
                            (fst st)); EvClose].
      split; [reflexivity|]. split; [exact Hlk|]. split.
      * apply ends_local; [exact (Hh eq_refl) | exact Hown | reflexivity].
      * split; [intros q _; apply Hall | discriminate].
    + specialize (Hdef w1). unfold traceOf in *.
      destruct (handleDefault h req w1) as [[u e2] w2]. simpl in *.
      exists e, e2. split; [reflexivity|]. split; [exact Hlk|].
      split; [exact Hdef|]. split; [intros q _; apply Hall | discriminate].
  - exists [], (traceOf (handleDefault h req w)).
    split; [reflexivity|]. split; [constructor|]. split; [apply Hdef|].
    split; [discriminate | reflexivity].
Qed.

Lemma lookups_quiet lk :
  Forall (fun ev => isLookup ev = true) lk ->
  written lk = [] /\ Forall (fun ev => isClose ev = false) lk /\
  Forall (fun ev => answered ev = false) lk /\
  Forall (fun ev => isExchange ev = false) lk.
Proof.
  induction 1 as [|ev lk Hev _ (Hw & Hc & Ha & Hx)]; [repeat split; constructor|].
  destruct ev; try discriminate Hev; simpl; repeat split; try assumption;
    constructor; auto.
Qed.

Lemma failed_quiet pre :
  Forall failedExchange pre ->
  written pre = [] /\ Forall (fun ev => isClose ev = false) pre /\
  Forall (fun ev => answered ev = false) pre /\
  Forall (fun ev => isLookup ev = false) pre.
Proof.
  induction 1 as [|ev e (c & a & err & ->) _ (Hw & Hc & Ha & Hl)].
  - repeat split; constructor.
  - simpl. repeat split; try assumption; constructor; auto.
Qed.

(** X26: a call of this ServeDNS writes exactly one reply. After a
    reply with records of the host's resolver, and after the reply of an
    upstream server, the writer is closed; after the empty reply that is
    written when every upstream exchange failed it is not. Nothing
    happens after the write or the close. *)
Theorem cnameLookup_closes_after_answers_only h req w :
  exists pre m,
    written pre = [] /\
    Forall (fun ev => isClose ev = false) pre /\
    ((traceOf (ServeDNS h req w) = pre ++ [EvWrite m; EvClose] /\
      ((Answer m <> [] /\ Forall (fun ev => isLookup ev = true) pre) \/
       exists c a pre', pre = pre' ++ [EvExchange c a (Ok m)]))
     \/
     (traceOf (ServeDNS h req w) = pre ++ [EvWrite m] /\
      m = SetReply zeroMsg req /\
      Forall (fun ev => answered ev = false) pre)).
Proof.
  destruct (cnameLookup_run h req w) as (lk & tail & -> & Hlk & He & _).
  destruct (lookups_quiet _ Hlk) as (Hwl & Hcl & Hal & _).
  destruct He as [m Hne _ _|pre c a m Hpre|pre Hpre].
  - exists lk, m. split; [exact Hwl|]. split; [exact Hcl|].
    left. split; [reflexivity|]. left. now split.
  - destruct (failed_quiet _ Hpre) as (Hwp & Hcp & _ & _).
    exists (lk ++ pre ++ [EvExchange c a (Ok m)]), m.
    split; [rewrite !HostLookupFacts.hostWritten_app, Hwl, Hwp; reflexivity|].
    split; [repeat (apply Forall_app; split); auto; repeat constructor|].
    left. split; [now rewrite <- !List.app_assoc|].
    right. exists c, a, (lk ++ pre). now rewrite <- List.app_assoc.
  - destruct (failed_quiet _ Hpre) as (Hwp & Hcp & Hap & _).
    exists (lk ++ pre), (SetReply zeroMsg req).
    split; [rewrite HostLookupFacts.hostWritten_app, Hwl, Hwp; reflexivity|].
    split; [apply Forall_app; now split|].
    right. split; [now rewrite <- List.app_assoc|]. split; [reflexivity|].
    apply Forall_app. now split.
Qed.

(** X27: for a QUERY, the resolver of the host is asked about every
    question of the request whose type is CNAME, A, AAAA, TXT or NS,
    not only about the first; all lookups come before any exchange or
    write, and a request with another opcode causes none. *)
Theorem cnameLookup_looks_up_every_question h req w :
  exists lk rest,
    traceOf (ServeDNS h req w) = lk ++ rest /\
    Forall (fun ev => isLookup ev = true) lk /\
    Forall (fun ev => isLookup ev = false) rest /\
    (forall q, (dns.Opcode (MsgHdr req) =? dns.OpcodeQuery)%Z = true ->
       In q (Question req) -> answerable q = true ->
       exists ev, In ev lk /\ lookedUp ev = Some (dns.Name q)) /\
    ((dns.Opcode (MsgHdr req) =? dns.OpcodeQuery)%Z = false -> lk = []).
Proof.
  destruct (cnameLookup_run h req w) as (lk & tail & Heq & Hlk & He & Hall & Hnone).
  exists lk, tail. split; [exact Heq|]. split; [exact Hlk|].
  split; [|split; assumption].
  destruct He as [m _ _ _|pre c a m Hpre|pre Hpre].
  - repeat constructor.
  - destruct (failed_quiet _ Hpre) as (_ & _ & _ & Hl).
    apply Forall_app. split; [exact Hl | repeat constructor].
  - destruct (failed_quiet _ Hpre) as (_ & _ & _ & Hl).
    apply Forall_app. split; [exact Hl | repeat constructor].
Qed.

Lemma own_reply h req w :
  Forall (fun ev => answered ev = false) (traceOf (ServeDNS h req w)) ->
  exists m,
    written (traceOf (ServeDNS h req w)) = [m] /\
    ((Answer m <> [] /\
      Forall (ownRecord (Question req)) (Answer m) /\
      m = withAnswer (SetReply (withRecursionAvailable zeroMsg) req) (Answer m) /\
      Forall (fun ev => isExchange ev = false) (traceOf (ServeDNS h req w)))
     \/ m = SetReply zeroMsg req).
Proof.
  intros Hno.
  destruct (cnameLookup_run h req w) as (lk & tail & Heq & Hlk & He & _).
  rewrite Heq in *. destruct (lookups_quiet _ Hlk) as (Hwl & _ & _ & Hxl).
  rewrite HostLookupFacts.hostWritten_app, Hwl.
  destruct He as [m Hne Hown Hm|pre c a m Hpre|pre Hpre].
  - exists m. split; [reflexivity|]. left.
    repeat split; try assumption.
    apply Forall_app. split; [exact Hxl | repeat constructor].
  - exfalso. rewrite List.Forall_forall in Hno.
    specialize (Hno (EvExchange c a (Ok m))). simpl in Hno.
    assert (false = true -> False) by discriminate. apply H. symmetry. apply Hno.
    apply in_or_app. right. apply in_or_app. right. now left.
  - destruct (failed_quiet _ Hpre) as (Hwp & _).
    exists (SetReply zeroMsg req).
    rewrite HostLookupFacts.hostWritten_app, Hwp. split; [reflexivity | now right].
Qed.

(** X28: when no upstream server answered, the reply written carries
    the id of the request, the response flag, the response code
    success and only the first question of the request. With records
    in it, the recursion-available flag is set and no upstream server
    was contacted; the empty reply after failed exchanges has the flag
    clear. *)
Theorem cnameLookup_own_reply_header h req w :
  Forall (fun ev => answered ev = false) (traceOf (ServeDNS h req w)) ->
  exists m,
    written (traceOf (ServeDNS h req w)) = [m] /\
    dns.Id (MsgHdr m) = dns.Id (MsgHdr req) /\
    dns.Response (MsgHdr m) = true /\
    dns.Rcode (MsgHdr m) = dns.RcodeSuccess /\
    Question m = firstQuestion req /\
    dns.RecursionAvailable (MsgHdr m)
    = match Answer m with [] => false | _ => true end /\
    (Answer m <> [] ->
     Forall (fun ev => isExchange ev = false) (traceOf (ServeDNS h req w))).
Proof.
  intros Hno. destruct (own_reply h req w Hno) as (m & Hw & Hm).
  exists m. split; [exact Hw|].
  destruct Hm as [(Hne & _ & Hm & Hx)| ->].
  - rewrite Hm. do 4 (split; [reflexivity|]).
    split; [|now intros _].
    simpl. destruct (Answer m); [now contradiction Hne | reflexivity].
  - do 4 (split; [reflexivity|]). split; [reflexivity|].
    intros Hne. now contradiction Hne.
Qed.

(** X29: when no upstream server answered, every record of the reply
    written was made for a question of the request (any of them, not
    only the first, which alone is listed in the reply): it carries
    the name and the class of that question and a TTL of 5 seconds.
    Its header type fits its kind; an A record holds 4 bytes, and an
    AAAA record never holds an address that has a 4-byte form, so IPv4
    addresses are not given as AAAA records. *)
Theorem cnameLookup_records_fit_questions h req w :
  Forall (fun ev => answered ev = false) (traceOf (ServeDNS h req w)) ->
  exists m,
    written (traceOf (ServeDNS h req w)) = [m] /\
    forall rr, In rr (Answer m) ->
      (exists q, In q (Question req) /\
                 Name (header rr) = dns.Name q /\
                 Class (header rr) = dns.Qclass q /\
                 Ttl (header rr) = 5%Z) /\
      match rr with
      | A hdr ip => Rrtype hdr = TypeA /\ length ip = 4%nat
      | AAAA hdr ip => Rrtype hdr = TypeAAAA /\ To4 ip = None
      | CNAME hdr _ => Rrtype hdr = TypeCNAME
      | TXT hdr _ => Rrtype hdr = TypeTXT
      | NS hdr _ => Rrtype hdr = TypeNS
      | Other _ _ => False
      end.
Proof.
  intros Hno. destruct (own_reply h req w Hno) as (m & Hw & Hm).
  exists m. split; [exact Hw|].
  destruct Hm as [(_ & Hown & _)| ->]; [|intros rr []].
  intros rr Hrr. rewrite List.Forall_forall in Hown.
  destruct (Hown rr Hrr) as [Hty (q & Hq & Habout)].
  split; [now exists q | exact Hty].
Qed.

Lemma addresses_A q hdr addrs :
  dns.Qtype q = TypeA ->
  omap (fun ip =>
          if (dns.Qtype q =? TypeA)%Z && negb (isIPv6 ip)
          then Some (A (withRrtype hdr TypeA) (orNil (To4 ip)))
          else if (dns.Qtype q =? TypeAAAA)%Z && isIPv6 ip
          then Some (AAAA (withRrtype hdr TypeAAAA) (orNil (To16 ip)))
          else None) addrs
  = map (A (withRrtype hdr TypeA)) (omap To4 addrs).
Proof.
  intros ->. induction addrs as [|ip addrs IH]; [reflexivity|].
  cbn [omap list_omap]. unfold isIPv6 at 1 2.
  change (TypeA =? TypeA)%Z with true. change (TypeA =? TypeAAAA)%Z with false.
  destruct (To4 ip) as [ip4|]; cbn [negb andb orNil].
  - cbn [map]. f_equal. exact IH.
  - exact IH.
Qed.

(** X30: an A question for a name that has an alias. The alias is
    looked up first and its CNAME record stands first in the answer.
    If the request desires recursion the addresses are looked up too
    and the A records of those with a 4-byte form follow; if not, the
    alias alone is the answer and the addresses are not looked up. *)
Theorem cnameLookup_alias_first h req q cname addrs w w1 w2 :
  dns.Opcode (MsgHdr req) = dns.OpcodeQuery ->
  Question req = [q] ->
  dns.Qtype q = TypeA ->
  LookupCNAME w (dns.Name q) = (Ok cname, w1) ->
  cname <> "" ->
  LookupIP w1 (dns.Name q) = (Ok addrs, w2) ->
  ServeDNS h req w =
  let reply := SetReply (withRecursionAvailable zeroMsg) req in
  let alias :=
    CNAME {| Name := dns.Name q; Rrtype := TypeCNAME;
             Class := dns.Qclass q; Ttl := 5 |} cname in
  if dns.RecursionDesired (MsgHdr req)
  then (tt,
        [EvLookupCNAME (dns.Name q); EvLookupIP (dns.Name q);
         EvWrite (withAnswer reply
                    (alias :: map (A {| Name := dns.Name q; Rrtype := TypeA;
                                        Class := dns.Qclass q; Ttl := 5 |})
                                  (omap To4 addrs)));
         EvClose], w2)
  else (tt,
        [EvLookupCNAME (dns.Name q);
         EvWrite (withAnswer reply [alias]); EvClose], w1).
Proof.
  intros Hop Hq Hty Hc Hne Hip.
  unfold ServeDNS. rewrite Hop, Z.eqb_refl, cnameQuery_run, Hq.
  apply String.eqb_neq in Hne.
  simpl forEach. unfold andThen at 1. unfold answerQuestion.
  rewrite Hty.
  change ((TypeA =? TypeCNAME)%Z || (TypeA =? TypeA)%Z || (TypeA =? TypeAAAA)%Z)
    with true.
  change (TypeA =? TypeCNAME)%Z with false.
  cbv beta iota zeta. unfold andThen at 1.
  unfold lookupCNAME, call. rewrite Hc. cbv beta iota zeta. rewrite Hne.
  destruct (dns.RecursionDesired (MsgHdr req)); cbn [negb andb orb snd fst].
  - unfold andThen, lookupIP, call. rewrite Hip. unfold pure.
    pose proof (cnameAddresses_adds q (withRrtype (hdrOf q) TypeCNAME) addrs
                  ([CNAME (withRrtype (hdrOf q) TypeCNAME) cname], true))
      as [Hfst Hsnd].
    rewrite (addresses_A _ _ _ Hty) in Hfst.
    destruct (addAddresses q (withRrtype (hdrOf q) TypeCNAME) addrs
                ([CNAME (withRrtype (hdrOf q) TypeCNAME) cname], true))
      as [ans hd]. simpl in Hfst, Hsnd. subst ans hd. reflexivity.
  - unfold pure. reflexivity.
Qed.

End Runs.

Lemma cnameLookup_own_reply_header_witness :
  exists m,
    written (traceOf (ServeDNS (HT := aliasHost aliasName hostAddrs)
                        publicHandler (ask 7 TypeA hostName) tt)) = [m] /\
    dns.Id (MsgHdr m) = dns.Id (MsgHdr (ask 7 TypeA hostName)) /\
    dns.Response (MsgHdr m) = true /\
    dns.Rcode (MsgHdr m) = dns.RcodeSuccess /\
    Question m = firstQuestion (ask 7 TypeA hostName) /\
    dns.RecursionAvailable (MsgHdr m)
    = match Answer m with [] => false | _ => true end /\
    (Answer m <> [] ->
     Forall (fun ev => isExchange ev = false)
       (traceOf (ServeDNS (HT := aliasHost aliasName hostAddrs)
                   publicHandler (ask 7 TypeA hostName) tt))).
Proof.
  apply (cnameLookup_own_reply_header (HT := aliasHost aliasName hostAddrs)
           publicHandler (ask 7 TypeA hostName) tt).
  vm_compute. repeat constructor.
Defined.

Lemma cnameLookup_records_fit_questions_witness :
  exists m,
    written (traceOf (ServeDNS (HT := aliasHost aliasName hostAddrs)
                        publicHandler (ask 7 TypeAAAA hostName) tt)) = [m] /\
    forall rr, In rr (Answer m) ->
      (exists q, In q (Question (ask 7 TypeAAAA hostName)) /\
                 Name (header rr) = dns.Name q /\
                 Class (header rr) = dns.Qclass q /\
                 Ttl (header rr) = 5%Z) /\
      match rr with
      | A hdr ip => Rrtype hdr = TypeA /\ length ip = 4%nat
      | AAAA hdr ip => Rrtype hdr = TypeAAAA /\ To4 ip = None
      | CNAME hdr _ => Rrtype hdr = TypeCNAME
      | TXT hdr _ => Rrtype hdr = TypeTXT
      | NS hdr _ => Rrtype hdr = TypeNS
      | Other _ _ => False
      end.
Proof.
  apply (cnameLookup_records_fit_questions (HT := aliasHost aliasName hostAddrs)
           publicHandler (ask 7 TypeAAAA hostName) tt).
  vm_compute. repeat constructor.
Defined.

Lemma cnameLookup_alias_first_witness :
  ServeDNS (HT := aliasHost aliasName hostAddrs) publicHandler
    (ask 7 TypeA hostName) tt =
  (tt,
   [EvLookupCNAME hostName; EvLookupIP hostName;
    EvWrite (withAnswer
               (SetReply (withRecursionAvailable zeroMsg) (ask 7 TypeA hostName))
               [CNAME {| Name := hostName; Rrtype := TypeCNAME;
                         Class := 1; Ttl := 5 |} aliasName;
                A {| Name := hostName; Rrtype := TypeA; Class := 1; Ttl := 5 |}
                  [192; 168; 5; 2]%Z]);
    EvClose], tt).
Proof.
  apply (cnameLookup_alias_first (HT := aliasHost aliasName hostAddrs)
           publicHandler (ask 7 TypeA hostName)
           {| dns.Name := hostName; dns.Qtype := TypeA; dns.Qclass := 1 |}
           aliasName hostAddrs tt tt tt); try reflexivity.
  discriminate.
Defined.

End CnameLookupFacts.

(** ** The further theorems at concrete inputs *)

Lemma ServeDNS_contacts_configured_servers_witness :
  exists clientConfig,
    groupFor Sample.corpHandler
      (Sample.request 7 dns.OpcodeQuery "db.internal.corp.") clientConfig /\
    In udpClient (clients Sample.corpHandler) /\
    In "10.0.0.53:53" (addresses clientConfig).
Proof.
  apply (ServeDNS_contacts_configured_servers (RT := Scripted.runtime)
           Sample.corpHandler
           (Sample.request 7 dns.OpcodeQuery "db.internal.corp.")
           (Scripted.script []) udpClient "10.0.0.53:53" Sample.timeout).
  vm_compute. right. right. left. reflexivity.
Defined.

Lemma ServeDNS_tries_matching_scopes_only_witness :
  (dns.OpcodeQuery = dns.OpcodeQuery \/ dns.OpcodeQuery = dns.OpcodeIQuery) /\
  exists q ccs,
    In q [Sample.question "db.internal.corp."] /\
    domainMatches (dns.Name q) "internal.corp" = true /\
    domainClientConfigs Sample.corpHandler !! "internal.corp" = Some ccs /\
    In Sample.corpConfig ccs.
Proof.
  apply (ServeDNS_tries_matching_scopes_only (RT := Scripted.runtime)
           Sample.corpHandler
           (Sample.request 7 dns.OpcodeQuery "db.internal.corp.")
           (Scripted.script []) "internal.corp" Sample.corpConfig).
  vm_compute. right. left. reflexivity.
Defined.

Lemma matchDomainConfig_without_match_witness :
  valueOf (matchDomainConfig (RT := Scripted.runtime) Sample.corpHandler
             (Sample.request 5 dns.OpcodeQuery "www.example.org.")
             (Sample.question "www.example.org.") (Scripted.script []))
  = errors_New "No working match found" /\
  traceOf (matchDomainConfig (RT := Scripted.runtime) Sample.corpHandler
             (Sample.request 5 dns.OpcodeQuery "www.example.org.")
             (Sample.question "www.example.org.") (Scripted.script []))
  = [EvMatch (Sample.question "www.example.org.")].
Proof.
  apply (matchDomainConfig_without_match (RT := Scripted.runtime)).
  intros domain ccs H. unfold Sample.corpHandler in H. simpl in H.
  apply lookup_singleton_Some in H.
  destruct H as [<- _]. reflexivity.
Defined.


Lemma newHandler_table_well_formed_witness :
  let h := {| domainClientConfigs :=
                {[ "lab" := [{| dns.Servers := ["10.9.0.1"; "10.9.0.2"];
                                dns.Port := "53" |}];
                   "internal.corp" := [Sample.corpConfig] ]};
              defaultClientConfigs :=
                [{| dns.Servers := ["192.168.1.1"]; dns.Port := "53" |}];
              clients := [udpClient; tcpClient] |} in
  domainClientConfigs h !! "" = None /\
  forall d ccs, domainClientConfigs h !! d = Some ccs -> ccs <> [].
Proof.
  intros h. apply (newHandler_table_well_formed Sample.macEnv h).
  vm_compute. reflexivity.
Defined.

Lemma newHandler_groups_are_reachable_entries_witness :
  exists cc,
    builds Sample.macEnv Sample.labVPN cc /\
    exists ccs,
      ({[ "lab" := [{| dns.Servers := ["10.9.0.1"; "10.9.0.2"];
                       dns.Port := "53" |}];
          "internal.corp" := [Sample.corpConfig] ]}
         : gmap string (list dns.ClientConfig)) !! "lab" = Some ccs /\
      In cc ccs.
Proof.
  destruct (newHandler_groups_are_reachable_entries Sample.macEnv
              [Sample.wifi; Sample.corpVPN; Sample.mdns; Sample.labVPN]
              {| domainClientConfigs :=
                   {[ "lab" := [{| dns.Servers := ["10.9.0.1"; "10.9.0.2"];
                                   dns.Port := "53" |}];
                      "internal.corp" := [Sample.corpConfig] ]};
                 defaultClientConfigs :=
                   [{| dns.Servers := ["192.168.1.1"]; dns.Port := "53" |}];
                 clients := [udpClient; tcpClient] |}
              eq_refl) as (_ & _ & Hall).
  - vm_compute. reflexivity.
  - apply (Hall Sample.labVPN).
    + right. right. right. left. reflexivity.
    + reflexivity.
Defined.

Lemma newHandler_fallback_single_group_witness :
  let h := {| domainClientConfigs := ∅;
              defaultClientConfigs :=
                [{| dns.Servers := ["8.8.8.8"; "1.1.1.1"]; dns.Port := "53" |}];
              clients := [udpClient; tcpClient] |} in
  domainClientConfigs h = ∅ /\
  clients h = [udpClient; tcpClient] /\
  exists cc,
    defaultClientConfigs h = [cc] /\
    (ClientConfigFromFile Sample.bareEnv "/etc/resolv.conf" = Ok cc \/
     ((exists e2, ClientConfigFromFile Sample.bareEnv "/etc/resolv.conf" = Err e2) /\
      newStaticClientConfig Sample.bareEnv fallbackIPs = Ok cc)).
Proof.
  intros h.
  apply (newHandler_fallback_single_group Sample.bareEnv
           "scutil: executable file not found" h).
  - reflexivity.
  - vm_compute. reflexivity.
Defined.

Lemma listeners_on_loopback_witness :
  let a := {| udpDNSLocalPort := 5353; tcpDNSLocalPort := 0 |} in
  let s := {| udp := Some {| dns.srvNet := "udp"; dns.Addr := "127.0.0.1:5353";
                             dns.started := true |};
              tcp := None |} in
  (forall d, udp s = Some d -> listensOn "udp" (udpDNSLocalPort a) d) /\
  (forall d, tcp s = Some d -> listensOn "tcp" (tcpDNSLocalPort a) d).
Proof.
  intros a s.
  pose (h := {| domainClientConfigs := ∅;
                defaultClientConfigs :=
                  [{| dns.Servers := ["8.8.8.8"; "1.1.1.1"]; dns.Port := "53" |}];
                clients := [udpClient; tcpClient] |}).
  pose (g := goUDP "127.0.0.1:5353" h).
  apply (listeners_on_loopback a Sample.bareEnv
           {| udp := None; tcp := None |} nil [g] s).
  - vm_compute. reflexivity.
  - apply (reach_serving [g] g (assign g {| udp := None; tcp := None |})).
    + left. reflexivity.
    + apply reach_assign; [left; reflexivity | apply reach_init].
Defined.
